(** * Prediction Tracker: request middleware and CRUD handlers

    A shallow embedding of the TypeScript sources of the prediction tracker.
    The repository holds two revisions of its server:
    - [index.tsx] with [security.ts]: the checks are middleware
      ([rateLimiter(config)], [validateHoneypot()], ...) and a few inline
      tests in the handlers; the verification handler looks the prediction
      up before it inserts. Modules [Security] and [App].
    - the hardened revision of the two files: a rate limiter that blocks,
      [validateInput(data, type)], [validateHoneypot(value)] and
      [validateCaptcha(answer, expected)] called inside the handlers.
      Modules [Hardened] and [HardenedApp].
    Both read and write the same D1 tables (module [DB]) and share the
    listing query (module [Listing]).

    Conventions.
    - A value of a JSON body is a [jsval]. Numbers are exact integers (no
      rounding of large values, no fractions) and strings are ASCII text.
    - [Date.now()], [Math.random() < 0.1], [new Date()] and [date('now')]
      are inputs of the functions that read them; [new Date(v)], [new URL(s)]
      and the conversion of a string to a number are variables of the
      sections that use them.
    - A middleware or handler is a function from the store it reads to the
      store it leaves and the response it sends; a call that throws is a
      [Throw]. *)

From stdpp Require Import gmap strings list pretty.
From Stdlib Require Import ZArith Ascii Lia.

Local Open Scope Z_scope.

(** ** JavaScript values and the host functions the sources call *)

Module JS.

#[warnings="-register-all"]
Inductive jsval :=
| JUndefined
| JNull
| JBool (b : bool)
| JNum (n : Z)
| JStr (s : string)
| JArr (l : list jsval)
| JObj (fields : list (string * jsval)).

(** ToBoolean: what [!v], [v && _] and [v || _] test. *)
Definition truthy (v : jsval) : bool :=
  match v with
  | JUndefined | JNull => false
  | JBool b => b
  | JNum n => negb (n =? 0)
  | JStr s => negb (String.eqb s "")
  | JArr _ | JObj _ => true
  end.

(** [a || b] on values. *)
Definition or_else (a b : jsval) : jsval := if truthy a then a else b.

(** ToString; an array joins its elements with commas, [null] and
    [undefined] elements printing as the empty string. *)
Fixpoint ToString (v : jsval) : string :=
  match v with
  | JUndefined => "undefined"
  | JNull => "null"
  | JBool true => "true"
  | JBool false => "false"
  | JNum n => pretty n
  | JStr s => s
  | JArr l =>
      (fix join (l : list jsval) : string :=
         match l with
         | [] => ""
         | x :: r =>
             let sx := match x with JUndefined | JNull => "" | _ => ToString x end in
             match r with [] => sx | _ => sx +:+ "," +:+ join r end
         end) l
  | JObj _ => "[object Object]"
  end.

(** Strict equality [v === s] against a string. *)
Definition strict_eq_str (v : jsval) (s : string) : bool :=
  match v with JStr t => String.eqb t s | _ => false end.

(** *** Characters *)

Definition code (c : ascii) : Z := Z.of_nat (nat_of_ascii c).

(** White space and line terminators of the ASCII range, as [trim] and
    [parseInt] skip them. *)
Definition is_space (c : ascii) : bool :=
  let n := code c in (n =? 9) || (n =? 10) || (n =? 11) || (n =? 12) || (n =? 13) || (n =? 32).

Definition is_line_terminator (c : ascii) : bool :=
  let n := code c in (n =? 10) || (n =? 13).

Definition lower_char (c : ascii) : ascii :=
  let n := code c in
  if (65 <=? n) && (n <=? 90) then ascii_of_nat (Z.to_nat (n + 32)) else c.

Definition digit_value (radix : Z) (c : ascii) : option Z :=
  let n := code c in
  let d :=
    if (48 <=? n) && (n <=? 57) then Some (n - 48)
    else if (97 <=? n) && (n <=? 122) then Some (n - 87)
    else if (65 <=? n) && (n <=? 90) then Some (n - 55)
    else None in
  match d with
  | Some k => if k <? radix then Some k else None
  | None => None
  end.

(** A decimal digit character. *)
Definition digit_char (c : ascii) : Prop :=
  exists d, (d < 10)%N /\ c = pretty_N_char d.

(** *** Strings *)

Fixpoint lower (s : string) : string :=
  match s with
  | EmptyString => EmptyString
  | String c r => String (lower_char c) (lower r)
  end.

Fixpoint trim_start (s : string) : string :=
  match s with
  | String c r => if is_space c then trim_start r else s
  | EmptyString => EmptyString
  end.

(** [String.prototype.trim]. *)
Definition trim (s : string) : string :=
  String.rev (trim_start (String.rev (trim_start s))).

(** [s.substring(0, n)]. *)
Fixpoint take (n : nat) (s : string) : string :=
  match n, s with
  | S k, String c r => String c (take k r)
  | _, _ => EmptyString
  end.

Fixpoint starts_with (p s : string) : bool :=
  match p, s with
  | EmptyString, _ => true
  | String a p', String b s' => if Ascii.eqb a b then starts_with p' s' else false
  | String _ _, EmptyString => false
  end.

(** A literal pattern [/p/] tested against [s]: [p] occurs somewhere. *)
Fixpoint contains (p s : string) : bool :=
  starts_with p s ||
  match s with
  | EmptyString => false
  | String _ r => contains p r
  end.

(** A literal pattern with the [i] flag; [p] is written in lower case. *)
Definition contains_ci (p s : string) : bool := contains p (lower s).

(** [/<.*>/]: a [<], then characters other than line terminators, then [>]. *)
Fixpoint closes_on_line (s : string) : bool :=
  match s with
  | EmptyString => false
  | String c r =>
      if Ascii.eqb c ">" then true
      else if is_line_terminator c then false
      else closes_on_line r
  end.

Fixpoint tag_like (s : string) : bool :=
  match s with
  | EmptyString => false
  | String c r => (Ascii.eqb c "<" && closes_on_line r) || tag_like r
  end.

(** Replace every occurrence of one character by a string. *)
Fixpoint replace_char (c : ascii) (by_ : string) (s : string) : string :=
  match s with
  | EmptyString => EmptyString
  | String d r =>
      if Ascii.eqb c d then by_ +:+ replace_char c by_ r
      else String d (replace_char c by_ r)
  end.

(** *** parseInt *)

(** The longest prefix of digits of the radix, read left to right; [seen]
    records whether a digit was read. *)
Fixpoint parse_digits (radix : Z) (acc : Z) (seen : bool) (s : string) : option Z :=
  match s with
  | EmptyString => if seen then Some acc else None
  | String c r =>
      match digit_value radix c with
      | Some d => parse_digits radix (acc * radix + d) true r
      | None => if seen then Some acc else None
      end
  end.

Definition strip_hex (s : string) : option string :=
  match s with
  | String "0" (String x r) =>
      if Ascii.eqb x "x" || Ascii.eqb x "X" then Some r else None
  | _ => None
  end.

Definition parse_unsigned (s : string) : option Z :=
  match strip_hex s with
  | Some r => parse_digits 16 0 false r
  | None => parse_digits 10 0 false s
  end.

(** [parseInt(s)] on a string; [None] is NaN. *)
Definition parseInt_string (s : string) : option Z :=
  match trim_start s with
  | String "-" r => Z.opp <$> parse_unsigned r
  | String "+" r => parse_unsigned r
  | t => parse_unsigned t
  end.

(** [parseInt(v)]: the argument is converted to a string first. *)
Definition parseInt (v : jsval) : option Z := parseInt_string (ToString v).

(** [Math.ceil(a / d)] for integers [a] and a positive integer [d]. *)
Definition ceil_div (a d : Z) : Z := - ((- a) / d).

(** [list.includes(v)] on an array of strings. *)
Definition includes (l : list string) (v : jsval) : bool :=
  existsb (strict_eq_str v) l.

(** A property of a parsed JSON object; an absent property reads
    [undefined]. *)
Definition prop (data : gmap string jsval) (k : string) : jsval :=
  default JUndefined (data !! k).

End JS.

Import JS.

(** ** Responses *)

(** What a middleware or handler does with a request: it answers with a JSON
    object and a status ([c.json(body, status)]), or it sets response headers
    and hands over to the next handler ([await next()]). *)
Inductive outcome :=
| Reply (status : Z) (body : list (string * jsval))
| Next (headers : list (string * string)).

Definition status_of (o : outcome) : option Z :=
  match o with Reply st _ => Some st | Next _ => None end.

Definition body_field (o : outcome) (k : string) : option jsval :=
  match o with
  | Reply _ b => snd <$> List.find (fun kv => String.eqb (fst kv) k) b
  | Next _ => None
  end.

(** An evaluation completes normally or throws. *)
Inductive completion (A : Type) :=
| Normal (a : A)
| Throw (error : string).
Arguments Normal {A} a.
Arguments Throw {A} error.

(** The connection headers the middleware reads. *)
Record Headers := {
  CF_Connecting_IP : option string;
  X_Forwarded_For : option string;
  X_Real_IP : option string;
  User_Agent : option string;
  Content_Length : option string
}.

(** [h || rest] on an optional header: an absent or empty header is falsy. *)
Definition header_or (h : option string) (rest : string) : string :=
  match h with
  | Some s => if String.eqb s "" then rest else s
  | None => rest
  end.

(** ** The hardened security module (blocking rate limiter, two-argument
    [validateInput], CAPTCHA) *)

Module Hardened.

Record RateLimitEntry := {
  count : Z;
  windowStart : Z;
  blocked : option bool;
  blockUntil : option Z
}.

(** [rateLimitStore]: a [Map] from client key to entry. *)
Abbreviation Store := (gmap string RateLimitEntry).

Record LimitConfig := { max : Z; window : Z }.

(** [SECURITY_CONFIG]. *)
Definition WINDOW_MS : Z := 60 * 1000.
Definition MAX_REQUESTS : Z := 30.
Definition STRICT_ENDPOINTS : list (string * LimitConfig) :=
  [ ("/api/predictions", {| max := 5; window := 60 * 1000 |});
    ("/api/predictions/*/verify", {| max := 10; window := 60 * 1000 |}) ].
Definition SUSPICIOUS_THRESHOLD : Z := 100.
Definition BLOCK_DURATION : Z := 15 * 60 * 1000.

Definition PREDICTION_TEXT_MAX : nat := 2000.
Definition PREDICTOR_NAME_MAX : nat := 100.
Definition DESCRIPTION_MAX : nat := 500.
Definition URL_MAX : nat := 2048.
Definition NOTES_MAX : nat := 1000.

(** [entry.blockUntil && now > entry.blockUntil]. *)
Definition block_expired (now : Z) (e : RateLimitEntry) : bool :=
  match blockUntil e with
  | Some b => negb (b =? 0) && (b <? now)
  | None => false
  end.

(** The entries [cleanupRateLimit] deletes. *)
Definition stale (now : Z) (e : RateLimitEntry) : bool :=
  if block_expired now e then true
  else WINDOW_MS * 2 <? now - windowStart e.

Definition cleanupRateLimit (now : Z) (store : Store) : Store :=
  filter (fun kv => stale now (snd kv) = false) store.

(** [entry?.blocked && entry.blockUntil && now < entry.blockUntil]: the
    remaining block, when there is one. *)
Definition active_block (now : Z) (entry : option RateLimitEntry) : option Z :=
  match entry with
  | Some e =>
      match blocked e, blockUntil e with
      | Some true, Some b => if negb (b =? 0) && (now <? b) then Some b else None
      | _, _ => None
      end
  | None => None
  end.

Definition strict_config (endpoint : string) : option LimitConfig :=
  snd <$> List.find (fun kv => String.eqb (fst kv) endpoint) STRICT_ENDPOINTS.

(** The limits of an endpoint: its strict limits, or the global ones. *)
Definition config_for (endpoint : option string) : LimitConfig :=
  match endpoint with
  | Some ep =>
      if String.eqb ep "" then {| max := MAX_REQUESTS; window := WINDOW_MS |}
      else match strict_config ep with
           | Some cfg => cfg
           | None => {| max := MAX_REQUESTS; window := WINDOW_MS |}
           end
  | None => {| max := MAX_REQUESTS; window := WINDOW_MS |}
  end.

Definition clientIP (h : Headers) : string :=
  header_or (CF_Connecting_IP h) (header_or (X_Forwarded_For h) (header_or (X_Real_IP h) "unknown")).

(** The store key: client address, a colon, the endpoint or [global]. *)
Definition key_of (endpoint : option string) (h : Headers) : string :=
  clientIP h +:+ ":" +:+ header_or endpoint "global".

(** The store as the request reads it: one request in ten first runs
    [cleanupRateLimit], at its own reading of the clock. *)
Definition after_cleanup (cleanup : option Z) (store : Store) : Store :=
  match cleanup with
  | Some t => cleanupRateLimit t store
  | None => store
  end.

(** Initialize or update the entry of the key. *)
Definition bump (now : Z) (cfg : LimitConfig) (entry : option RateLimitEntry) : RateLimitEntry :=
  match entry with
  | Some e =>
      if window cfg <? now - windowStart e
      then {| count := 1; windowStart := now; blocked := Some false; blockUntil := None |}
      else {| count := count e + 1; windowStart := windowStart e;
              blocked := blocked e; blockUntil := blockUntil e |}
  | None => {| count := 1; windowStart := now; blocked := Some false; blockUntil := None |}
  end.

(** [rateLimiter(endpoint)] applied to a request: [now] is [Date.now()],
    [cleanup] is [Some t] when [Math.random() < 0.1] and the cleanup read the
    clock at [t]. *)
Definition rateLimiter (endpoint : option string) (h : Headers) (now : Z)
    (cleanup : option Z) (store : Store) : Store * outcome :=
  let key := key_of endpoint h in
  let store := after_cleanup cleanup store in
  let entry := store !! key in
  match active_block now entry with
  | Some until =>
      (store,
       Reply 429 [ ("error", JStr "Too many requests. Please try again later.");
                   ("retryAfter", JNum (ceil_div (until - now) 1000)) ])
  | None =>
      let config := config_for endpoint in
      let entry := bump now config entry in
      let store := <[key := entry]> store in
      if max config <? count entry then
        if SUSPICIOUS_THRESHOLD <? count entry then
          let entry := {| count := count entry; windowStart := windowStart entry;
                          blocked := Some true;
                          blockUntil := Some (now + BLOCK_DURATION) |} in
          (<[key := entry]> store,
           Reply 429 [ ("error", JStr "Suspicious activity detected. Access temporarily blocked.");
                       ("retryAfter", JNum (BLOCK_DURATION / 1000)) ])
        else
          (store,
           Reply 429 [ ("error", JStr "Rate limit exceeded. Please slow down.");
                       ("limit", JNum (max config));
                       ("window", JNum (window config / 1000));
                       ("retryAfter",
                        JNum (ceil_div (windowStart entry + window config - now) 1000)) ])
      else
        (store,
         Next [ ("X-RateLimit-Limit", pretty (max config));
                ("X-RateLimit-Remaining", pretty (max config - count entry));
                ("X-RateLimit-Reset",
                 pretty (ceil_div (windowStart entry + window config) 1000)) ])
  end.


(** *** Input validation *)

(** [validateInput] pushes messages onto its [errors] array as it goes, and
    a method call on a value that has no such method throws: a computation
    reads the messages pushed so far and returns them extended, or throws. *)
Definition Validation (A : Type) : Type := list string -> completion (A * list string).

Definition ret {A} (a : A) : Validation A := fun errors => Normal (a, errors).

Definition bind {A B} (m : Validation A) (k : A -> Validation B) : Validation B :=
  fun errors =>
    match m errors with
    | Normal (a, errors') => k a errors'
    | Throw e => Throw e
    end.

(** [errors.push(msg)]. *)
Definition push (msg : string) : Validation unit :=
  fun errors => Normal (tt, errors ++ [msg]).

Definition throw {A} (e : string) : Validation A := fun _ => Throw e.

(** [if (cond) errors.push(msg)]. *)
Definition push_if (cond : bool) (msg : string) : Validation unit :=
  if cond then push msg else ret tt.

Notation "x <- m ;; k" := (bind m (fun x => k))
  (at level 100, m at next level, right associativity).
Notation "m ;;; k" := (bind m (fun _ => k))
  (at level 100, right associativity).

(** [str.trim()], on whatever value [str] is. *)
Definition call_trim (v : jsval) : Validation string :=
  match v with
  | JStr s => ret (trim s)
  | _ => throw "TypeError"
  end.

(** [!v?.trim()]. *)
Definition blank (v : jsval) : Validation bool :=
  match v with
  | JUndefined | JNull => ret true
  | _ => s <- call_trim v ;; ret (String.eqb s "")
  end.

(** [SUSPICIOUS_PATTERNS], each as its test on a string. *)
Definition SUSPICIOUS_PATTERNS : list (string -> bool) :=
  [ contains_ci "script";
    tag_like;
    contains_ci "javascript:";
    contains_ci "vbscript:";
    contains_ci "onload";
    contains_ci "onclick";
    contains_ci "eval(";
    contains_ci "expression(" ].

Definition suspicious (s : string) : bool :=
  existsb (fun test => test s) SUSPICIOUS_PATTERNS.

Definition escape_html (s : string) : string :=
  replace_char "'" "&#039;"
    (replace_char "034" "&quot;"
       (replace_char ">" "&gt;"
          (replace_char "<" "&lt;"
             (replace_char "&" "&amp;" s)))).

Definition sanitizeString (str : jsval) (maxLength : nat) (fieldName : string)
    : Validation string :=
  if negb (truthy str) then ret ""
  else if suspicious (ToString str) then
    push (fieldName +:+ " contains potentially malicious content") ;;; ret ""
  else
    t <- call_trim str ;;
    ret (escape_html (take maxLength t)).

Inductive input_type := prediction | verification.

Record ValidationResult := {
  isValid : bool;
  errors : list string;
  sanitized : option (gmap string jsval)
}.

Definition validCategories : list string :=
  ["general"; "technology"; "economics"; "politics"; "climate"; "sports";
   "health"; "society"; "science"].

Definition validOutcomes : list string :=
  ["correct"; "incorrect"; "partially_correct"; "too_early"; "unprovable"].

(** [Math.max(1, Math.min(10, confidence || 5))]. *)
Definition clamp_confidence (confidence : option Z) : Z :=
  let c := match confidence with
           | Some n => if n =? 0 then 5 else n
           | None => 5
           end in
  Z.max 1 (Z.min 10 c).

(** [isNaN(confidence) || confidence < 1 || confidence > 10]. *)
Definition out_of_range (confidence : option Z) : bool :=
  match confidence with
  | Some n => (n <? 1) || (10 <? n)
  | None => true
  end.

Section Validate.

(** The time value of [new Date(v)], [None] for an Invalid Date. *)
Variable Date_time : jsval -> option Z.
(** The [protocol] of [new URL(s)], [None] when the constructor throws. *)
Variable URL_protocol : string -> option string.

Definition validateURL (url : jsval) : bool :=
  if negb (truthy url) then true
  else match URL_protocol (ToString url) with
       | Some p => String.eqb p "http:" || String.eqb p "https:"
       | None => false
       end.

(** [a > b] and [a <= b] on dates: false when either is invalid. *)
Definition date_gt (a b : option Z) : bool :=
  match a, b with Some x, Some y => y <? x | _, _ => false end.
Definition date_le (a b : option Z) : bool :=
  match a, b with Some x, Some y => x <=? y | _, _ => false end.

Definition validate_prediction (now : Z) (data : gmap string jsval)
    : Validation (gmap string jsval) :=
  let predictor_name := prop data "predictor_name" in
  let prediction_text := prop data "prediction_text" in
  let predicted_date := prop data "predicted_date" in
  let target_date := prop data "target_date" in
  let target_description := prop data "target_description" in
  let category := prop data "category" in
  let confidence_level := prop data "confidence_level" in
  let source_url := prop data "source_url" in
  let notes := prop data "notes" in
  let sanitized : gmap string jsval := ∅ in
  (* Required fields *)
  b <- blank predictor_name ;; push_if b "Predictor name is required" ;;;
  b <- blank prediction_text ;; push_if b "Prediction text is required" ;;;
  push_if (negb (truthy predicted_date)) "Predicted date is required" ;;;
  (* Sanitize and validate *)
  s <- sanitizeString predictor_name PREDICTOR_NAME_MAX "Predictor name" ;;
  let sanitized := <["predictor_name" := JStr s]> sanitized in
  s <- sanitizeString prediction_text PREDICTION_TEXT_MAX "Prediction text" ;;
  let sanitized := <["prediction_text" := JStr s]> sanitized in
  s <- sanitizeString target_description DESCRIPTION_MAX "Target description" ;;
  let sanitized := <["target_description" := JStr s]> sanitized in
  s <- sanitizeString notes NOTES_MAX "Notes" ;;
  let sanitized := <["notes" := JStr s]> sanitized in
  (* Date validation *)
  let predDate := Date_time predicted_date in
  let targetDate := if truthy target_date then Some (Date_time target_date) else None in
  push_if (bool_decide (predDate = None)) "Invalid predicted date" ;;;
  push_if (date_gt predDate (Some now)) "Predicted date cannot be in the future" ;;;
  push_if (match targetDate with Some None => true | _ => false end)
    "Invalid target date" ;;;
  push_if (match targetDate with Some t => date_le t predDate | None => false end)
    "Target date must be after predicted date" ;;;
  let sanitized := <["predicted_date" := predicted_date]> sanitized in
  let sanitized := <["target_date" := target_date]> sanitized in
  (* Category validation *)
  let sanitized :=
    <["category" := if includes validCategories category then category
                    else JStr "general"]> sanitized in
  (* Confidence level validation *)
  let confidence := parseInt confidence_level in
  push_if (out_of_range confidence) "Confidence level must be between 1 and 10" ;;;
  let sanitized := <["confidence_level" := JNum (clamp_confidence confidence)]> sanitized in
  (* URL validation *)
  if truthy source_url && negb (validateURL source_url) then
    push "Invalid source URL" ;;; ret sanitized
  else
    ret (<["source_url" := source_url]> sanitized).

Definition validate_verification (data : gmap string jsval)
    : Validation (gmap string jsval) :=
  let outcome := prop data "outcome" in
  let outcome_description := prop data "outcome_description" in
  let evidence_url := prop data "evidence_url" in
  let verified_by := prop data "verified_by" in
  let confidence_score := prop data "confidence_score" in
  let notes := prop data "notes" in
  let sanitized : gmap string jsval := ∅ in
  (* Required fields *)
  push_if (negb (truthy outcome)) "Outcome is required" ;;;
  b <- blank outcome_description ;; push_if b "Outcome description is required" ;;;
  b <- blank verified_by ;; push_if b "Verified by is required" ;;;
  (* Sanitize and validate *)
  s <- sanitizeString outcome_description DESCRIPTION_MAX "Outcome description" ;;
  let sanitized := <["outcome_description" := JStr s]> sanitized in
  s <- sanitizeString verified_by PREDICTOR_NAME_MAX "Verified by" ;;
  let sanitized := <["verified_by" := JStr s]> sanitized in
  s <- sanitizeString notes NOTES_MAX "Verification notes" ;;
  let sanitized := <["notes" := JStr s]> sanitized in
  (* Outcome validation *)
  push_if (negb (includes validOutcomes outcome)) "Invalid outcome value" ;;;
  let sanitized := <["outcome" := outcome]> sanitized in
  (* Confidence score validation *)
  let confidence := parseInt confidence_score in
  push_if (out_of_range confidence) "Confidence score must be between 1 and 10" ;;;
  let sanitized := <["confidence_score" := JNum (clamp_confidence confidence)]> sanitized in
  (* URL validation *)
  if truthy evidence_url && negb (validateURL evidence_url) then
    push "Invalid evidence URL" ;;; ret sanitized
  else
    ret (<["evidence_url" := evidence_url]> sanitized).

(** [validateInput(data, type)]; [now] is the clock [new Date()] reads. *)
Definition validateInput (now : Z) (data : gmap string jsval) (type : input_type)
    : completion ValidationResult :=
  let run := match type with
             | prediction => validate_prediction now data
             | verification => validate_verification data
             end in
  match run [] with
  | Throw e => Throw e
  | Normal (sanitized, errors) =>
      Normal {| isValid := bool_decide (length errors = 0%nat);
                errors := errors;
                sanitized := if bool_decide (length errors = 0%nat)
                             then Some sanitized else None |}
  end.

End Validate.

(** [validateHoneypot(honeypotValue)]. *)
Definition validateHoneypot (honeypotValue : jsval) : bool :=
  negb (truthy honeypotValue) || strict_eq_str honeypotValue "".

(** [validateCaptcha(userAnswer, expectedAnswer)]. *)
Definition validateCaptcha (userAnswer expectedAnswer : jsval) : bool :=
  let userNum := parseInt userAnswer in
  let expectedNum := parseInt expectedAnswer in
  match userNum, expectedNum with
  | Some u, Some e => u =? e
  | _, _ => false
  end.

End Hardened.

(** ** The D1 tables *)

Module DB.

(** A value as SQLite stores it. Numbers are integers here: a JSON number is
    integral in this model, and a text is read as a number only when it is a
    decimal integer. *)
Inductive sqlval :=
| SNull
| SInt (n : Z)
| SText (s : string).

#[global] Instance sqlval_eq_dec : EqDecision sqlval.
Proof. solve_decision. Defined.

Definition is_null (v : sqlval) : bool :=
  match v with SNull => true | _ => false end.

Module Predictions.
Record row := {
  id : Z;
  predictor_name : sqlval;
  prediction_text : sqlval;
  predicted_date : sqlval;
  target_date : sqlval;
  target_description : sqlval;
  category : sqlval;
  confidence_level : sqlval;
  source_url : sqlval;
  notes : sqlval;
  created_at : string;
  updated_at : string
}.
End Predictions.

Module Verifications.
Record row := {
  id : Z;
  prediction_id : Z;
  outcome : sqlval;
  outcome_description : sqlval;
  evidence_url : sqlval;
  verified_by : sqlval;
  verification_date : string;
  confidence_score : sqlval;
  notes : sqlval;
  created_at : string
}.
End Verifications.

(** The two tables the API touches, each with its AUTOINCREMENT counter. The
    predictions table has no status column. *)
Record t := {
  predictions : list Predictions.row;
  verifications : list Verifications.row;
  seq_predictions : Z;
  seq_verifications : Z
}.

Definition empty : t :=
  {| predictions := []; verifications := [];
     seq_predictions := 0; seq_verifications := 0 |}.

(** What [bind] passes to the statement; [undefined] and objects are
    refused with a type error. *)
Definition bind (v : jsval) : completion sqlval :=
  match v with
  | JNull => Normal SNull
  | JBool b => Normal (SInt (if b then 1 else 0))
  | JNum n => Normal (SInt n)
  | JStr s => Normal (SText s)
  | JUndefined | JArr _ | JObj _ => Throw "D1_TYPE_ERROR"
  end.

Fixpoint bind_all (vs : list jsval) : completion (list sqlval) :=
  match vs with
  | [] => Normal []
  | v :: r =>
      match bind v, bind_all r with
      | Normal x, Normal xs => Normal (x :: xs)
      | Throw e, _ => Throw e
      | _, Throw e => Throw e
      end
  end.

Fixpoint all_digits (s : string) : bool :=
  match s with
  | EmptyString => true
  | String c r =>
      match digit_value 10 c with Some _ => all_digits r | None => false end
  end.

(** A text that is a decimal integer, as a column of INTEGER or NUMERIC
    affinity reads it. *)
Definition sql_integer (s : string) : option Z :=
  let digits r := if all_digits r then parse_digits 10 0 false r else None in
  match trim s with
  | String "-" r => Z.opp <$> digits r
  | String "+" r => digits r
  | t => digits t
  end.

(** Column affinities. *)
Definition numeric_affinity (v : sqlval) : sqlval :=
  match v with
  | SText s => match sql_integer s with Some n => SInt n | None => v end
  | _ => v
  end.

Definition text_affinity (v : sqlval) : sqlval :=
  match v with
  | SInt n => SText (pretty n)
  | _ => v
  end.

(** Comparison of stored values: NULL compares to nothing, a number sorts
    before any text, texts compare byte by byte. *)
Definition sql_lt (a b : sqlval) : option bool :=
  match a, b with
  | SNull, _ | _, SNull => None
  | SInt x, SInt y => Some (x <? y)
  | SInt _, SText _ => Some true
  | SText _, SInt _ => Some false
  | SText x, SText y => Some (match String.compare x y with Lt => true | _ => false end)
  end.

Definition sql_le (a b : sqlval) : option bool :=
  match a, b with
  | SNull, _ | _, SNull => None
  | SInt x, SInt y => Some (x <=? y)
  | SInt _, SText _ => Some true
  | SText _, SInt _ => Some false
  | SText x, SText y => Some (match String.compare x y with Gt => false | _ => true end)
  end.

(** A CHECK constraint fails only when its condition is false; NULL passes. *)
Definition check_range_1_10 (v : sqlval) : bool :=
  match sql_le (SInt 1) v, sql_le v (SInt 10) with
  | Some a, Some b => a && b
  | _, _ => true
  end.

Definition outcomes : list string :=
  ["correct"; "incorrect"; "partially_correct"; "too_early"; "unprovable"].

Definition check_outcome (v : sqlval) : bool :=
  match v with
  | SNull => true
  | SText s => bool_decide (s ∈ outcomes)
  | SInt _ => false
  end.

Definition prediction_exists (db : t) (k : Z) : bool :=
  existsb (fun p => Predictions.id p =? k) (predictions db).

(** [INSERT INTO predictions (...) VALUES (?, ?, ?, ?, ?, ?, ?, ?, ?)] with
    the nine bound values; [stamp] is CURRENT_TIMESTAMP. The result is the
    new row id, or the statement throws. *)
Definition insert_prediction (db : t) (stamp : string) (vals : list jsval)
    : completion (Z * t) :=
  match bind_all vals with
  | Throw e => Throw e
  | Normal [name; text; pdate; tdate; tdesc; cat; conf; url; notes] =>
      let conf := numeric_affinity conf in
      if is_null name || is_null text || is_null pdate then
        Throw "NOT NULL constraint failed"
      else if negb (check_range_1_10 conf) then
        Throw "CHECK constraint failed"
      else
        let new_id := seq_predictions db + 1 in
        let r := {| Predictions.id := new_id;
                    Predictions.predictor_name := text_affinity name;
                    Predictions.prediction_text := text_affinity text;
                    Predictions.predicted_date := numeric_affinity pdate;
                    Predictions.target_date := numeric_affinity tdate;
                    Predictions.target_description := text_affinity tdesc;
                    Predictions.category := text_affinity cat;
                    Predictions.confidence_level := conf;
                    Predictions.source_url := text_affinity url;
                    Predictions.notes := text_affinity notes;
                    Predictions.created_at := stamp;
                    Predictions.updated_at := stamp |} in
        Normal (new_id,
                {| predictions := predictions db ++ [r];
                   verifications := verifications db;
                   seq_predictions := new_id;
                   seq_verifications := seq_verifications db |})
  | Normal _ => Throw "wrong number of bound values"
  end.

(** [INSERT INTO verifications (...) VALUES (?, ?, ?, ?, ?, ?, ?)]; the
    foreign key of [prediction_id] is enforced. *)
Definition insert_verification (db : t) (stamp : string) (vals : list jsval)
    : completion (Z * t) :=
  match bind_all vals with
  | Throw e => Throw e
  | Normal [pid; outcome; descr; url; by_; score; notes] =>
      let score := numeric_affinity score in
      let outcome := text_affinity outcome in
      if is_null pid || is_null outcome || is_null descr then
        Throw "NOT NULL constraint failed"
      else if negb (check_outcome outcome) || negb (check_range_1_10 score) then
        Throw "CHECK constraint failed"
      else
        match numeric_affinity pid with
        | SInt k =>
            if prediction_exists db k then
              let new_id := seq_verifications db + 1 in
              let r := {| Verifications.id := new_id;
                          Verifications.prediction_id := k;
                          Verifications.outcome := outcome;
                          Verifications.outcome_description := text_affinity descr;
                          Verifications.evidence_url := text_affinity url;
                          Verifications.verified_by := text_affinity by_;
                          Verifications.verification_date := stamp;
                          Verifications.confidence_score := score;
                          Verifications.notes := text_affinity notes;
                          Verifications.created_at := stamp |} in
              Normal (new_id,
                      {| predictions := predictions db;
                         verifications := verifications db ++ [r];
                         seq_predictions := seq_predictions db;
                         seq_verifications := new_id |})
            else Throw "FOREIGN KEY constraint failed"
        | _ => Throw "FOREIGN KEY constraint failed"
        end
  | Normal _ => Throw "wrong number of bound values"
  end.

(** [SELECT id FROM predictions WHERE id = ?] with a bound text, [.first()]. *)
Definition select_prediction_id (db : t) (bound : string) : option Z :=
  match sql_integer bound with
  | Some k => Predictions.id <$> List.find (fun p => Predictions.id p =? k) (predictions db)
  | None => None
  end.

(** [SELECT id FROM verifications WHERE prediction_id = ?], [.first()]. *)
Definition select_verification_id (db : t) (bound : string) : option Z :=
  match sql_integer bound with
  | Some k =>
      Verifications.id <$>
        List.find (fun v => Verifications.prediction_id v =? k) (verifications db)
  | None => None
  end.

End DB.

(** ** The application of the hardened revision: honeypot, CAPTCHA and
    [validateInput] inside the handlers *)

Module HardenedApp.
Import Hardened.

Section Handlers.

Variable Date_time : jsval -> option Z.
Variable URL_protocol : string -> option string.

(** [POST /api/predictions], after its rate limiter let the request through.
    [body] is the parsed JSON body, [None] when [c.req.json()] throws; [now]
    is the clock and [stamp] the CURRENT_TIMESTAMP of the insert. *)
Definition post_predictions (now : Z) (stamp : string) (db : DB.t)
    (body : option (gmap string jsval)) : DB.t * outcome :=
  let failed := (db, Reply 500 [("error", JStr "Failed to add prediction")]) in
  match body with
  | None => failed
  | Some body =>
      (* Check honeypot fields *)
      if negb (validateHoneypot (prop body "website"))
         || negb (validateHoneypot (prop body "email_address"))
         || negb (validateHoneypot (prop body "full_name"))
      then (db, Reply 400 [("error", JStr "Invalid request")])
      (* Validate CAPTCHA *)
      else if negb (validateCaptcha (prop body "captcha_answer") (prop body "captcha_expected"))
      then (db, Reply 400 [("error", JStr "Security verification failed")])
      else
        (* Validate and sanitize input *)
        match validateInput Date_time URL_protocol now body prediction with
        | Throw _ => failed
        | Normal validation =>
            if negb (isValid validation) then
              (db, Reply 400 [("error", JStr "Validation failed");
                              ("details", JArr (JStr <$> errors validation))])
            else
              match sanitized validation with
              | None => failed
              | Some o =>
                  match DB.insert_prediction db stamp
                          [ prop o "predictor_name";
                            prop o "prediction_text";
                            prop o "predicted_date";
                            or_else (prop o "target_date") JNull;
                            or_else (prop o "target_description") JNull;
                            prop o "category";
                            prop o "confidence_level";
                            or_else (prop o "source_url") JNull;
                            or_else (prop o "notes") JNull ] with
                  | Normal (last_row_id, db') =>
                      (db', Reply 200 [("id", JNum last_row_id);
                                       ("message", JStr "Prediction added successfully")])
                  | Throw _ => failed
                  end
              end
        end
  end.

(** [POST /api/predictions/:id/verify]; [predictionId] is the route
    parameter. *)
Definition post_verify (now : Z) (stamp : string) (db : DB.t)
    (predictionId : string) (body : option (gmap string jsval)) : DB.t * outcome :=
  let failed := (db, Reply 500 [("error", JStr "Failed to add verification")]) in
  (* Validate prediction ID *)
  let idNum := parseInt_string predictionId in
  if match idNum with Some n => n <=? 0 | None => true end then
    (db, Reply 400 [("error", JStr "Invalid prediction ID")])
  else
    match body with
    | None => failed
    | Some body =>
        if negb (validateHoneypot (prop body "website"))
           || negb (validateHoneypot (prop body "email_address"))
           || negb (validateHoneypot (prop body "company"))
        then (db, Reply 400 [("error", JStr "Invalid request")])
        else if negb (validateCaptcha (prop body "captcha_answer") (prop body "captcha_expected"))
        then (db, Reply 400 [("error", JStr "Security verification failed")])
        else
          match validateInput Date_time URL_protocol now body verification with
          | Throw _ => failed
          | Normal validation =>
              if negb (isValid validation) then
                (db, Reply 400 [("error", JStr "Validation failed");
                                ("details", JArr (JStr <$> errors validation))])
              else
                match sanitized validation with
                | None => failed
                | Some o =>
                    match DB.insert_verification db stamp
                            [ JStr predictionId;
                              prop o "outcome";
                              prop o "outcome_description";
                              or_else (prop o "evidence_url") JNull;
                              prop o "verified_by";
                              prop o "confidence_score";
                              or_else (prop o "notes") JNull ] with
                    | Normal (last_row_id, db') =>
                        (db', Reply 200 [("id", JNum last_row_id);
                                         ("message", JStr "Verification added successfully")])
                    | Throw _ => failed
                    end
                end
          end
    end.

End Handlers.

End HardenedApp.

(** ** [security.ts]: the middleware that [index.tsx] mounts *)

Module Security.

(** [c.req.raw.cf]. *)
Record CF := { colo : option string; cf_clientIP : option string }.

Record Request := {
  method : string;
  headers : Headers;
  cf : option CF;
  (** The parsed JSON body; [None] when [c.req.json()] throws. *)
  body : option (gmap string jsval)
}.

Record RateLimitConfig := {
  windowMs : Z;
  maxRequests : Z;
  keyGenerator : Request -> string
}.

Record Record_ := { count : Z; resetTime : Z }.

Abbreviation Store := (gmap string Record_).

(** The default key: [cf?.colo + ':' + (cf?.clientIP || x-forwarded-for || 'unknown')]. *)
Definition default_key (c : Request) : string :=
  default "undefined" (cf c ≫= colo) +:+ ":" +:+
  header_or (cf c ≫= cf_clientIP) (header_or (X_Forwarded_For (headers c)) "unknown").

Definition defaultConfig : RateLimitConfig :=
  {| windowMs := 15 * 60 * 1000; maxRequests := 100; keyGenerator := default_key |}.

(** [rateLimiter(config)] applied to a request. The record is shared with
    the store, so [record.count++] is an update of the store. *)
Definition rateLimiter (finalConfig : RateLimitConfig) (c : Request) (now : Z)
    (store : Store) : Store * outcome :=
  let key := keyGenerator finalConfig c in
  let record :=
    match store !! key with
    | Some r => if resetTime r <=? now
                then {| count := 0; resetTime := now + windowMs finalConfig |}
                else r
    | None => {| count := 0; resetTime := now + windowMs finalConfig |}
    end in
  let record := {| count := count record + 1; resetTime := resetTime record |} in
  let store := <[key := record]> store in
  if maxRequests finalConfig <? count record then
    (store,
     Reply 429 [ ("error", JStr "Rate limit exceeded");
                 ("message", JStr "Too many requests. Please try again later.");
                 ("retryAfter", JNum (resetTime record - now)) ])
  else
    (store,
     Next [ ("X-RateLimit-Limit", pretty (maxRequests finalConfig));
            ("X-RateLimit-Remaining",
             pretty (Z.max 0 (maxRequests finalConfig - count record))) ]).

Definition apiRateLimiter : RateLimitConfig :=
  {| windowMs := 5 * 60 * 1000; maxRequests := 20; keyGenerator := default_key |}.

Definition postRateLimiter : RateLimitConfig :=
  {| windowMs := 10 * 60 * 1000; maxRequests := 5; keyGenerator := default_key |}.

(** [validateHoneypot()]: the middleware mounted on [/api/predictions*]. *)
Definition validateHoneypot (c : Request) : outcome :=
  if String.eqb (method c) "POST" then
    match body c with
    | Some b =>
        if truthy (prop b "website") || truthy (prop b "phone") || truthy (prop b "address")
        then Reply 403 [ ("error", JStr "Bot detected");
                         ("message", JStr "Automated submission detected") ]
        else Next []
    | None => Next []
    end
  else Next [].

End Security.

(** ** [index.tsx]: the handlers with their inline checks *)

Module App.

Definition validOutcomes : list string :=
  ["correct"; "incorrect"; "partially_correct"; "too_early"; "unprovable"].

(** [app.use('*', rateLimiter({...}))]: the limiter of every route. *)
Definition browsingRateLimiter : Security.RateLimitConfig :=
  {| Security.windowMs := 15 * 60 * 1000;
     Security.maxRequests := 200;
     Security.keyGenerator := Security.default_key |}.

(** The two limiters a request to [/api/*] passes, in the order they are
    mounted; they share the store and the key. *)
Definition api_limiters (c : Security.Request) (now : Z) (store : Security.Store)
    : Security.Store * outcome :=
  match Security.rateLimiter browsingRateLimiter c now store with
  | (store, Next _) => Security.rateLimiter Security.apiRateLimiter c now store
  | rejected => rejected
  end.

Section Handlers.

(** How the number a string converts to compares with an integer; [None]
    when the string converts to NaN. *)
Variable compare_string_number : string -> Z -> option comparison.

(** ToNumber of a value, compared with an integer. *)
Definition compare_number (v : jsval) (k : Z) : option comparison :=
  match v with
  | JUndefined => None
  | JNull => Some (0 ?= k)
  | JBool b => Some ((if b then 1 else 0) ?= k)
  | JNum n => Some (n ?= k)
  | JStr s => compare_string_number s k
  | JArr _ | JObj _ => compare_string_number (ToString v) k
  end.

(** [v < k] and [v > k]. *)
Definition lt (v : jsval) (k : Z) : bool :=
  match compare_number v k with Some Lt => true | _ => false end.
Definition gt (v : jsval) (k : Z) : bool :=
  match compare_number v k with Some Gt => true | _ => false end.

(** [POST /api/predictions]. *)
Definition post_predictions (stamp : string) (db : DB.t)
    (body : option (gmap string jsval)) : DB.t * outcome :=
  let failed := (db, Reply 500 [("error", JStr "Failed to add prediction")]) in
  match body with
  | None => failed
  | Some body =>
      let predictor_name := prop body "predictor_name" in
      let prediction_text := prop body "prediction_text" in
      let predicted_date := prop body "predicted_date" in
      let target_date := prop body "target_date" in
      let target_description := prop body "target_description" in
      let category := match prop body "category" with
                      | JUndefined => JStr "general"
                      | v => v
                      end in
      let confidence_level := prop body "confidence_level" in
      let source_url := prop body "source_url" in
      let notes := prop body "notes" in
      (* Additional validation for required fields *)
      if negb (truthy predictor_name) || negb (truthy prediction_text)
         || negb (truthy predicted_date)
      then (db, Reply 400
                  [ ("error", JStr "Missing required fields");
                    ("message",
                     JStr "Predictor name, prediction text, and predicted date are required") ])
      (* Validate confidence level *)
      else if truthy confidence_level && (lt confidence_level 1 || gt confidence_level 10)
      then (db, Reply 400
                  [ ("error", JStr "Invalid confidence level");
                    ("message", JStr "Confidence level must be between 1 and 10") ])
      else
        match DB.insert_prediction db stamp
                [ predictor_name;
                  prediction_text;
                  predicted_date;
                  or_else target_date JNull;
                  or_else target_description JNull;
                  category;
                  or_else confidence_level JNull;
                  or_else source_url JNull;
                  or_else notes JNull ] with
        | Normal (last_row_id, db') =>
            (db', Reply 200 [("id", JNum last_row_id);
                             ("message", JStr "Prediction added successfully")])
        | Throw _ => failed
        end
  end.

(** [POST /api/predictions/:id/verify]. *)
Definition post_verify (stamp : string) (db : DB.t) (predictionId : string)
    (body : option (gmap string jsval)) : DB.t * outcome :=
  let failed := (db, Reply 500 [("error", JStr "Failed to add verification")]) in
  (* Validate prediction ID *)
  let idNum := parseInt_string predictionId in
  if match idNum with Some n => n <=? 0 | None => true end then
    (db, Reply 400 [("error", JStr "Invalid prediction ID")])
  else
    match body with
    | None => failed
    | Some body =>
        let outcome := prop body "outcome" in
        let outcome_description := prop body "outcome_description" in
        let evidence_url := prop body "evidence_url" in
        let verified_by := prop body "verified_by" in
        let confidence_score := prop body "confidence_score" in
        let notes := prop body "notes" in
        (* Validate required fields *)
        if negb (truthy outcome) || negb (truthy outcome_description)
           || negb (truthy verified_by)
        then (db, Reply 400
                    [ ("error", JStr "Missing required fields");
                      ("message", JStr "Outcome, description, and verifier name are required") ])
        (* Validate outcome value *)
        else if negb (includes validOutcomes outcome)
        then (db, Reply 400
                    [ ("error", JStr "Invalid outcome");
                      ("message",
                       JStr "Outcome must be one of: correct, incorrect, partially_correct, too_early, unprovable") ])
        (* Validate confidence score *)
        else if truthy confidence_score && (lt confidence_score 1 || gt confidence_score 10)
        then (db, Reply 400
                    [ ("error", JStr "Invalid confidence score");
                      ("message", JStr "Confidence score must be between 1 and 10") ])
        else
          (* Check if prediction exists *)
          match DB.select_prediction_id db predictionId with
          | None => (db, Reply 404 [("error", JStr "Prediction not found")])
          | Some _ =>
              (* Check if already verified *)
              match DB.select_verification_id db predictionId with
              | Some _ => (db, Reply 400 [("error", JStr "Prediction already verified")])
              | None =>
                  match DB.insert_verification db stamp
                          [ JStr predictionId;
                            outcome;
                            outcome_description;
                            or_else evidence_url JNull;
                            verified_by;
                            or_else confidence_score JNull;
                            or_else notes JNull ] with
                  | Normal (last_row_id, db') =>
                      (db', Reply 200 [("id", JNum last_row_id);
                                       ("message", JStr "Verification added successfully")])
                  | Throw _ => failed
                  end
              end
          end
    end.

End Handlers.

End App.

(** ** [GET /api/predictions], the same in both revisions *)

Module Listing.
Import DB.

(** A row of the result: the prediction's columns, the joined verification's
    columns (NULL when there is none) and the computed status. *)
Record listed := {
  prediction : Predictions.row;
  outcome : sqlval;
  outcome_description : sqlval;
  verified_by : sqlval;
  verification_date : sqlval;
  verification_status : string
}.

(** [predictions p LEFT JOIN verifications v ON p.id = v.prediction_id]. *)
Definition left_join (db : DB.t)
    : list (Predictions.row * option Verifications.row) :=
  flat_map
    (fun p =>
       match List.filter (fun v => Predictions.id p =? Verifications.prediction_id v)
               (verifications db) with
       | [] => [(p, None)]
       | vs => List.map (fun v => (p, Some v)) vs
       end)
    (predictions db).

(** The CASE expression; [today] is [date('now')]. *)
Definition status_case (v : option Verifications.row) (target_date : sqlval)
    (today : string) : string :=
  match v with
  | Some _ => "verified"
  | None =>
      if negb (is_null target_date)
         && bool_decide (sql_lt target_date (SText today) = Some true)
      then "overdue"
      else "pending"
  end.

Definition select_row (today : string)
    (pv : Predictions.row * option Verifications.row) : listed :=
  let (p, v) := pv in
  {| prediction := p;
     outcome := from_option Verifications.outcome SNull v;
     outcome_description := from_option Verifications.outcome_description SNull v;
     verified_by := from_option Verifications.verified_by SNull v;
     verification_date :=
       from_option (fun v => SText (Verifications.verification_date v)) SNull v;
     verification_status := status_case v (Predictions.target_date p) today |}.

(** [ORDER BY p.created_at DESC]. *)
Fixpoint insert_desc (r : listed) (l : list listed) : list listed :=
  match l with
  | [] => [r]
  | x :: rest =>
      match String.compare (Predictions.created_at (prediction x))
                           (Predictions.created_at (prediction r)) with
      | Lt => r :: l
      | _ => x :: insert_desc r rest
      end
  end.

Definition order_by_created_desc (l : list listed) : list listed :=
  foldr insert_desc [] l.

(** A query parameter that is present and not empty. *)
Definition given (q : option string) : option string :=
  match q with
  | Some s => if String.eqb s "" then None else Some s
  | None => None
  end.

(** The handler: the optional [category] condition is part of the query, the
    optional [status] filter is applied to its results. *)
Definition get_predictions (today : string) (db : DB.t)
    (category status : option string) : list listed :=
  let joined := left_join db in
  let joined :=
    match given category with
    | Some c =>
        List.filter
          (fun pv => bool_decide (Predictions.category (fst pv) = SText c)) joined
    | None => joined
    end in
  let results := order_by_created_desc (List.map (select_row today) joined) in
  match given status with
  | Some st => List.filter (fun r => String.eqb (verification_status r) st) results
  | None => results
  end.

End Listing.

(** ** The other middleware of the hardened security module *)

Module HardenedGuards.

(** [SECURITY_CONFIG.BOT_PATTERNS], each as its test on a string. *)
Definition BOT_PATTERNS : list (string -> bool) :=
  [ contains_ci "bot";
    contains_ci "crawler";
    contains_ci "spider";
    contains_ci "scraper";
    contains_ci "curl";
    contains_ci "wget";
    contains_ci "python";
    contains_ci "requests" ].

(** [botDetection()] applied to a request. *)
Definition botDetection (h : Headers) : outcome :=
  let userAgent := header_or (User_Agent h) "" in
  (* Check for bot patterns *)
  if existsb (fun pattern => pattern userAgent) BOT_PATTERNS then
    Reply 403 [("error", JStr "Automated requests are not allowed")]
  (* Check for missing user agent *)
  else if String.eqb (trim userAgent) "" then
    Reply 400 [("error", JStr "Invalid request")]
  else Next [].

(** [requestSizeLimit(maxSize)] applied to a request. *)
Definition requestSizeLimit (maxSize : Z) (h : Headers) : outcome :=
  match Content_Length h with
  | Some contentLength =>
      if negb (String.eqb contentLength "")
         && match parseInt_string contentLength with
            | Some n => maxSize <? n
            | None => false
            end
      then Reply 413 [ ("error", JStr "Request too large");
                       ("maxSize", JNum maxSize);
                       ("received", JStr contentLength) ]
      else Next []
  | None => Next []
  end.

End HardenedGuards.

(** ** [security.ts]: bot detection, input scan, size limit, CAPTCHA, address
    filter and behaviour analysis *)

Module Guards.
Import Security.

(** *** [botDetection()] *)

Definition suspiciousUserAgents : list (string -> bool) :=
  [ contains_ci "bot"; contains_ci "crawler"; contains_ci "spider";
    contains_ci "scraper"; contains_ci "curl"; contains_ci "wget";
    contains_ci "python"; contains_ci "java"; contains_ci "perl";
    contains_ci "php"; contains_ci "ruby"; contains_ci "go-http";
    contains_ci "postman"; contains_ci "insomnia"; contains_ci "httpie" ].

(** [/googlebot|bingbot|slurp/i]. *)
Definition legitimate_bot (userAgent : string) : bool :=
  contains_ci "googlebot" userAgent || contains_ci "bingbot" userAgent
  || contains_ci "slurp" userAgent.

(** A header that is present with a value: [c.req.header(name)] is truthy. *)
Definition present (h : option string) : bool :=
  match h with
  | Some s => negb (String.eqb s "")
  | None => false
  end.

(** [botDetection()] applied to a request; [x_originating_ip] is the header
    of that name and [botScore] is [cf.botManagement.score], when Cloudflare
    supplies one. *)
Definition botDetection (c : Request) (x_originating_ip : option string)
    (botScore : option Z) : outcome :=
  let userAgent := header_or (User_Agent (headers c)) "" in
  (* Check for suspicious user agents *)
  if existsb (fun pattern => pattern userAgent) suspiciousUserAgents
     && negb (legitimate_bot userAgent)
  then Reply 403 [ ("error", JStr "Access denied");
                   ("message", JStr "Automated requests are not allowed") ]
  (* Check for missing or suspicious headers *)
  else if String.eqb userAgent "" || (String.length userAgent <? 10)%nat
  then Reply 403 [ ("error", JStr "Access denied");
                   ("message", JStr "Invalid user agent") ]
  else
    (* Check for too many proxy headers *)
    let proxyHeaders :=
      List.filter present
        [X_Forwarded_For (headers c); X_Real_IP (headers c); x_originating_ip] in
    if (2 <? length proxyHeaders)%nat
    then Reply 403 [ ("error", JStr "Access denied");
                     ("message", JStr "Suspicious request headers") ]
    (* Cloudflare bot score check *)
    else
      match cf c, botScore with
      | Some _, Some score =>
          if score <? 30
          then Reply 403 [ ("error", JStr "Access denied");
                           ("message", JStr "Automated traffic detected") ]
          else Next []
      | _, _ => Next []
      end.

(** *** [validateInput()] *)

(** A character of [\w]. *)
Definition is_word (c : ascii) : bool :=
  let n := code c in
  ((48 <=? n) && (n <=? 57)) || ((65 <=? n) && (n <=? 90))
  || ((97 <=? n) && (n <=? 122)) || (n =? 95).

(** [s.substring(n)]. *)
Fixpoint drop (n : nat) (s : string) : string :=
  match n, s with
  | S k, String _ r => drop k r
  | _, _ => s
  end.

(** [/^.*p/]: [p] after characters other than line terminators. *)
Fixpoint on_line (p s : string) : bool :=
  starts_with p s ||
  match s with
  | EmptyString => false
  | String c r => if is_line_terminator c then false else on_line p r
  end.

(** [/a.*b/]: [a], then characters other than line terminators, then [b]. *)
Fixpoint then_on_line (a b s : string) : bool :=
  (starts_with a s && on_line b (drop (String.length a) s)) ||
  match s with
  | EmptyString => false
  | String _ r => then_on_line a b r
  end.

(** [/^\w+=/], after [seen] word characters were read: word characters as
    far as they go, then [=]. *)
Fixpoint word_then_eq (seen : bool) (s : string) : bool :=
  match s with
  | EmptyString => false
  | String c r => if is_word c then word_then_eq true r else seen && Ascii.eqb c "="
  end.

(** [/on\w+=/] on a string in lower case. *)
Fixpoint on_handler (s : string) : bool :=
  (starts_with "on" s && word_then_eq false (drop 2 s)) ||
  match s with
  | EmptyString => false
  | String _ r => on_handler r
  end.

(** [dangerousPatterns], each as its test on a string. *)
Definition dangerousPatterns : list (string -> bool) :=
  [ contains_ci "<script";
    contains_ci "javascript:";
    (fun s => on_handler (lower s));
    (fun s => then_on_line "union" "select" (lower s));
    (fun s => then_on_line "drop" "table" (lower s));
    (fun s => then_on_line "delete" "from" (lower s));
    (fun s => then_on_line "insert" "into" (lower s));
    (fun s => then_on_line "update" "set" (lower s));
    contains "--";
    then_on_line "/*" "*/";
    contains_ci "eval(";
    contains_ci "exec(" ].

Definition dangerous (s : string) : bool :=
  existsb (fun pattern => pattern s) dangerousPatterns.

(** [checkValue]: strings are tested, arrays and objects are searched. An
    object holds its own properties in the order [Object.entries] lists
    them. *)
Fixpoint checkValue (value : jsval) : bool :=
  match value with
  | JStr s => dangerous s
  | JArr l =>
      (fix some (l : list jsval) : bool :=
         match l with
         | [] => false
         | x :: r => checkValue x || some r
         end) l
  | JObj fields =>
      (fix some (l : list (string * jsval)) : bool :=
         match l with
         | [] => false
         | (_, x) :: r => checkValue x || some r
         end) fields
  | _ => false
  end.

(** The body of the [forEach] callback: the message of the error it throws. *)
Definition length_error (key : string) (value : jsval) : option string :=
  match value with
  | JStr s =>
      if String.eqb key "prediction_text" && (1000 <? String.length s)%nat
      then Some "Prediction text too long"
      else if String.eqb key "outcome_description" && (2000 <? String.length s)%nat
      then Some "Outcome description too long"
      else if String.eqb key "predictor_name" && (100 <? String.length s)%nat
      then Some "Predictor name too long"
      else if (5000 <? String.length s)%nat
      then Some "Input field too long"
      else None
  | _ => None
  end.

(** [Object.entries(body)] of a parsed JSON value: the elements of an array
    and the characters of a string under their indices, nothing for a
    number or a boolean, a TypeError for [null]. *)
Definition entries (body : jsval) : completion (list (string * jsval)) :=
  match body with
  | JObj fields => Normal fields
  | JArr l => Normal (imap (fun i v => (pretty i, v)) l)
  | JStr s =>
      Normal (imap (fun i ch => (pretty i, JStr (String ch EmptyString)))
                (String.list_ascii_of_string s))
  | JBool _ | JNum _ => Normal []
  | JUndefined | JNull => Throw "Cannot convert undefined or null to object"
  end.

(** The first error the [forEach] over the entries throws. *)
Fixpoint first_error (es : list (string * jsval)) : option string :=
  match es with
  | [] => None
  | (key, value) :: rest =>
      match length_error key value with
      | Some message => Some message
      | None => first_error rest
      end
  end.

(** [validateInput()] applied to a request; [parsed] is the completion of
    [await c.req.json()], a thrown error given by its message. *)
Definition validateInput (c : Request) (parsed : completion jsval) : outcome :=
  if String.eqb (method c) "POST" then
    match parsed with
    | Throw message =>
        Reply 400 [("error", JStr "Invalid input"); ("message", JStr message)]
    | Normal body =>
        (* Check for common injection patterns *)
        if checkValue body then
          Reply 400 [ ("error", JStr "Invalid input");
                      ("message", JStr "Potentially malicious content detected") ]
        else
          (* Length checks *)
          match entries body with
          | Throw message =>
              Reply 400 [("error", JStr "Invalid input"); ("message", JStr message)]
          | Normal es =>
              match first_error es with
              | Some message =>
                  Reply 400 [("error", JStr "Invalid input"); ("message", JStr message)]
              | None => Next []
              end
          end
    end
  else Next [].

(** *** [requestSizeLimit(maxSize)] *)

Definition requestSizeLimit (maxSize : Z) (c : Request) : outcome :=
  match Content_Length (headers c) with
  | Some contentLength =>
      if negb (String.eqb contentLength "")
         && match parseInt_string contentLength with
            | Some n => maxSize <? n
            | None => false
            end
      then Reply 413
             [ ("error", JStr "Request too large");
               ("message",
                JStr ("Request size exceeds " +:+ pretty maxSize +:+ " bytes limit")) ]
      else Next []
  | None => Next []
  end.

(** *** [validateCaptcha()], the middleware *)

(** [x_captcha_token] is the header of that name. *)
Definition validateCaptcha (c : Request) (x_captcha_token : option string) : outcome :=
  if String.eqb (method c) "POST" then
    match body c with
    | Some b =>
        let captcha_answer := prop b "captcha_answer" in
        if truthy captcha_answer
           && negb match x_captcha_token with
                   | Some expectedAnswer => strict_eq_str captcha_answer expectedAnswer
                   | None => false
                   end
        then Reply 400 [ ("error", JStr "CAPTCHA verification failed");
                         ("message", JStr "Please solve the CAPTCHA correctly") ]
        else Next []
    | None => Next []
    end
  else Next [].

(** *** [ipFilter(whitelist, blacklist)] *)

(** [cf?.clientIP || x-forwarded-for || x-real-ip]; the empty string stands
    for a falsy result. *)
Definition filter_address (c : Request) : string :=
  header_or (cf c ≫= cf_clientIP)
    (header_or (X_Forwarded_For (headers c)) (default "" (X_Real_IP (headers c)))).

Definition ipFilter (whitelist blacklist : option (list string)) (c : Request)
    : outcome :=
  let clientIP := filter_address c in
  let known := negb (String.eqb clientIP "") in
  if match blacklist with
     | Some l => known && existsb (String.eqb clientIP) l
     | None => false
     end
  then Reply 403 [ ("error", JStr "Access denied");
                   ("message", JStr "Your IP address is blocked") ]
  else if match whitelist with
          | Some l => (0 <? length l)%nat && known && negb (existsb (String.eqb clientIP) l)
          | None => false
          end
  then Reply 403 [ ("error", JStr "Access denied");
                   ("message", JStr "Your IP address is not authorized") ]
  else Next [].

(** *** [behaviorAnalysis()] *)

Record Activity := { actions : list string; timestamps : list Z }.

(** [suspiciousActivities]: a [Map] from client address to activity. *)
Abbreviation Activities := (gmap string Activity).

Definition activity_key (c : Request) : string :=
  header_or (cf c ≫= cf_clientIP) (header_or (X_Forwarded_For (headers c)) "unknown").

(** [l.slice(-n)]. *)
Definition last_n {A} (n : nat) (l : list A) : list A :=
  List.skipn (length l - n) l.

(** [behaviorAnalysis()] applied to a request for [path] at time [now]. The
    activity is recorded before the checks, so a rejected request leaves its
    trace as well. *)
Definition behaviorAnalysis (c : Request) (path : string) (now : Z)
    (store : Activities) : Activities * outcome :=
  let clientIP := activity_key c in
  let fiveMinutesAgo := now - 5 * 60 * 1000 in
  let activity := default {| actions := []; timestamps := [] |} (store !! clientIP) in
  (* Clean old timestamps, keep last 10 actions, record current action *)
  let activity :=
    {| actions := last_n 10 (actions activity) ++ [method c +:+ " " +:+ path];
       timestamps :=
         List.filter (fun t => fiveMinutesAgo <? t) (timestamps activity) ++ [now] |} in
  let store := <[clientIP := activity]> store in
  let recentRequests := length (timestamps activity) in
  let uniqueActions := length (remove_dups (actions activity)) in
  if (30 <? recentRequests)%nat && (uniqueActions <? 3)%nat then
    (store, Reply 429 [ ("error", JStr "Suspicious activity detected");
                        ("message", JStr "Please wait before making more requests") ])
  else
    let recentPosts := length (List.filter (starts_with "POST") (actions activity)) in
    if (10 <? recentPosts)%nat then
      (store, Reply 429 [ ("error", JStr "Too many submissions");
                          ("message", JStr "Please slow down your submissions") ])
    else (store, Next []).

End Guards.

(** ** Mounting *)

Module Mount.

(** [app.use(pattern, middleware)] with what is mounted after it: the
    middleware runs when the router matches its pattern against the path of
    the request ([applies]); the rest follows when it does not run or calls
    [next()], and its response is the answer otherwise. *)
Definition use {S : Type} (applies : bool) (middleware : S -> S * outcome)
    (rest : S -> S * outcome) (s : S) : S * outcome :=
  if applies then
    match middleware s with
    | (s, Next _) => rest s
    | rejected => rejected
    end
  else rest s.

(** A middleware that keeps nothing between requests. *)
Definition stateless {S : Type} (o : outcome) (s : S) : S * outcome := (s, o).

End Mount.

(** ** [index.tsx]: the route [POST /api/predictions] behind its middleware *)

Module Routes.
Import Security.

(** The properties of a parsed JSON body as the handlers destructure them:
    those of an object; none for an array, a string, a number or a boolean;
    destructuring [null] throws. *)
Definition properties (body : jsval) : option (gmap string jsval) :=
  match body with
  | JObj fields => Some (list_to_map fields)
  | JUndefined | JNull => None
  | _ => Some ∅
  end.

(** The request as the middleware and the handler see it. *)
Record Incoming := {
  request : Request;
  path : string;
  x_originating_ip : option string;
  botScore : option Z;
  (** The completion of [c.req.json()]. *)
  json : completion jsval
}.

(** The request with the properties of its parsed body. *)
Definition with_body (i : Incoming) : Request :=
  {| method := method (request i);
     headers := headers (request i);
     cf := cf (request i);
     body := match json i with
             | Normal v => properties v
             | Throw _ => None
             end |}.

(** What the server keeps between requests. *)
Record Server := {
  activities : Guards.Activities;
  limits : Store;
  db : DB.t
}.

(** The clock readings of a request: each middleware that keeps time calls
    [Date.now()] for itself. *)
Record Readings := {
  at_analysis : Z;
  at_browsing : Z;
  at_api : Z;
  at_post : Z
}.

(** The three limiters a [POST /api/predictions] passes, in the order they
    are mounted: the browsing limiter on [*], the API limiter on [/api/*]
    and [postRateLimiter()] on the route. They share the store and the
    key. *)
Definition post_limiters (c : Request) (clock : Readings) (store : Store)
    : Store * outcome :=
  match rateLimiter App.browsingRateLimiter c (at_browsing clock) store with
  | (store, Next _) =>
      match rateLimiter apiRateLimiter c (at_api clock) store with
      | (store, Next _) => rateLimiter postRateLimiter c (at_post clock) store
      | rejected => rejected
      end
  | rejected => rejected
  end.

(** A middleware or handler on its part of what the server keeps. *)
Definition on_activities (f : Guards.Activities -> Guards.Activities * outcome)
    (s : Server) : Server * outcome :=
  let (acts, o) := f (activities s) in
  ({| activities := acts; limits := limits s; db := db s |}, o).

Definition on_limits (f : Store -> Store * outcome) (s : Server) : Server * outcome :=
  let (lim, o) := f (limits s) in
  ({| activities := activities s; limits := lim; db := db s |}, o).

Definition on_db (f : DB.t -> DB.t * outcome) (s : Server) : Server * outcome :=
  let (db', o) := f (db s) in
  ({| activities := activities s; limits := limits s; db := db' |}, o).

Section Route.

(** Hono's router: whether a middleware mounted under a pattern runs for a
    path. *)
Variable mounted : string -> string -> bool.
Variable compare_string_number : string -> Z -> option comparison.

(** [POST /api/predictions]: the middleware in the order [index.tsx] mounts
    it, each under its pattern, then the limiter and the handler of the
    route. [securityHeaders()] and [cors] set response headers and reject
    nothing of a POST. *)
Definition post_predictions (i : Incoming) (clock : Readings) (stamp : string)
    : Server -> Server * outcome :=
  let c := with_body i in
  let use pattern := Mount.use (mounted pattern (path i)) in
  use "*" (Mount.stateless (Guards.botDetection c (x_originating_ip i) (botScore i)))
  (use "*" (on_activities (Guards.behaviorAnalysis c (path i) (at_analysis clock)))
  (use "*" (on_limits (rateLimiter App.browsingRateLimiter c (at_browsing clock)))
  (use "/api/*" (on_limits (rateLimiter apiRateLimiter c (at_api clock)))
  (use "/api/*" (Mount.stateless (Guards.requestSizeLimit (50 * 1024) c))
  (use "*" (Mount.stateless (Guards.validateInput c (json i)))
  (use "/api/predictions*" (Mount.stateless (validateHoneypot c))
  (Mount.use true (on_limits (rateLimiter postRateLimiter c (at_post clock)))
  (on_db (fun db => App.post_predictions compare_string_number stamp db (body c)))))))))).

End Route.

End Routes.

(** ** The hardened revision: the route [POST /api/predictions] behind its
    middleware *)

Module HardenedRoutes.

(** What the server keeps between requests. *)
Record Server := {
  limits : Hardened.Store;
  db : DB.t
}.

(** The clock readings and cleanup draws of a request: one of each for the
    global limiter and for the limiter of the route, and the reading of
    [new Date()] in the validation. *)
Record Readings := {
  at_global : Z;
  cleanup_global : option Z;
  at_route : Z;
  cleanup_route : option Z;
  at_validation : Z
}.

Definition on_limits (f : Hardened.Store -> Hardened.Store * outcome) (s : Server)
    : Server * outcome :=
  let (lim, o) := f (limits s) in ({| limits := lim; db := db s |}, o).

Definition on_db (f : DB.t -> DB.t * outcome) (s : Server) : Server * outcome :=
  let (db', o) := f (db s) in ({| limits := limits s; db := db' |}, o).

Section Route.

(** Hono's router: whether a middleware mounted under a pattern runs for a
    path. *)
Variable mounted : string -> string -> bool.
Variable Date_time : jsval -> option Z.
Variable URL_protocol : string -> option string.

(** [POST /api/predictions]: the middleware in the order the hardened
    [index.tsx] mounts it, each under its pattern, then the limiter
    [rateLimiter('/api/predictions')] and the handler of the route.
    [securityHeaders()] and [cors] set response headers and reject nothing
    of a POST. *)
Definition post_predictions (h : Headers) (path : string)
    (body : option (gmap string jsval)) (clock : Readings) (stamp : string)
    : Server -> Server * outcome :=
  let use pattern := Mount.use (mounted pattern path) in
  use "*" (Mount.stateless (HardenedGuards.botDetection h))
  (use "*" (on_limits (Hardened.rateLimiter None h (at_global clock) (cleanup_global clock)))
  (use "/api/*" (Mount.stateless (HardenedGuards.requestSizeLimit (100 * 1024) h))
  (Mount.use true
     (on_limits (Hardened.rateLimiter (Some "/api/predictions") h (at_route clock)
                   (cleanup_route clock)))
  (on_db (fun db =>
            HardenedApp.post_predictions Date_time URL_protocol (at_validation clock)
              stamp db body))))).

End Route.

End HardenedRoutes.

(** ** [GET /api/predictions/:id] and [GET /api/stats], the same in both
    revisions *)

Module Queries.
Import DB.

(** A row of the detail query: the prediction's columns and the joined
    verification's, NULL when there is none. *)
Record detail := {
  prediction : Predictions.row;
  outcome : sqlval;
  outcome_description : sqlval;
  evidence_url : sqlval;
  verified_by : sqlval;
  verification_date : sqlval;
  verification_confidence : sqlval;
  verification_notes : sqlval
}.

Definition detail_row (pv : Predictions.row * option Verifications.row) : detail :=
  let (p, v) := pv in
  {| prediction := p;
     outcome := from_option Verifications.outcome SNull v;
     outcome_description := from_option Verifications.outcome_description SNull v;
     evidence_url := from_option Verifications.evidence_url SNull v;
     verified_by := from_option Verifications.verified_by SNull v;
     verification_date :=
       from_option (fun v => SText (Verifications.verification_date v)) SNull v;
     verification_confidence := from_option Verifications.confidence_score SNull v;
     verification_notes := from_option Verifications.notes SNull v |}.

(** The handler of [GET /api/predictions/:id]: the first row of the query
    with the route parameter bound as text; [None] is the 404 answer. *)
Definition get_prediction (db : DB.t) (id : string) : option detail :=
  match sql_integer id with
  | Some k =>
      head (List.map detail_row
              (List.filter (fun pv => Predictions.id (fst pv) =? k) (Listing.left_join db)))
  | None => None
  end.

(** [SELECT key, COUNT( * ) ... GROUP BY key]: one row per distinct key, NULL
    a key like any other. The query fixes no order of the groups; they are
    listed by first occurrence. *)
Definition group_count (keys : list sqlval) : list (sqlval * Z) :=
  List.map
    (fun k => (k, Z.of_nat (length (List.filter (fun x => bool_decide (x = k)) keys))))
    (remove_dups keys).

Record predictor_stat := {
  predictor_name : sqlval;
  total_predictions : Z;
  verified_predictions : Z;
  correct_predictions : Z
}.

Definition is_correct (v : option Verifications.row) : bool :=
  match v with
  | Some w => bool_decide (Verifications.outcome w = SText "correct")
  | None => false
  end.

(** One group of the predictor query: the joined rows of a predictor name. *)
Definition predictor_group
    (joined : list (Predictions.row * option Verifications.row)) (name : sqlval)
    : predictor_stat :=
  let rows :=
    List.filter (fun pv => bool_decide (Predictions.predictor_name (fst pv) = name))
      joined in
  {| predictor_name := name;
     total_predictions := Z.of_nat (length rows);
     verified_predictions :=
       Z.of_nat (length (List.filter (fun pv => bool_decide (is_Some (snd pv))) rows));
     correct_predictions :=
       Z.of_nat (length (List.filter (fun pv => is_correct (snd pv)) rows)) |}.

(** [ORDER BY total_predictions DESC]. *)
Fixpoint insert_by_total (g : predictor_stat) (l : list predictor_stat)
    : list predictor_stat :=
  match l with
  | [] => [g]
  | x :: rest =>
      if total_predictions x <? total_predictions g then g :: l
      else x :: insert_by_total g rest
  end.

Record stats := {
  totalPredictions : Z;
  verifiedPredictions : Z;
  pendingPredictions : Z;
  outcomeStats : list (sqlval * Z);
  categoryStats : list (sqlval * Z);
  predictorStats : list predictor_stat
}.

(** The handler of [GET /api/stats]. *)
Definition get_stats (db : DB.t) : stats :=
  let totalPredictions := Z.of_nat (length (predictions db)) in
  let verifiedPredictions := Z.of_nat (length (verifications db)) in
  let joined := Listing.left_join db in
  {| totalPredictions := totalPredictions;
     verifiedPredictions := verifiedPredictions;
     pendingPredictions := totalPredictions - verifiedPredictions;
     outcomeStats := group_count (List.map Verifications.outcome (verifications db));
     categoryStats := group_count (List.map Predictions.category (predictions db));
     predictorStats :=
       foldr insert_by_total []
         (List.filter (fun g => 0 <? total_predictions g)
            (List.map (predictor_group joined)
               (remove_dups (List.map (fun pv => Predictions.predictor_name (fst pv))
                               joined)))) |}.

End Queries.

(** ** [app.js]: the escaping the page applies to what it displays *)

Module Client.

(** The [map] of [escapeHtml]. *)
Definition entity (m : ascii) : option string :=
  if Ascii.eqb m "&" then Some "&amp;"
  else if Ascii.eqb m "<" then Some "&lt;"
  else if Ascii.eqb m ">" then Some "&gt;"
  else if Ascii.eqb m "034" then Some "&quot;"
  else if Ascii.eqb m "'" then Some "&#039;"
  else None.

(** [text.replace(/[...]/g, m => map[m])] with the five characters of [map]
    in the class: one pass over the text. *)
Fixpoint replace_entities (text : string) : string :=
  match text with
  | EmptyString => EmptyString
  | String m rest =>
      match entity m with
      | Some e => e +:+ replace_entities rest
      | None => String m (replace_entities rest)
      end
  end.

(** [escapeHtml(text)] on a column of a row: a text, or NULL. *)
Definition escapeHtml (text : option string) : string :=
  match text with
  | Some s => if String.eqb s "" then "" else replace_entities s
  | None => ""
  end.

End Client.

(** ** Specification vocabulary and example states *)

(** *** The per-field rules of the specification, read off a body *)

Module ValidationSpec.
Import Hardened.

(** A value a text field of the form can hold: a string, or nothing. *)
Definition is_text (v : jsval) : bool :=
  match v with JStr _ | JUndefined | JNull => true | _ => false end.

(** A required text field is absent or blank. *)
Definition missing (v : jsval) : bool :=
  match v with JStr s => String.eqb (trim s) "" | _ => true end.

(** A field holds one of the suspicious patterns. *)
Definition malicious (v : jsval) : bool := truthy v && suspicious (ToString v).

(** A field the sanitizer can handle: empty, rejected as suspicious, or a
    string it can trim. *)
Definition trims (v : jsval) : bool :=
  negb (truthy v) || suspicious (ToString v)
  || match v with JStr _ => true | _ => false end.

(** What the sanitizer keeps of a field. *)
Definition clean (v : jsval) (n : nat) : string :=
  if negb (truthy v) || suspicious (ToString v) then ""
  else match v with JStr s => escape_html (take n (trim s)) | _ => "" end.

(** The message of a rule that is violated. *)
Definition when (violated : bool) (msg : string) : list string :=
  if violated then [msg] else [].

Section Rules.

Variable Date_time : jsval -> option Z.
Variable URL_protocol : string -> option string.

(** A supplied target date. *)
Definition supplied (v : jsval) : bool := truthy v.

Definition bad_url (v : jsval) : bool :=
  truthy v && negb (validateURL URL_protocol v).

(** Every rule a prediction body violates, in the order of the rules. *)
Definition violations_prediction (now : Z) (data : gmap string jsval) : list string :=
  let pdate := Date_time (prop data "predicted_date") in
  let tdate := Date_time (prop data "target_date") in
  when (missing (prop data "predictor_name")) "Predictor name is required" ++
  when (missing (prop data "prediction_text")) "Prediction text is required" ++
  when (negb (truthy (prop data "predicted_date"))) "Predicted date is required" ++
  when (malicious (prop data "predictor_name"))
    ("Predictor name" +:+ " contains potentially malicious content") ++
  when (malicious (prop data "prediction_text"))
    ("Prediction text" +:+ " contains potentially malicious content") ++
  when (malicious (prop data "target_description"))
    ("Target description" +:+ " contains potentially malicious content") ++
  when (malicious (prop data "notes"))
    ("Notes" +:+ " contains potentially malicious content") ++
  when (bool_decide (pdate = None)) "Invalid predicted date" ++
  when (date_gt pdate (Some now)) "Predicted date cannot be in the future" ++
  when (supplied (prop data "target_date") && bool_decide (tdate = None))
    "Invalid target date" ++
  when (supplied (prop data "target_date") && date_le tdate pdate)
    "Target date must be after predicted date" ++
  when (out_of_range (parseInt (prop data "confidence_level")))
    "Confidence level must be between 1 and 10" ++
  when (bad_url (prop data "source_url")) "Invalid source URL".

(** Every rule a verification body violates. *)
Definition violations_verification (data : gmap string jsval) : list string :=
  when (negb (truthy (prop data "outcome"))) "Outcome is required" ++
  when (missing (prop data "outcome_description")) "Outcome description is required" ++
  when (missing (prop data "verified_by")) "Verified by is required" ++
  when (malicious (prop data "outcome_description"))
    ("Outcome description" +:+ " contains potentially malicious content") ++
  when (malicious (prop data "verified_by"))
    ("Verified by" +:+ " contains potentially malicious content") ++
  when (malicious (prop data "notes"))
    ("Verification notes" +:+ " contains potentially malicious content") ++
  when (negb (includes validOutcomes (prop data "outcome"))) "Invalid outcome value" ++
  when (out_of_range (parseInt (prop data "confidence_score")))
    "Confidence score must be between 1 and 10" ++
  when (bad_url (prop data "evidence_url")) "Invalid evidence URL".

Definition violations (now : Z) (data : gmap string jsval) (type : input_type)
    : list string :=
  match type with
  | prediction => violations_prediction now data
  | verification => violations_verification data
  end.

End Rules.

(** The sanitized object of a prediction body, field by field. *)
Definition sanitized_prediction_of (URL_protocol : string -> option string)
    (data o : gmap string jsval) : Prop :=
  prop o "predictor_name" = JStr (clean (prop data "predictor_name") PREDICTOR_NAME_MAX) /\
  prop o "prediction_text" = JStr (clean (prop data "prediction_text") PREDICTION_TEXT_MAX) /\
  prop o "target_description" = JStr (clean (prop data "target_description") DESCRIPTION_MAX) /\
  prop o "notes" = JStr (clean (prop data "notes") NOTES_MAX) /\
  prop o "predicted_date" = prop data "predicted_date" /\
  prop o "target_date" = prop data "target_date" /\
  prop o "category" =
    (if includes validCategories (prop data "category")
     then prop data "category" else JStr "general") /\
  prop o "confidence_level" =
    JNum (clamp_confidence (parseInt (prop data "confidence_level"))) /\
  prop o "source_url" =
    (if bad_url URL_protocol (prop data "source_url")
     then JUndefined else prop data "source_url").

(** The sanitized object of a verification body. *)
Definition sanitized_verification_of (URL_protocol : string -> option string)
    (data o : gmap string jsval) : Prop :=
  prop o "outcome_description" =
    JStr (clean (prop data "outcome_description") DESCRIPTION_MAX) /\
  prop o "verified_by" = JStr (clean (prop data "verified_by") PREDICTOR_NAME_MAX) /\
  prop o "notes" = JStr (clean (prop data "notes") NOTES_MAX) /\
  prop o "outcome" = prop data "outcome" /\
  prop o "confidence_score" =
    JNum (clamp_confidence (parseInt (prop data "confidence_score"))) /\
  prop o "evidence_url" =
    (if bad_url URL_protocol (prop data "evidence_url")
     then JUndefined else prop data "evidence_url").

Definition sanitized_of (URL_protocol : string -> option string)
    (type : input_type) (data o : gmap string jsval) : Prop :=
  match type with
  | prediction => sanitized_prediction_of URL_protocol data o
  | verification => sanitized_verification_of URL_protocol data o
  end.

(** The text fields of a body hold values [validateInput] can process; on
    any other body it throws a TypeError. *)
Definition well_typed (data : gmap string jsval) (type : input_type) : bool :=
  match type with
  | prediction =>
      is_text (prop data "predictor_name") && is_text (prop data "prediction_text")
      && trims (prop data "predictor_name") && trims (prop data "prediction_text")
      && trims (prop data "target_description") && trims (prop data "notes")
  | verification =>
      is_text (prop data "outcome_description") && is_text (prop data "verified_by")
      && trims (prop data "outcome_description") && trims (prop data "verified_by")
      && trims (prop data "notes")
  end.

(** A body that fills none of the honeypot fields of the prediction form and
    answers its CAPTCHA. *)
Definition passes_bot_checks_prediction (body : gmap string jsval) : Prop :=
  validateHoneypot (prop body "website") = true /\
  validateHoneypot (prop body "email_address") = true /\
  validateHoneypot (prop body "full_name") = true /\
  validateCaptcha (prop body "captcha_answer") (prop body "captcha_expected") = true.

(** The same for the verification form. *)
Definition passes_bot_checks_verification (body : gmap string jsval) : Prop :=
  validateHoneypot (prop body "website") = true /\
  validateHoneypot (prop body "email_address") = true /\
  validateHoneypot (prop body "company") = true /\
  validateCaptcha (prop body "captcha_answer") (prop body "captcha_expected") = true.

(** The route parameter passes the handler's check of the id. *)
Definition well_formed_id (predictionId : string) : Prop :=
  exists n, parseInt_string predictionId = Some n /\ 0 < n.

(** The one response that carries every message of a failed validation. *)
Definition validation_failed (messages : list string) : outcome :=
  Reply 400 [("error", JStr "Validation failed");
             ("details", JArr (JStr <$> messages))].

(** A honeypot field of the form is filled in. *)
Definition honeypot_filled_prediction (body : gmap string jsval) : Prop :=
  truthy (prop body "website") = true \/
  truthy (prop body "email_address") = true \/
  truthy (prop body "full_name") = true.

Definition honeypot_filled_verification (body : gmap string jsval) : Prop :=
  truthy (prop body "website") = true \/
  truthy (prop body "email_address") = true \/
  truthy (prop body "company") = true.

(** The fields the honeypot middleware of [security.ts] looks at. *)
Definition honeypot_filled_middleware (body : gmap string jsval) : Prop :=
  truthy (prop body "website") = true \/
  truthy (prop body "phone") = true \/
  truthy (prop body "address") = true.

(** The response the specification assigns to a honeypot trigger: status
    403, and nothing stored. *)
Definition rejected_as_bot (db : DB.t) (result : DB.t * outcome) : Prop :=
  status_of result.2 = Some 403 /\ result.1 = db.

(** A body without one of the CAPTCHA fields. *)
Definition lacks_captcha (body : gmap string jsval) : Prop :=
  body !! "captcha_answer" = None \/ body !! "captcha_expected" = None.

(** Example bodies. *)
Definition spam_body : gmap string jsval :=
  {[ "predictor_name" := JStr "A"; "prediction_text" := JStr "X";
     "predicted_date" := JStr "2020-01-01"; "website" := JStr "http://spam.example" ]}.

Definition empty_form : gmap string jsval :=
  {[ "captcha_answer" := JNum 7; "captcha_expected" := JNum 7 ]}.

Definition second_verification : gmap string jsval :=
  {[ "outcome" := JStr "correct";
     "outcome_description" := JStr "It happened";
     "verified_by" := JStr "Jane Smith";
     "confidence_score" := JNum 10;
     "captcha_answer" := JNum 7; "captcha_expected" := JNum 7 ]}.

Definition zero_score : gmap string jsval :=
  {[ "outcome" := JStr "correct";
     "outcome_description" := JStr "It happened";
     "verified_by" := JStr "Jane Smith";
     "confidence_score" := JNum 0 ]}.

Definition zero_confidence : gmap string jsval :=
  {[ "predictor_name" := JStr "A"; "prediction_text" := JStr "X";
     "predicted_date" := JStr "2020-01-01"; "confidence_level" := JNum 0 ]}.

Definition undated : gmap string jsval :=
  {[ "predictor_name" := JStr "A"; "prediction_text" := JStr "X";
     "predicted_date" := JStr "not a date"; "target_date" := JStr "sooner" ]}.

(** A host without calendar or URL parser, for running examples that use
    neither. *)
Definition no_date (v : jsval) : option Z := None.
Definition no_url (s : string) : option string := None.

End ValidationSpec.

Module HardenedSpec.
Import Hardened.


Definition retryAfter_of (o : outcome) : option Z :=
  match body_field o "retryAfter" with
  | Some (JNum n) => Some n
  | _ => None
  end.

(** The claim of the specification about a rejection for exceeding the
    ceiling: the retry-after value, in seconds as the response gives it, is
    at most the window length. *)
Definition retry_after_within_window (endpoint : option string) (h : Headers)
    (now : Z) (cleanup : option Z) (store : Store) : Prop :=
  let key := key_of endpoint h in
  let seen := after_cleanup cleanup store !! key in
  let cfg := config_for endpoint in
  let result := rateLimiter endpoint h now cleanup store in
  active_block now seen = None ->
  status_of result.2 = Some 429 ->
  exists r, retryAfter_of result.2 = Some r /\ r * 1000 <= window cfg.

Definition no_headers : Headers :=
  {| CF_Connecting_IP := None; X_Forwarded_For := None; X_Real_IP := None;
     User_Agent := None; Content_Length := None |}.

(** A client that already made 100 requests to [/api/predictions] in the
    running window. *)
Definition busy_store : Store :=
  {[ "unknown:/api/predictions" :=
       {| count := 100; windowStart := 0; blocked := Some false; blockUntil := None |} ]}.

(** The store after a client's requests to an endpoint, given by their
    clock readings (none of them ran the cleanup). *)
Definition after_requests (endpoint : option string) (h : Headers)
    (times : list Z) (store : Store) : Store :=
  foldl (fun st t => (rateLimiter endpoint h t None st).1) store times.

(** A client whose window started at time 0 and who was blocked 30 seconds
    later, for 15 minutes. *)
Definition blocked_store : Store :=
  {[ "unknown:/api/predictions" :=
       {| count := 101; windowStart := 0; blocked := Some true;
          blockUntil := Some (30000 + BLOCK_DURATION) |} ]}.

(** A sixth request to [/api/predictions], one second into the window. *)
Definition full_store : Store :=
  {[ "unknown:/api/predictions" :=
       {| count := 5; windowStart := 0; blocked := Some false; blockUntil := None |} ]}.

(** No window of the store starts after [now]; this holds along any run
    whose clock readings do not decrease. *)
Definition windows_started (now : Z) (store : Store) : Prop :=
  forall k e, store !! k = Some e -> windowStart e <= now.

End HardenedSpec.

Module ListingSpec.
Import DB Listing.


(** The prediction has a target date, and it is before [today]. *)
Definition target_date_passed (today : string) (p : Predictions.row) : Prop :=
  Predictions.target_date p <> SNull /\
  sql_lt (Predictions.target_date p) (SText today) = Some true.

(** Calendar dates as SQLite's [date('now')] and the date inputs of the
    form write them: [YYYY-MM-DD]. *)
Definition digit (n : Z) : ascii := ascii_of_nat (48 + Z.to_nat n).
Definition two_digits (n : Z) : string :=
  String (digit (n / 10)) (String (digit (n mod 10)) "").
Definition four_digits (n : Z) : string :=
  String (digit (n / 1000)) (String (digit (n / 100 mod 10)) (two_digits (n mod 100))).
Definition iso_date (y m d : Z) : string :=
  four_digits y +:+ "-" +:+ two_digits m +:+ "-" +:+ two_digits d.

(** Day [(y, m, d)] comes before day [(y', m', d')]. *)
Definition day_before (y m d y' m' d' : Z) : Prop :=
  y < y' \/ (y = y' /\ (m < m' \/ (m = m' /\ d < d'))).

(** The rows of [seed.sql]. *)
Definition seed_prediction (id : Z) (name text pdate tdate tdesc cat : string)
    (conf : Z) (url notes : string) : Predictions.row :=
  {| Predictions.id := id;
     Predictions.predictor_name := SText name;
     Predictions.prediction_text := SText text;
     Predictions.predicted_date := SText pdate;
     Predictions.target_date := SText tdate;
     Predictions.target_description := SText tdesc;
     Predictions.category := SText cat;
     Predictions.confidence_level := SInt conf;
     Predictions.source_url := SText url;
     Predictions.notes := SText notes;
     Predictions.created_at := "2025-08-16 00:00:00";
     Predictions.updated_at := "2025-08-16 00:00:00" |}.

Definition musk : Predictions.row :=
  seed_prediction 1 "Elon Musk"
    "Tesla will be producing 20 million vehicles per year by 2030"
    "2020-09-22" "2030-12-31"
    "Tesla annual vehicle production reaches 20 million units"
    "Technology" 8 "https://twitter.com/elonmusk/status/1308420369042845696"
    "Bold prediction made during Battery Day event".

Definition buffett : Predictions.row :=
  seed_prediction 3 "Warren Buffett"
    "The Dow Jones will hit 100,000 in my lifetime"
    "2017-05-06" "2024-12-31"
    "Dow Jones Industrial Average reaches 100,000 points"
    "Economics" 7 "https://example.com/buffett-prediction"
    "Made during Berkshire Hathaway annual meeting".

Definition silver : Predictions.row :=
  seed_prediction 5 "Nate Silver"
    "Donald Trump will not be the 2024 Republican nominee"
    "2022-11-15" "2024-07-15"
    "Someone other than Trump gets the Republican nomination for 2024 presidential election"
    "Politics" 5 "https://example.com/silver-trump-prediction"
    "Analysis based on polling trends and historical data".

Definition silver_verified : Verifications.row :=
  {| Verifications.id := 1;
     Verifications.prediction_id := 5;
     Verifications.outcome := SText "incorrect";
     Verifications.outcome_description :=
       SText "Donald Trump secured the Republican nomination for 2024";
     Verifications.evidence_url := SText "https://example.com/trump-nomination-news";
     Verifications.verified_by := SText "Prediction Tracker System";
     Verifications.verification_date := "2024-07-16 10:00:00";
     Verifications.confidence_score := SInt 10;
     Verifications.notes :=
       SText "Trump officially became the Republican nominee at the 2024 RNC";
     Verifications.created_at := "2025-08-16 00:00:00" |}.

Definition seed : DB.t :=
  {| predictions := [musk; buffett; silver];
     verifications := [silver_verified];
     seq_predictions := 5;
     seq_verifications := 1 |}.

End ListingSpec.

Module SecuritySpec.
Import Security.

Definition retryAfter_ms (o : outcome) : option Z :=
  match body_field o "retryAfter" with
  | Some (JNum n) => Some n
  | _ => None
  end.

(** A browser that sends no address header and is not behind Cloudflare. *)
Definition anonymous : Request :=
  {| method := "GET";
     headers := {| CF_Connecting_IP := None; X_Forwarded_For := None; X_Real_IP := None;
                   User_Agent := None; Content_Length := None |};
     cf := None;
     body := None |}.

(** The store after a list of API requests, given by their clock readings. *)
Definition after_api_requests (times : list Z) (store : Store) : Store :=
  foldl (fun st t => (App.api_limiters anonymous t st).1) store times.

End SecuritySpec.

Module AppSpec.
Import App.

Section Checks.

Variable compare_string_number : string -> Z -> option comparison.

(** The field checks of the verification handler of [index.tsx] pass. *)
Definition passes_field_checks (body : gmap string jsval) : Prop :=
  truthy (prop body "outcome") = true /\
  truthy (prop body "outcome_description") = true /\
  truthy (prop body "verified_by") = true /\
  includes validOutcomes (prop body "outcome") = true /\
  (truthy (prop body "confidence_score") = true ->
   lt compare_string_number (prop body "confidence_score") 1 = false /\
   gt compare_string_number (prop body "confidence_score") 10 = false).

End Checks.

End AppSpec.

Module GuardsSpec.

(** A text of white space only; the empty text is one. *)
Fixpoint all_spaces (s : string) : bool :=
  match s with
  | EmptyString => true
  | String c r => is_space c && all_spaces r
  end.

(** The words [BOT_PATTERNS] of the hardened revision looks for. *)
Definition bot_words : list string :=
  ["bot"; "crawler"; "spider"; "scraper"; "curl"; "wget"; "python"; "requests"].

(** The user agent holds one of the words, in any letter case. *)
Definition names_bot (userAgent : string) : Prop :=
  exists w, In w bot_words /\ contains w (lower userAgent) = true.

Definition passes (o : outcome) : Prop := exists hs, o = Next hs.

(** A request that carries nothing but a content length. *)
Definition sized (contentLength : string) : Headers :=
  {| CF_Connecting_IP := None; X_Forwarded_For := None; X_Real_IP := None;
     User_Agent := None; Content_Length := Some contentLength |}.

End GuardsSpec.

Module ScanSpec.

(** The strings a parsed JSON value holds, at any depth. *)
Inductive holds_string (s : string) : jsval -> Prop :=
| holds_here : holds_string s (JStr s)
| holds_element l v : In v l -> holds_string s v -> holds_string s (JArr l)
| holds_property fields k v :
    In (k, v) fields -> holds_string s v -> holds_string s (JObj fields).

(** The length the input scan allows a string under a key of the body. *)
Definition limit_of (key : string) : nat :=
  if String.eqb key "prediction_text" then 1000
  else if String.eqb key "outcome_description" then 2000
  else if String.eqb key "predictor_name" then 100
  else 5000.

(** A form whose free text quotes a range with two hyphens. *)
Definition range_form : jsval :=
  JObj [ ("predictor_name", JStr "Ada");
         ("prediction_text", JStr "Rates stay in the band 2--3 percent") ].

Definition plain_form : jsval :=
  JObj [ ("predictor_name", JStr "Ada");
         ("prediction_text", JStr "Rates stay below 3 percent");
         ("tags", JArr [JStr "economics"; JStr "rates"]) ].

Definition post (body : option (gmap string jsval)) : Security.Request :=
  {| Security.method := "POST";
     Security.headers := {| CF_Connecting_IP := None; X_Forwarded_For := None;
                            X_Real_IP := None; User_Agent := None;
                            Content_Length := None |};
     Security.cf := None;
     Security.body := body |}.

End ScanSpec.

Module BehaviorSpec.
Import Guards.

(** The activity on record for the client of a request. *)
Definition on_record (store : Activities) (c : Security.Request) : Activity :=
  default {| actions := []; timestamps := [] |} (store !! activity_key c).

Definition error_of (o : outcome) : option jsval := body_field o "error".

End BehaviorSpec.

Module QuotaSpec.
Import Hardened.

(** The answers to a client's requests to an endpoint, served one after the
    other; each request comes with its clock reading and, when it runs the
    cleanup, the clock reading of the cleanup. *)
Fixpoint serve (endpoint : option string) (h : Headers)
    (requests : list (Z * option Z)) (store : Store) : list outcome :=
  match requests with
  | [] => []
  | (now, cleanup) :: rest =>
      let result := rateLimiter endpoint h now cleanup store in
      result.2 :: serve endpoint h rest result.1
  end.

(** The entry of a key that was never blocked. *)
Definition unblocked (store : Store) (key : string) : Prop :=
  forall e, store !! key = Some e -> blockUntil e = None.

Definition fresh_entry (now : Z) : RateLimitEntry :=
  {| count := 1; windowStart := now; blocked := Some false; blockUntil := None |}.

(** What the run has made of the client's entry after [j] requests of a
    window that began at [t0] or later. *)
Definition entry_after (t0 : Z) (j : Z) (entry : option RateLimitEntry) : Prop :=
  if j =? 0 then entry = None
  else exists e, entry = Some e /\ t0 <= windowStart e <= t0 + WINDOW_MS /\
         ((j <= SUSPICIOUS_THRESHOLD /\ count e = j /\ blockUntil e = None) \/
          (SUSPICIOUS_THRESHOLD < j /\ blocked e = Some true /\
           exists b, blockUntil e = Some b /\ t0 + BLOCK_DURATION <= b)).

End QuotaSpec.

Module RoutesSpec.
Import Security Routes.

(** No record of the store has a negative count; this holds along any run
    from the empty store. *)
Definition counts_from_zero (store : Store) : Prop :=
  forall k r, store !! k = Some r -> 0 <= count r.

(** A browser that is not behind Cloudflare. *)
Definition browser_headers : Headers :=
  {| CF_Connecting_IP := None; X_Forwarded_For := None; X_Real_IP := None;
     User_Agent := Some "Mozilla/5.0 (X11; Linux x86_64)";
     Content_Length := Some "120" |}.

Definition browser_post : Request :=
  {| method := "POST"; headers := browser_headers; cf := None; body := None |}.

(** A filled form as the page submits it. *)
Definition filled_form : jsval :=
  JObj [ ("predictor_name", JStr "Ada");
         ("prediction_text", JStr "Rates stay below 3 percent");
         ("predicted_date", JStr "2025-01-01");
         ("category", JStr "economics");
         ("confidence_level", JNum 7) ].

Definition submission : Incoming :=
  {| request := browser_post;
     path := "/api/predictions";
     x_originating_ip := None;
     botScore := None;
     json := Normal filled_form |}.

Definition idle : Server :=
  {| activities := ∅; limits := ∅; db := DB.empty |}.

(** A host conversion that reads no string as a number. *)
Definition no_number (s : string) (k : Z) : option comparison := None.

(** A request served within four milliseconds. *)
Definition served_at (t : Z) : Readings :=
  {| at_analysis := t; at_browsing := t + 1; at_api := t + 2; at_post := t + 3 |}.

(** The readings of a request increase, and it is served within the
    quarter of an hour of the browsing window. *)
Definition in_order (clock : Readings) : Prop :=
  at_browsing clock <= at_api clock <= at_post clock /\
  at_post clock < at_browsing clock + 15 * 60 * 1000.

(** The record of the client does not run out while the request passes the
    limiters. *)
Definition steady (clock : Readings) (store : Store) (c : Request) : Prop :=
  forall r, store !! default_key c = Some r ->
    resetTime r <= at_browsing clock \/ at_post clock < resetTime r.

(** Every limiter reads the clock before [t]. *)
Definition before (clock : Readings) (t : Z) : Prop :=
  at_browsing clock < t /\ at_api clock < t /\ at_post clock < t.

(** A router that reads [*] as every path, [/api/*] as every path under
    [/api/], and any other pattern as the path itself. *)
Definition router (pattern path : string) : bool :=
  String.eqb pattern "*"
  || (String.eqb pattern "/api/*" && starts_with "/api/" path)
  || String.eqb pattern path.

(** The submission of the filled form to the idle server. *)
Definition first_submission : Server * outcome :=
  post_predictions router no_number submission (served_at 0) "2025-08-17 09:00:00" idle.

End RoutesSpec.

Module EscapeSpec.

(** The characters that open or close markup or an attribute value. *)
Definition markup (c : ascii) : bool :=
  Ascii.eqb c "<" || Ascii.eqb c ">" || Ascii.eqb c "034" || Ascii.eqb c "'".

(** The characters the escaping replaces. *)
Definition special (c : ascii) : bool := Ascii.eqb c "&" || markup c.

(** Some character of the text satisfies [f]. *)
Fixpoint has (f : ascii -> bool) (s : string) : bool :=
  match s with
  | EmptyString => false
  | String c r => f c || has f r
  end.

(** A text column as the hardened revision fills it: NULL, or a text without
    markup characters that is at most six times [maxLength] long (every
    character of the input may have become an entity). *)
Definition escaped_column (v : DB.sqlval) (maxLength : nat) : Prop :=
  v = DB.SNull \/
  exists s, v = DB.SText s /\ has markup s = false /\
            (String.length s <= 6 * maxLength)%nat.

End EscapeSpec.

Module DBSpec.
Import DB.

(** What the constraints of the schema and the AUTOINCREMENT counters
    maintain: row ids are positive, distinct and within their counter, and
    every verification refers to a stored prediction. *)
Definition consistent (db : DB.t) : Prop :=
  0 <= seq_predictions db /\ 0 <= seq_verifications db /\
  (forall p, In p (predictions db) -> 0 < Predictions.id p <= seq_predictions db) /\
  NoDup (List.map Predictions.id (predictions db)) /\
  (forall v, In v (verifications db) ->
     0 < Verifications.id v <= seq_verifications db /\
     prediction_exists db (Verifications.prediction_id v) = true) /\
  NoDup (List.map Verifications.id (verifications db)).

(** No prediction has more than one verification. *)
Definition verified_once (db : DB.t) : Prop :=
  NoDup (List.map Verifications.prediction_id (verifications db)).

(** The database after a statement inserted [row] into [predictions]. *)
Definition with_prediction (db : DB.t) (row : Predictions.row) : DB.t :=
  {| predictions := predictions db ++ [row];
     verifications := verifications db;
     seq_predictions := seq_predictions db + 1;
     seq_verifications := seq_verifications db |}.

Definition with_verification (db : DB.t) (row : Verifications.row) : DB.t :=
  {| predictions := predictions db;
     verifications := verifications db ++ [row];
     seq_predictions := seq_predictions db;
     seq_verifications := seq_verifications db + 1 |}.

End DBSpec.

Module QueriesSpec.
Import DB Listing Queries.

(** The sum of the counts of a grouped result. *)
Definition sum_counts (groups : list (sqlval * Z)) : Z :=
  foldr Z.add 0 (List.map snd groups).

(** No row comes before a row that was created later. *)
Fixpoint newest_first (rows : list listed) : Prop :=
  match rows with
  | [] => True
  | x :: rest =>
      Forall (fun y => String.le (Predictions.created_at (Listing.prediction y))
                                 (Predictions.created_at (Listing.prediction x))) rest
      /\ newest_first rest
  end.

(** No predictor comes before one with more predictions. *)
Fixpoint largest_first (groups : list predictor_stat) : Prop :=
  match groups with
  | [] => True
  | x :: rest =>
      Forall (fun y => total_predictions y <= total_predictions x) rest
      /\ largest_first rest
  end.

(** The rows of a listing that are not verified: pending or overdue. *)
Definition open_rows (rows : list listed) : list listed :=
  List.filter (fun r => negb (String.eqb (verification_status r) "verified")) rows.

(** The prediction has a verification row. *)
Definition verified_in (db : DB.t) (p : Predictions.row) : bool :=
  existsb (fun v => Predictions.id p =? Verifications.prediction_id v) (verifications db).

End QueriesSpec.

Module ExampleSpec.
Import DB.

(** A calendar that knows one day. *)
Definition calendar (v : jsval) : option Z :=
  if strict_eq_str v "2020-01-01" then Some 1577836800000 else None.

(** A form with characters to escape, its CAPTCHA answered. *)
Definition quoted_form : gmap string jsval :=
  {[ "predictor_name" := JStr "O'Brien";
     "prediction_text" := JStr "Tea & coffee";
     "predicted_date" := JStr "2020-01-01";
     "confidence_level" := JNum 7;
     "captcha_answer" := JNum 7;
     "captcha_expected" := JNum 7 ]}.

(** The form submitted to each revision, the seed rows being stored. *)
Definition hardened_submission : DB.t * outcome :=
  HardenedApp.post_predictions calendar ValidationSpec.no_url 1700000000000
    "2025-08-17 09:00:00" ListingSpec.seed (Some quoted_form).

Definition index_submission : DB.t * outcome :=
  App.post_predictions RoutesSpec.no_number "2025-08-17 09:00:00" ListingSpec.seed
    (Some quoted_form).

(** The first seed prediction verified through [index.tsx]. *)
Definition index_verification : DB.t * outcome :=
  App.post_verify RoutesSpec.no_number "2025-08-17 09:00:00" ListingSpec.seed "1"
    (Some ValidationSpec.second_verification).

(** The same submission through the middleware of the hardened revision,
    by a browser, no limiter running the cleanup. *)
Definition hardened_route_submission : HardenedRoutes.Server * outcome :=
  HardenedRoutes.post_predictions RoutesSpec.router calendar ValidationSpec.no_url
    RoutesSpec.browser_headers "/api/predictions" (Some quoted_form)
    {| HardenedRoutes.at_global := 1700000000000;
       HardenedRoutes.cleanup_global := None;
       HardenedRoutes.at_route := 1700000000001;
       HardenedRoutes.cleanup_route := None;
       HardenedRoutes.at_validation := 1700000000002 |}
    "2025-08-17 09:00:00"
    {| HardenedRoutes.limits := ∅; HardenedRoutes.db := ListingSpec.seed |}.

End ExampleSpec.

Module LimiterSpec.
Import Security.

(** The answers of a limiter of [security.ts] to a client's requests, given
    by their clock readings and served one after the other. *)
Fixpoint serve (cfg : RateLimitConfig) (c : Request) (times : list Z) (store : Store)
    : list outcome :=
  match times with
  | [] => []
  | now :: rest =>
      let result := rateLimiter cfg c now store in
      result.2 :: serve cfg c rest result.1
  end.

(** What a run within one window has made of the client's record after [j]
    requests, the first of them at [t0] or later. *)
Definition record_after (cfg : RateLimitConfig) (t0 : Z) (j : Z)
    (record : option Record_) : Prop :=
  if j =? 0 then
    record = None \/ exists r, record = Some r /\ resetTime r <= t0
  else
    exists r, record = Some r /\ count r = j /\ t0 + windowMs cfg <= resetTime r.

End LimiterSpec.

(** * Properties *)

Module JSFacts.

Lemma digit_value_pretty d :
  (d < 10)%N -> digit_value 10 (pretty_N_char d) = Some (Z.of_N d).
Proof.
  intros Hd.
  assert (d = 0 \/ d = 1 \/ d = 2 \/ d = 3 \/ d = 4 \/ d = 5 \/ d = 6 \/ d = 7
          \/ d = 8 \/ d = 9)%N as Hcases by lia.
  repeat destruct Hcases as [-> | Hcases]; try subst d; reflexivity.
Qed.

Lemma digit_char_plain c :
  digit_char c ->
  is_space c = false /\ c <> "-"%char /\ c <> "+"%char /\ c <> "x"%char /\ c <> "X"%char.
Proof.
  intros (d & Hd & ->).
  assert (d = 0 \/ d = 1 \/ d = 2 \/ d = 3 \/ d = 4 \/ d = 5 \/ d = 6 \/ d = 7
          \/ d = 8 \/ d = 9)%N as Hcases by lia.
  repeat destruct Hcases as [-> | Hcases]; try subst d; by repeat split.
Qed.

(** The digits of a positive number are read back as the number. *)
Lemma parse_digits_pretty_go x s :
  (0 < x)%N ->
  parse_digits 10 0 false (pretty_N_go x s) = parse_digits 10 (Z.of_N x) true s.
Proof.
  revert s. induction (N.lt_wf_0 x) as [x _ IH]. intros s Hx.
  rewrite pretty_N_go_step by done.
  destruct (N.eq_0_gt_0_cases (x `div` 10)) as [Hq | Hq].
  - rewrite Hq, pretty_N_go_0. simpl.
    rewrite digit_value_pretty by (apply N.mod_lt; lia).
    f_equal. pose proof (N.div_mod x 10). lia.
  - rewrite IH; [|apply N.div_lt; lia|done]. simpl.
    rewrite digit_value_pretty by (apply N.mod_lt; lia).
    f_equal. pose proof (N.div_mod x 10). lia.
Qed.

(** The text of a positive number starts with a digit, and with two when
    what follows it starts with one. *)
Lemma pretty_go_head x s :
  (0 < x)%N ->
  exists c r, pretty_N_go x s = String c r /\ digit_char c /\
              (r = s \/ exists c' r', r = String c' r' /\ digit_char c').
Proof.
  revert s. induction (N.lt_wf_0 x) as [x _ IH]. intros s Hx.
  rewrite pretty_N_go_step by done.
  assert (digit_char (pretty_N_char (x `mod` 10))) as Hd.
  { eexists. split; [|done]. apply N.mod_lt. lia. }
  destruct (N.eq_0_gt_0_cases (x `div` 10)) as [Hq | Hq].
  - rewrite Hq, pretty_N_go_0. eauto 10.
  - destruct (IH (x `div` 10)%N) with (s := String (pretty_N_char (x `mod` 10)) s)
      as (c & r & -> & Hc & Hr); [apply N.div_lt; lia|done|].
    exists c, r. split; [done|]. split; [done|]. right.
    destruct Hr as [-> | Hr]; eauto.
Qed.

Lemma parse_unsigned_pretty_pos p : parse_unsigned (pretty (N.pos p)) = Some (Z.pos p).
Proof.
  unfold pretty, pretty_N. rewrite decide_False by done.
  destruct (pretty_go_head (N.pos p) "") as (c & r & Heq & Hc & Hr); [done|].
  unfold parse_unsigned.
  assert (strip_hex (pretty_N_go (N.pos p) "") = None) as ->.
  { rewrite Heq. unfold strip_hex.
    destruct Hr as [-> | (c' & r' & -> & Hc')].
    - by repeat case_match.
    - apply digit_char_plain in Hc' as (_ & _ & _ & Hx & HX).
      assert (Ascii.eqb c' "x" = false) as Hx' by by apply Ascii.eqb_neq.
      assert (Ascii.eqb c' "X" = false) as HX' by by apply Ascii.eqb_neq.
      repeat case_match; try done; simplify_eq; by rewrite Hx', HX' in *. }
  by rewrite parse_digits_pretty_go.
Qed.

Lemma parseInt_string_pretty_pos p : parseInt_string (pretty (N.pos p)) = Some (Z.pos p).
Proof.
  unfold parseInt_string.
  pose proof (parse_unsigned_pretty_pos p) as Hp.
  unfold pretty, pretty_N in *. rewrite decide_False in * by done.
  destruct (pretty_go_head (N.pos p) "") as (c & r & Heq & Hc & _); [done|].
  rewrite Heq in *.
  apply digit_char_plain in Hc as (Hsp & Hm & Hpl & _).
  simpl. rewrite Hsp.
  destruct c as [b0 b1 b2 b3 b4 b5 b6 b7].
  repeat case_match; try done; simplify_eq; done.
Qed.

(** [parseInt] of a number is the number. *)
Lemma parseInt_JNum n : parseInt (JNum n) = Some n.
Proof.
  unfold parseInt. simpl. unfold pretty, pretty_Z.
  destruct n as [|p|p].
  - reflexivity.
  - apply parseInt_string_pretty_pos.
  - unfold parseInt_string. simpl.
    change (parse_unsigned _) with (parse_unsigned (pretty (N.pos p))).
    by rewrite parse_unsigned_pretty_pos.
Qed.

End JSFacts.

Module HardenedFacts.
Import Hardened HardenedSpec.

Lemma active_block_Some now entry b :
  active_block now entry = Some b <->
  exists e, entry = Some e /\ blocked e = Some true /\ blockUntil e = Some b /\ b <> 0 /\ now < b.
Proof.
  unfold active_block. split.
  - destruct entry as [e|]; [|discriminate].
    destruct (blocked e) as [[|]|] eqn:Hb; try discriminate.
    destruct (blockUntil e) as [u|] eqn:Hu; try discriminate.
    destruct (negb (u =? 0) && (now <? u)) eqn:Hc; [|discriminate].
    intros [= <-]. apply andb_prop in Hc as [H0 Hlt].
    exists e. repeat split; auto; lia.
  - intros (e & -> & Hb & Hu & H0 & Hlt). rewrite Hb, Hu.
    replace (negb (b =? 0) && (now <? b)) with true; [done|].
    symmetry. apply andb_true_intro. split; [apply negb_true_iff|]; lia.
Qed.


Lemma config_for_cases endpoint :
  config_for endpoint = {| max := 30; window := 60000 |} \/
  config_for endpoint = {| max := 5; window := 60000 |} \/
  config_for endpoint = {| max := 10; window := 60000 |}.
Proof.
  unfold config_for. destruct endpoint as [ep|]; [|by left].
  destruct (String.eqb ep ""); [by left|].
  unfold strict_config, STRICT_ENDPOINTS. cbn [List.find fst snd].
  destruct (String.eqb "/api/predictions" ep); [right; left; reflexivity|].
  destruct (String.eqb "/api/predictions/*/verify" ep); [right; right; reflexivity|left; reflexivity].
Qed.

Lemma config_for_bounds endpoint :
  window (config_for endpoint) = 60000 /\
  1 <= max (config_for endpoint) < SUSPICIOUS_THRESHOLD.
Proof.
  unfold SUSPICIOUS_THRESHOLD.
  destruct (config_for_cases endpoint) as [-> | [-> | ->]]; simpl; lia.
Qed.



(** One hundred requests within a second lead from the empty store to
    [busy_store], and one more at second 30 to [blocked_store]. *)
Example busy_store_reached :
  after_requests (Some "/api/predictions") no_headers
    ((fun k => 10 * Z.of_nat k) <$> seq 0 100) ∅ = busy_store /\
  after_requests (Some "/api/predictions") no_headers [30000] busy_store = blocked_store.
Proof. split; vm_compute; reflexivity. Qed.

(** The 101st request of the window is answered 429 with [retryAfter] 900
    (the block, 15 minutes), while the window is 60 seconds. *)
Lemma retry_after_exceeds_window_when_blocking :
  ~ retry_after_within_window (Some "/api/predictions") no_headers 1000 None busy_store.
Proof.
  unfold retry_after_within_window. intros H.
  destruct H as (r & Hr & Hle); [reflexivity | reflexivity |].
  vm_compute in Hr. injection Hr as <-. vm_compute in Hle. by apply Hle.
Qed.

Lemma ceil_div_le a b d : 0 < d -> a <= b -> ceil_div a d <= ceil_div b d.
Proof.
  intros Hd Hab. unfold ceil_div.
  apply Z.opp_le_mono. rewrite !Z.opp_involutive.
  apply Z.div_le_mono; lia.
Qed.

Lemma ceil_div_exact k d : 0 < d -> ceil_div (k * d) d = k.
Proof.
  intros Hd. unfold ceil_div.
  rewrite <- Z.mul_opp_l, Z.div_mul by lia. lia.
Qed.

(** C2, as amended. A request rejected for exceeding the ceiling without
    reaching the suspicious ceiling, on an entry whose window did not start
    after the request's clock reading, carries a retry-after of at most the
    window length (60 s); a request that also exceeds the suspicious ceiling
    carries the block duration, 900 s, instead. *)
Theorem retry_after_bounded endpoint h now cleanup store :
  let key := key_of endpoint h in
  let seen := after_cleanup cleanup store !! key in
  let cfg := config_for endpoint in
  let result := rateLimiter endpoint h now cleanup store in
  active_block now seen = None ->
  status_of result.2 = Some 429 ->
  (forall e, seen = Some e -> windowStart e <= now) ->
  exists e' r, result.1 !! key = Some e' /\ retryAfter_of result.2 = Some r /\
    max cfg < count e' /\
    (count e' <= SUSPICIOUS_THRESHOLD -> r * 1000 <= window cfg) /\
    (SUSPICIOUS_THRESHOLD < count e' -> r * 1000 = BLOCK_DURATION).
Proof.
  intros key seen cfg result Hfree Hst Hpast.
  destruct (config_for_bounds endpoint) as [Hw _]. fold cfg in Hw.
  subst result. revert Hst. unfold rateLimiter. fold key. fold seen.
  rewrite Hfree. fold cfg. cbv zeta.
  assert (windowStart (bump now cfg seen) <= now) as Hws.
  { unfold bump. destruct seen as [e|]; simpl; [|lia].
    destruct (window cfg <? now - windowStart e); simpl; [lia|]. by apply Hpast. }
  set (e1 := bump now cfg seen) in *.
  destruct (max cfg <? count e1) eqn:Hmax;
    [destruct (SUSPICIOUS_THRESHOLD <? count e1) eqn:Hsus|];
    rewrite ?Z.ltb_lt, ?Z.ltb_ge in *; simpl; intros Hst; [| |discriminate].
  - eexists _, _. split; [apply lookup_insert_eq|]. simpl.
    split; [reflexivity|].
    repeat split; intros; first [lia | reflexivity].
  - exists e1, (ceil_div (windowStart e1 + window cfg - now) 1000).
    split; [apply lookup_insert_eq|]. split; [reflexivity|].
    split; [lia|]. split; [|intros; lia]. intros _.
    assert (ceil_div (windowStart e1 + window cfg - now) 1000 <= 60); [|lia].
    rewrite <- (ceil_div_exact 60 1000) by lia.
    apply ceil_div_le; lia.
Qed.

Lemma retry_after_bounded_witness :
  exists e' r,
    (rateLimiter (Some "/api/predictions") no_headers 1000 None full_store).1
      !! key_of (Some "/api/predictions") no_headers = Some e' /\
    retryAfter_of (rateLimiter (Some "/api/predictions") no_headers 1000 None full_store).2
      = Some r /\
    max (config_for (Some "/api/predictions")) < count e' /\
    (count e' <= SUSPICIOUS_THRESHOLD ->
       r * 1000 <= window (config_for (Some "/api/predictions"))) /\
    (SUSPICIOUS_THRESHOLD < count e' -> r * 1000 = BLOCK_DURATION).
Proof.
  apply (retry_after_bounded (Some "/api/predictions") no_headers 1000 None full_store).
  - reflexivity.
  - reflexivity.
  - intros e He. vm_compute in He. injection He as <-. simpl. lia.
Defined.

Lemma windows_started_mono now now' store :
  now <= now' -> windows_started now store -> windows_started now' store.
Proof. intros Hle H k e Hk. specialize (H k e Hk). lia. Qed.

Lemma windows_started_cleanup now t store :
  windows_started now store -> windows_started now (cleanupRateLimit t store).
Proof.
  intros H k e Hk. unfold cleanupRateLimit in Hk.
  apply map_lookup_filter_Some in Hk as [Hk _]. by apply (H k e).
Qed.

Lemma rateLimiter_windows_started endpoint h now cleanup store :
  windows_started now store ->
  windows_started now (rateLimiter endpoint h now cleanup store).1.
Proof.
  intros H.
  assert (windows_started now (after_cleanup cleanup store)) as H0.
  { destruct cleanup; simpl; [by apply windows_started_cleanup|done]. }
  assert (windowStart (bump now (config_for endpoint)
            (after_cleanup cleanup store !! key_of endpoint h)) <= now) as Hb.
  { unfold bump.
    destruct (after_cleanup cleanup store !! key_of endpoint h) as [e|] eqn:He;
      simpl; [|lia].
    destruct (_ <? _); simpl; [lia|]. by apply (H0 _ _ He). }
  unfold rateLimiter.
  destruct (active_block now _); [done|]. cbv zeta.
  repeat match goal with |- context [if ?c then _ else _] => destruct c end;
    simpl; intros k e Hk;
    repeat (apply lookup_insert_Some in Hk as [[_ <-] | [_ Hk]]; [simpl; lia|]);
    by apply (H0 k e).
Qed.

(** The cleanup deletes an entry whose window started more than two minutes
    ago, blocked or not: three minutes into a block of fifteen, a request
    that runs the cleanup finds no entry and proceeds, while a request that
    does not is still answered 429. *)
Example cleanup_lifts_block :
  status_of (rateLimiter (Some "/api/predictions") no_headers 180000 None blocked_store).2
  = Some 429 /\
  exists hs,
    (rateLimiter (Some "/api/predictions") no_headers 180000 (Some 180000)
       blocked_store).2 = Next hs.
Proof. split; [reflexivity|]. eexists. reflexivity. Qed.

End HardenedFacts.

Module SecurityFacts.
Import Security SecuritySpec.

(** The limiter of [security.ts] counts per key within a window that ends at
    [resetTime]: a record that is missing or past its reset time restarts
    at count 1 with a new reset time, any other is incremented; a count
    above the ceiling is answered 429 with the milliseconds left, and there
    is no block. *)
Lemma security_rateLimiter_counts cfg c now store :
  let key := keyGenerator cfg c in
  let result := rateLimiter cfg c now store in
  exists r', result.1 !! key = Some r' /\
    (store !! key = None \/ (exists r, store !! key = Some r /\ resetTime r <= now) ->
       count r' = 1 /\ resetTime r' = now + windowMs cfg) /\
    (forall r, store !! key = Some r -> now < resetTime r ->
       count r' = count r + 1 /\ resetTime r' = resetTime r) /\
    (count r' <= maxRequests cfg -> exists hs, result.2 = Next hs) /\
    (maxRequests cfg < count r' ->
       status_of result.2 = Some 429 /\
       retryAfter_ms result.2 = Some (resetTime r' - now)) /\
    (forall k, k <> key -> result.1 !! k = store !! k).
Proof.
  intros key result. subst result. unfold rateLimiter. fold key. cbv zeta.
  destruct (store !! key) as [r|] eqn:Hr;
    [destruct (resetTime r <=? now) eqn:Hreset|];
    rewrite ?Z.leb_le, ?Z.leb_gt in *; simpl;
    match goal with
    | |- context [if ?b then _ else _] => destruct b eqn:Hmax
    end;
    rewrite ?Z.ltb_lt, ?Z.ltb_ge in *; simpl;
    (eexists; split; [apply lookup_insert_eq|]); simpl;
    repeat split; intros;
    repeat match goal with
           | H : _ \/ _ |- _ => destruct H
           | H : exists _, _ |- _ => destruct H as (? & ? & ?)
           end;
    simplify_eq;
    first [ lia | reflexivity | eexists; reflexivity | by rewrite lookup_insert_ne ].
Qed.

(** A rejection by the limiter that set the record's reset time carries a
    retry-after within its own window. *)
Lemma security_retry_after_bounded cfg c now store :
  let result := rateLimiter cfg c now store in
  0 <= windowMs cfg ->
  (forall r, store !! keyGenerator cfg c = Some r -> resetTime r <= now + windowMs cfg) ->
  status_of result.2 = Some 429 ->
  exists ms, retryAfter_ms result.2 = Some ms /\ ms <= windowMs cfg.
Proof.
  intros result Hw Hown. subst result. unfold rateLimiter. cbv zeta.
  destruct (store !! keyGenerator cfg c) as [r|] eqn:Hr;
    [destruct (resetTime r <=? now) eqn:Hreset|]; simpl;
    match goal with
    | |- context [if ?b then _ else _] => destruct b
    end; simpl; intros Hst; try discriminate;
    eexists; (split; [reflexivity|]); try lia.
  specialize (Hown r eq_refl). lia.
Qed.

(** The limiters of an API request share one record: the record the
    browsing limiter opened (15 minutes) is the one the API limiter (5
    minutes) counts on, twice per request. The eleventh API request within
    ten seconds is rejected by the API limiter with a retry-after of 890
    seconds, nearly three of its windows. *)
Example security_retry_after_of_shared_record :
  let store := after_api_requests [0; 1000; 2000; 3000; 4000; 5000; 6000; 7000; 8000; 9000] ∅ in
  status_of (App.api_limiters anonymous 10000 store).2 = Some 429 /\
  retryAfter_ms (App.api_limiters anonymous 10000 store).2 = Some 890000 /\
  windowMs apiRateLimiter = 300000.
Proof. vm_compute. done. Qed.

End SecurityFacts.

Module ListingFacts.
Import DB Listing ListingSpec.

Lemma in_insert_desc x r l : In x (insert_desc r l) <-> x = r \/ In x l.
Proof.
  induction l as [|y l IH]; simpl.
  - intuition congruence.
  - destruct (String.compare _ _); simpl; rewrite ?IH; intuition congruence.
Qed.

Lemma in_order_by_created_desc x l : In x (order_by_created_desc l) <-> In x l.
Proof.
  unfold order_by_created_desc. induction l as [|y l IH]; simpl; [tauto|].
  rewrite in_insert_desc, IH. intuition congruence.
Qed.

(** A row of the join pairs a stored prediction with one of its
    verifications, or with none when it has none. *)
Lemma in_left_join db p v :
  In (p, v) (left_join db) ->
  In p (predictions db) /\
  match v with
  | Some w => In w (verifications db) /\ Verifications.prediction_id w = Predictions.id p
  | None => forall w, In w (verifications db) ->
                      Verifications.prediction_id w <> Predictions.id p
  end.
Proof.
  unfold left_join. rewrite in_flat_map. intros (q & Hq & Hin).
  destruct (List.filter _ _) as [|w0 ws] eqn:Hf.
  - destruct Hin as [[= <- <-]|[]]. split; [done|].
    intros w Hw Heq.
    assert (In w []) as [].
    rewrite <- Hf. apply filter_In. split; [done|]. apply Z.eqb_eq. by symmetry.
  - apply in_map_iff in Hin as (w & [= <- <-] & Hw).
    rewrite <- Hf in Hw. apply filter_In in Hw as [Hw Heq].
    apply Z.eqb_eq in Heq. by repeat split.
Qed.

Lemma in_get_predictions today db category status r :
  In r (get_predictions today db category status) ->
  exists p v, In (p, v) (left_join db) /\ r = select_row today (p, v).
Proof.
  unfold get_predictions. cbv zeta. intros Hr.
  assert (In r (order_by_created_desc
                  (List.map (select_row today)
                     match given category with
                     | Some c =>
                         List.filter
                           (fun pv => bool_decide (Predictions.category pv.1 = SText c))
                           (left_join db)
                     | None => left_join db
                     end))) as Hr'.
  { destruct (given status); [by apply filter_In in Hr as [Hr _]|done]. }
  apply in_order_by_created_desc, in_map_iff in Hr' as ([p v] & <- & Hpv).
  exists p, v. split; [|done].
  destruct (given category); [by apply filter_In in Hpv as [Hpv _]|done].
Qed.



Example iso_date_today : iso_date 2026 11 2 = "2026-11-02".
Proof. reflexivity. Qed.

Lemma digit_compare i j :
  0 <= i <= 9 -> 0 <= j <= 9 -> Ascii.compare (digit i) (digit j) = (i ?= j).
Proof.
  intros Hi Hj.
  assert (i = 0 \/ i = 1 \/ i = 2 \/ i = 3 \/ i = 4 \/ i = 5 \/ i = 6 \/ i = 7
          \/ i = 8 \/ i = 9) as Hi' by lia.
  assert (j = 0 \/ j = 1 \/ j = 2 \/ j = 3 \/ j = 4 \/ j = 5 \/ j = 6 \/ j = 7
          \/ j = 8 \/ j = 9) as Hj' by lia.
  repeat destruct Hi' as [-> | Hi']; try subst i;
    repeat destruct Hj' as [-> | Hj']; try subst j; reflexivity.
Qed.

Lemma leading_digit_bounds n k : 0 <= n < 10 * k -> 0 < k -> 0 <= n / k <= 9.
Proof.
  intros Hn Hk.
  assert (0 <= n / k) by (apply Z.div_pos; lia).
  assert (n / k < 10) by (apply Z.div_lt_upper_bound; lia).
  lia.
Qed.

Lemma last_digit_bounds n : 0 <= n mod 10 <= 9.
Proof. pose proof (Z.mod_pos_bound n 10). lia. Qed.

(** Dates written [YYYY-MM-DD] compare as texts the way the days they
    denote follow each other. *)
Lemma iso_date_before y m d y' m' d' :
  0 <= y <= 9999 -> 0 <= m <= 99 -> 0 <= d <= 99 ->
  0 <= y' <= 9999 -> 0 <= m' <= 99 -> 0 <= d' <= 99 ->
  String.compare (iso_date y m d) (iso_date y' m' d') = Lt <->
  day_before y m d y' m' d'.
Proof.
  intros Hy Hm Hd Hy' Hm' Hd'.
  unfold iso_date, four_digits, two_digits, day_before.
  remember digit as dg eqn:Hdg. simpl. subst dg.
  pose proof (Z.mod_pos_bound y 100). pose proof (Z.mod_pos_bound y' 100).
  rewrite !digit_compare
    by (first [apply last_digit_bounds | apply leading_digit_bounds; lia]).
  change (Ascii.compare "-" "-") with Eq. cbv iota.
  repeat match goal with
         | |- context [?a ?= ?b] => destruct (Z.compare_spec a b)
         end;
    (split; intros Hc;
     [ first [discriminate Hc | Z.div_mod_to_equations; lia]
     | first [reflexivity | exfalso; Z.div_mod_to_equations; lia] ]).
Qed.

(** For a prediction whose target date is written [YYYY-MM-DD], "the target
    date has passed" is the calendar's "before today". *)
Lemma target_date_passed_iso p y m d y' m' d' :
  0 <= y <= 9999 -> 0 <= m <= 99 -> 0 <= d <= 99 ->
  0 <= y' <= 9999 -> 0 <= m' <= 99 -> 0 <= d' <= 99 ->
  Predictions.target_date p = SText (iso_date y m d) ->
  target_date_passed (iso_date y' m' d') p <-> day_before y m d y' m' d'.
Proof.
  intros Hy Hm Hd Hy' Hm' Hd' Ht. unfold target_date_passed. rewrite Ht.
  rewrite <- (iso_date_before y m d y' m' d') by done.
  unfold sql_lt. destruct (String.compare _ _); split; try done; intros [_ ?]; done.
Qed.

End ListingFacts.

Module ValidationFacts.
Import Hardened ValidationSpec.

Lemma push_if_run c m es : push_if c m es = Normal (tt, es ++ when c m).
Proof. destruct c; simpl; unfold push, ret; by rewrite ?app_nil_r. Qed.

Lemma blank_run v es :
  blank v es = if is_text v then Normal (missing v, es) else Throw "TypeError".
Proof. by destruct v. Qed.

Lemma sanitizeString_run v n f es :
  sanitizeString v n f es =
  if trims v
  then Normal (clean v n,
               es ++ when (malicious v) (f +:+ " contains potentially malicious content"))
  else Throw "TypeError".
Proof.
  unfold sanitizeString, trims, clean, malicious.
  destruct (truthy v) eqn:Ht; simpl.
  - destruct (suspicious (ToString v)) eqn:Hs; simpl.
    + reflexivity.
    + unfold bind, ret. destruct v; simpl; by rewrite ?app_nil_r.
  - unfold ret. by rewrite app_nil_r.
Qed.

(** A number is out of range exactly when it is below 1 or above 10; the
    boundary values are in range. *)
Lemma out_of_range_number n :
  out_of_range (parseInt (JNum n)) = true <-> n < 1 \/ 10 < n.
Proof.
  rewrite JSFacts.parseInt_JNum. unfold out_of_range.
  rewrite orb_true_iff, !Z.ltb_lt. tauto.
Qed.

Example confidence_examples :
  out_of_range (parseInt (JNum 0)) = true /\
  out_of_range (parseInt (JNum 11)) = true /\
  out_of_range (parseInt (JStr "high")) = true /\
  out_of_range (parseInt JUndefined) = true /\
  out_of_range (parseInt (JNum 1)) = false /\
  out_of_range (parseInt (JNum 10)) = false /\
  out_of_range (parseInt (JStr "10")) = false.
Proof. repeat split; reflexivity. Qed.

Section Runs.

Variable Date_time : jsval -> option Z.
Variable URL_protocol : string -> option string.

Lemma invalid_target_date_rule (td : jsval) :
  match (if truthy td then Some (Date_time td) else None) with
  | Some None => true
  | _ => false
  end = supplied td && bool_decide (Date_time td = None).
Proof. unfold supplied. destruct (truthy td); [|done]. by destruct (Date_time td). Qed.

Lemma target_date_order_rule (td : jsval) (pd : option Z) :
  match (if truthy td then Some (Date_time td) else None) with
  | Some t => date_le t pd
  | None => false
  end = supplied td && date_le (Date_time td) pd.
Proof. unfold supplied. by destruct (truthy td). Qed.

(** One statement of a validation, run on the messages pushed so far. *)
Ltac run_statement :=
  unfold bind at 1;
  first [ rewrite blank_run | rewrite sanitizeString_run | rewrite push_if_run ];
  try match goal with
      | |- context [if ?c then Normal _ else Throw _] =>
          destruct c eqn:?; [|reflexivity]
      end;
  cbv beta iota.

Ltac read_sanitized :=
  unfold prop;
  repeat first [ rewrite lookup_insert_eq | rewrite lookup_insert_ne by done ];
  rewrite ?lookup_empty; reflexivity.

(** What [validate_prediction] leaves: it throws exactly on an ill-typed
    body, and otherwise its messages are the violated rules, in order, and
    its object holds the sanitized fields. *)
Lemma validate_prediction_run now data es :
  match validate_prediction Date_time URL_protocol now data es with
  | Normal (o, es') =>
      well_typed data prediction = true /\
      es' = es ++ violations_prediction Date_time URL_protocol now data /\
      sanitized_prediction_of URL_protocol data o
  | Throw _ => well_typed data prediction = false
  end.
Proof.
  unfold validate_prediction, well_typed, violations_prediction,
    sanitized_prediction_of. cbv zeta.
  rewrite invalid_target_date_rule, target_date_order_rule.
  do 14 run_statement.
  unfold bad_url.
  destruct (truthy (prop data "source_url") && _) eqn:Hurl.
  - unfold bind, push, ret. cbv beta iota.
    split; [reflexivity|]. split; [by rewrite <- !app_assoc|].
    repeat split; read_sanitized.
  - unfold ret. simpl when. rewrite app_nil_r.
    split; [reflexivity|]. split; [by rewrite <- !app_assoc|].
    repeat split; read_sanitized.
Qed.

Lemma validate_verification_run data es :
  match validate_verification URL_protocol data es with
  | Normal (o, es') =>
      well_typed data verification = true /\
      es' = es ++ violations_verification URL_protocol data /\
      sanitized_verification_of URL_protocol data o
  | Throw _ => well_typed data verification = false
  end.
Proof.
  unfold validate_verification, well_typed, violations_verification,
    sanitized_verification_of. cbv zeta.
  do 10 run_statement.
  unfold bad_url.
  destruct (truthy (prop data "evidence_url") && _) eqn:Hurl.
  - unfold bind, push, ret. cbv beta iota.
    split; [reflexivity|]. split; [by rewrite <- !app_assoc|].
    repeat split; read_sanitized.
  - unfold ret. simpl when. rewrite app_nil_r.
    split; [reflexivity|]. split; [by rewrite <- !app_assoc|].
    repeat split; read_sanitized.
Qed.

(** [validateInput] throws exactly on an ill-typed body; otherwise its
    messages are the violated rules, it is valid when there is none, and it
    hands out the sanitized object only then. *)
Lemma validateInput_run now data type :
  match validateInput Date_time URL_protocol now data type with
  | Normal r =>
      well_typed data type = true /\
      errors r = violations Date_time URL_protocol now data type /\
      isValid r = bool_decide (errors r = []) /\
      (isValid r = true -> is_Some (sanitized r)) /\
      (isValid r = false -> sanitized r = None) /\
      (forall o, sanitized r = Some o -> sanitized_of URL_protocol type data o)
  | Throw _ => well_typed data type = false
  end.
Proof.
  unfold validateInput.
  assert (forall es : list string,
            bool_decide (length es = 0%nat) = bool_decide (es = [])) as Hlen.
  { intros es. apply bool_decide_ext. by destruct es. }
  destruct type.
  - pose proof (validate_prediction_run now data []) as H.
    destruct (validate_prediction _ _ _ _ _) as [[o es]|e]; [|done].
    destruct H as (Hw & -> & Ho). simpl. rewrite Hlen.
    split; [done|]. split; [done|]. split; [done|].
    case_bool_decide; (split; [by eauto|]); (split; [done|]); by intros ? [= <-].
  - pose proof (validate_verification_run data []) as H.
    destruct (validate_verification _ _ _) as [[o es]|e]; [|done].
    destruct H as (Hw & -> & Ho). simpl. rewrite Hlen.
    split; [done|]. split; [done|]. split; [done|].
    case_bool_decide; (split; [by eauto|]); (split; [done|]); by intros ? [= <-].
Qed.

(** On a well-typed body [validateInput] returns, and its verdict is read
    off its messages. *)
Lemma validateInput_verdict now data type :
  well_typed data type = true ->
  exists r,
    validateInput Date_time URL_protocol now data type = Normal r /\
    errors r = violations Date_time URL_protocol now data type /\
    (isValid r = true <-> errors r = []) /\
    (is_Some (sanitized r) <-> isValid r = true).
Proof.
  intros Hw.
  pose proof (validateInput_run now data type) as H.
  destruct (validateInput _ _ _ _ _) as [r|e] eqn:Hrun; [|congruence].
  destruct H as (_ & Herr & Hvalid & Hsome & Hnone & _).
  exists r. split; [done|]. split; [done|].
  split; [rewrite Hvalid; apply bool_decide_eq_true|].
  split; [|done]. intros [o Ho]. destruct (isValid r) eqn:Hv; [done|].
  rewrite Hnone in Ho by done. discriminate.
Qed.

Lemma prop_insert_ne (data : gmap string jsval) k k' v :
  k <> k' -> prop (<[k := v]> data) k' = prop data k'.
Proof. intros Hne. unfold prop. by rewrite lookup_insert_ne. Qed.

Lemma prop_insert_eq (data : gmap string jsval) k v : prop (<[k := v]> data) k = v.
Proof. unfold prop. by rewrite lookup_insert_eq. Qed.

Lemma includes_spec l v :
  includes l v = true <-> exists s, In s l /\ v = JStr s.
Proof.
  unfold includes. rewrite existsb_exists. split.
  - intros (s & Hs & Heq). exists s. split; [done|].
    destruct v; try discriminate. simpl in Heq.
    apply String.eqb_eq in Heq. by subst.
  - intros (s & Hs & ->). exists s. split; [done|]. simpl. apply String.eqb_refl.
Qed.

(** The category of a body takes no part in the rules. *)
Lemma violations_ignore_category now data c :
  violations_prediction Date_time URL_protocol now (<["category" := c]> data)
  = violations_prediction Date_time URL_protocol now data.
Proof. unfold violations_prediction. by rewrite !prop_insert_ne. Qed.

Lemma well_typed_ignores_category data c :
  well_typed (<["category" := c]> data) prediction = well_typed data prediction.
Proof. unfold well_typed. by rewrite !prop_insert_ne. Qed.

(** C9. [validateInput(body, 'prediction')] never adds an error for the
    category: whatever the category of a body is replaced by, its messages
    and its verdict stay the same (and it throws on the one body exactly
    when it throws on the other). In the sanitized object a category of the
    enumeration is kept as it is, and any other value, a missing category
    included, becomes [general]. *)
Theorem category_never_rejected now data c :
  match validateInput Date_time URL_protocol now (<["category" := c]> data) prediction,
        validateInput Date_time URL_protocol now data prediction with
  | Normal r', Normal r => errors r' = errors r /\ isValid r' = isValid r
  | Throw _, Throw _ => True
  | _, _ => False
  end /\
  (forall r o,
     validateInput Date_time URL_protocol now data prediction = Normal r ->
     sanitized r = Some o ->
     (forall s, In s validCategories -> prop data "category" = JStr s ->
                prop o "category" = prop data "category") /\
     ((forall s, In s validCategories -> prop data "category" <> JStr s) ->
      prop o "category" = JStr "general")).
Proof.
  split.
  - pose proof (validateInput_run now (<["category" := c]> data) prediction) as H'.
    pose proof (validateInput_run now data prediction) as H.
    rewrite well_typed_ignores_category in H'.
    destruct (validateInput _ _ _ (<["category" := c]> data) _) as [r'|e'],
             (validateInput _ _ _ data _) as [r|e]; try done.
    + destruct H' as (_ & He' & Hv' & _), H as (_ & He & Hv & _).
      simpl in He', He. rewrite violations_ignore_category in He'.
      rewrite Hv', Hv, He', He. done.
    + destruct H' as [H' _]. congruence.
    + destruct H as [H _]. congruence.
  - intros r o Hrun Hso.
    pose proof (validateInput_run now data prediction) as H.
    rewrite Hrun in H. destruct H as (_ & _ & _ & _ & _ & Ho).
    destruct (Ho o Hso) as (_ & _ & _ & _ & _ & _ & Hcat & _).
    rewrite Hcat. split.
    + intros s Hs Heq.
      assert (includes validCategories (prop data "category") = true) as ->; [|done].
      apply includes_spec. eauto.
    + intros Hnot.
      destruct (includes validCategories (prop data "category")) eqn:Hin; [|done].
      apply includes_spec in Hin as (s & Hs & Heq). by destruct (Hnot s Hs).
Qed.

Lemma when_nil c m : when c m = [] <-> c = false.
Proof. by destruct c. Qed.

Lemma in_when m c m' : In m (when c m') <-> c = true /\ m' = m.
Proof. destruct c; simpl; intuition congruence. Qed.

(** A prediction body that passes validation: its dates and its confidence
    obey the rules. *)
Lemma valid_prediction_obeys now data r :
  validateInput Date_time URL_protocol now data prediction = Normal r ->
  isValid r = true ->
  truthy (prop data "predicted_date") = true /\
  (exists p, Date_time (prop data "predicted_date") = Some p /\ p <= now /\
     (truthy (prop data "target_date") = true ->
      exists t, Date_time (prop data "target_date") = Some t /\ p < t)) /\
  (exists n, parseInt (prop data "confidence_level") = Some n /\ 1 <= n <= 10).
Proof.
  intros Hrun Hvalid.
  pose proof (validateInput_run now data prediction) as H.
  rewrite Hrun in H. destruct H as (_ & Herr & Hv & _).
  rewrite Hvalid in Hv. symmetry in Hv. apply bool_decide_eq_true in Hv.
  rewrite Hv in Herr. symmetry in Herr. simpl in Herr.
  unfold violations_prediction in Herr. cbv zeta in Herr.
  repeat (apply app_eq_nil in Herr as [?%when_nil Herr]).
  apply when_nil in Herr.
  repeat match goal with
         | H : negb _ = false |- _ => apply negb_false_iff in H
         | H : bool_decide _ = false |- _ => apply bool_decide_eq_false in H
         end.
  split; [done|]. split.
  - destruct (Date_time (prop data "predicted_date")) as [p|] eqn:Hp; [|done].
    exists p. split; [done|]. split.
    + unfold date_gt in *. lia.
    + intros Ht. unfold supplied in *. rewrite Ht in *. simpl in *.
      destruct (Date_time (prop data "target_date")) as [t|] eqn:Htd.
      * exists t. split; [done|]. unfold date_le in *. lia.
      * by case_bool_decide.
  - unfold out_of_range in *.
    destruct (parseInt (prop data "confidence_level")) as [n|]; [|done].
    exists n. split; [done|]. lia.
Qed.

(** A verification body that passes validation has a confidence score in
    range. *)
Lemma valid_verification_obeys now data r :
  validateInput Date_time URL_protocol now data verification = Normal r ->
  isValid r = true ->
  exists n, parseInt (prop data "confidence_score") = Some n /\ 1 <= n <= 10.
Proof.
  intros Hrun Hvalid.
  pose proof (validateInput_run now data verification) as H.
  rewrite Hrun in H. destruct H as (_ & Herr & Hv & _).
  rewrite Hvalid in Hv. symmetry in Hv. apply bool_decide_eq_true in Hv.
  rewrite Hv in Herr. symmetry in Herr. simpl in Herr.
  unfold violations_verification in Herr.
  repeat (apply app_eq_nil in Herr as [?%when_nil Herr]).
  unfold out_of_range in *.
  destruct (parseInt (prop data "confidence_score")) as [n|]; [|done].
  exists n. split; [done|]. lia.
Qed.

(** The confidence message is among the errors exactly when the confidence
    is out of range. *)
Lemma confidence_level_message now data :
  In "Confidence level must be between 1 and 10"
     (violations_prediction Date_time URL_protocol now data)
  <-> out_of_range (parseInt (prop data "confidence_level")) = true.
Proof.
  unfold violations_prediction. cbv zeta. split.
  - intros H.
    do 11 (apply in_app_or in H as [H | H];
           [apply in_when in H as [_ H]; discriminate H|]).
    apply in_app_or in H as [H | H]; apply in_when in H as [Hc H];
      [done|discriminate H].
  - intros ->. do 11 (apply in_or_app; right).
    apply in_or_app. left. by left.
Qed.

Lemma confidence_score_message data :
  In "Confidence score must be between 1 and 10"
     (violations_verification URL_protocol data)
  <-> out_of_range (parseInt (prop data "confidence_score")) = true.
Proof.
  unfold violations_verification. split.
  - intros H.
    do 7 (apply in_app_or in H as [H | H];
          [apply in_when in H as [_ H]; discriminate H|]).
    apply in_app_or in H as [H | H]; apply in_when in H as [Hc H];
      [done|discriminate H].
  - intros ->. do 7 (apply in_or_app; right).
    apply in_or_app. left. by left.
Qed.

End Runs.
End ValidationFacts.

Module HardenedAppFacts.
Import Hardened HardenedApp ValidationSpec ValidationFacts.

Section Handlers.

Variable Date_time : jsval -> option Z.
Variable URL_protocol : string -> option string.

Lemma bot_checks_prediction body :
  passes_bot_checks_prediction body ->
  negb (validateHoneypot (prop body "website"))
  || negb (validateHoneypot (prop body "email_address"))
  || negb (validateHoneypot (prop body "full_name")) = false /\
  negb (validateCaptcha (prop body "captcha_answer") (prop body "captcha_expected")) = false.
Proof. intros (-> & -> & -> & ->). done. Qed.

Lemma bot_checks_verification body :
  passes_bot_checks_verification body ->
  negb (validateHoneypot (prop body "website"))
  || negb (validateHoneypot (prop body "email_address"))
  || negb (validateHoneypot (prop body "company")) = false /\
  negb (validateCaptcha (prop body "captcha_answer") (prop body "captcha_expected")) = false.
Proof. intros (-> & -> & -> & ->). done. Qed.

Lemma well_formed_id_check predictionId :
  well_formed_id predictionId ->
  match parseInt_string predictionId with Some n => n <=? 0 | None => true end = false.
Proof. intros (n & -> & Hn). apply Z.leb_gt. lia. Qed.

(** A handler that receives an invalid result answers 400 with its
    messages, and stores nothing. *)
Lemma invalid_result_answered_400 now stamp db data r :
  validateInput Date_time URL_protocol now data prediction = Normal r ->
  passes_bot_checks_prediction data ->
  isValid r = false ->
  post_predictions Date_time URL_protocol now stamp db (Some data)
  = (db, validation_failed (errors r)).
Proof.
  intros Hrun Hbots Hinvalid. unfold post_predictions.
  destruct (bot_checks_prediction _ Hbots) as [-> ->].
  rewrite Hrun, Hinvalid. reflexivity.
Qed.

Lemma invalid_result_answered_400_verify now stamp db predictionId data r :
  validateInput Date_time URL_protocol now data verification = Normal r ->
  well_formed_id predictionId ->
  passes_bot_checks_verification data ->
  isValid r = false ->
  post_verify Date_time URL_protocol now stamp db predictionId (Some data)
  = (db, validation_failed (errors r)).
Proof.
  intros Hrun Hid Hbots Hinvalid. unfold post_verify.
  rewrite (well_formed_id_check _ Hid).
  destruct (bot_checks_verification _ Hbots) as [-> ->].
  rewrite Hrun, Hinvalid. reflexivity.
Qed.


(** [validateHoneypot] accepts exactly the values that are falsy. *)
Lemma validateHoneypot_truthy v : validateHoneypot v = negb (truthy v).
Proof.
  unfold validateHoneypot.
  destruct v as [| |b|n|t| |]; simpl; try done; try by destruct b.
  - by rewrite orb_false_r.
  - destruct (String.eqb t "") eqn:Ht; [|done].
    apply String.eqb_eq in Ht as ->. reflexivity.
Qed.

Lemma validateCaptcha_true u e :
  validateCaptcha u e = true <-> exists n, parseInt u = Some n /\ parseInt e = Some n.
Proof.
  unfold validateCaptcha. split.
  - destruct (parseInt u) as [a|], (parseInt e) as [b|]; try discriminate.
    intros H. apply Z.eqb_eq in H as ->. eauto.
  - intros (n & -> & ->). apply Z.eqb_refl.
Qed.

Lemma lacks_captcha_fails body :
  lacks_captcha body ->
  validateCaptcha (prop body "captcha_answer") (prop body "captcha_expected") = false.
Proof.
  unfold validateCaptcha, prop.
  intros [-> | ->]; simpl; [done|].
  by destruct (parseInt _).
Qed.

(** C10. [validateCaptcha] returns true exactly when [parseInt] reads the
    same integer from both arguments; it returns false when either is NaN,
    so when either argument is absent. In the hardened handlers a body
    without a CAPTCHA field is answered 400 by the honeypot or the CAPTCHA
    check (or by the check of the id), before validation, and nothing is
    stored. *)
Theorem validateCaptcha_decides :
  (forall u e, validateCaptcha u e = true <->
               exists n, parseInt u = Some n /\ parseInt e = Some n) /\
  (forall u e, parseInt u = None \/ parseInt e = None -> validateCaptcha u e = false) /\
  (forall v, validateCaptcha JUndefined v = false /\ validateCaptcha v JUndefined = false) /\
  (forall now stamp db body,
     lacks_captcha body ->
     exists msg,
       post_predictions Date_time URL_protocol now stamp db (Some body)
       = (db, Reply 400 [("error", JStr msg)]) /\
       (msg = "Invalid request" \/ msg = "Security verification failed")) /\
  (forall now stamp db predictionId body,
     lacks_captcha body ->
     exists msg,
       post_verify Date_time URL_protocol now stamp db predictionId (Some body)
       = (db, Reply 400 [("error", JStr msg)]) /\
       (msg = "Invalid prediction ID" \/ msg = "Invalid request"
        \/ msg = "Security verification failed")).
Proof.
  split; [apply validateCaptcha_true|].
  split.
  { intros u e [Hu | He]; unfold validateCaptcha; [by rewrite Hu|rewrite He].
    by destruct (parseInt u). }
  split.
  { intros v. unfold validateCaptcha. split; [done|]. by destruct (parseInt v). }
  split.
  - intros now stamp db body Hlacks. unfold post_predictions.
    rewrite (lacks_captcha_fails _ Hlacks).
    destruct (negb (validateHoneypot (prop body "website")) || _ || _); eauto.
  - intros now stamp db predictionId body Hlacks. unfold post_verify.
    rewrite (lacks_captcha_fails _ Hlacks).
    destruct (parseInt_string predictionId) as [n|]; [destruct (n <=? 0)|];
      try destruct (negb (validateHoneypot (prop body "website")) || _ || _);
      eauto 6.
Qed.

Lemma honeypot_check_prediction body :
  honeypot_filled_prediction body ->
  negb (validateHoneypot (prop body "website"))
  || negb (validateHoneypot (prop body "email_address"))
  || negb (validateHoneypot (prop body "full_name")) = true.
Proof.
  rewrite !validateHoneypot_truthy, !negb_involutive.
  intros [-> | [-> | ->]]; by rewrite ?orb_true_r.
Qed.

Lemma honeypot_check_verification body :
  honeypot_filled_verification body ->
  negb (validateHoneypot (prop body "website"))
  || negb (validateHoneypot (prop body "email_address"))
  || negb (validateHoneypot (prop body "company")) = true.
Proof.
  rewrite !validateHoneypot_truthy, !negb_involutive.
  intros [-> | [-> | ->]]; by rewrite ?orb_true_r.
Qed.

(** C8, as amended. The hardened handlers answer a filled honeypot field
    (website, email_address, and full_name or company) with status 400 and
    the message [Invalid request], and store nothing; the honeypot
    middleware of [security.ts] answers a POST whose website, phone or
    address field is filled with status 403 and does not call the next
    handler. *)
Theorem honeypot_rejected body :
  (forall now stamp db,
     honeypot_filled_prediction body ->
     post_predictions Date_time URL_protocol now stamp db (Some body)
     = (db, Reply 400 [("error", JStr "Invalid request")])) /\
  (forall now stamp db predictionId,
     honeypot_filled_verification body ->
     well_formed_id predictionId ->
     post_verify Date_time URL_protocol now stamp db predictionId (Some body)
     = (db, Reply 400 [("error", JStr "Invalid request")])) /\
  (forall now stamp db predictionId,
     honeypot_filled_verification body ->
     (post_verify Date_time URL_protocol now stamp db predictionId (Some body)).1 = db /\
     status_of (post_verify Date_time URL_protocol now stamp db predictionId (Some body)).2
     = Some 400) /\
  (forall c,
     Security.method c = "POST" -> Security.body c = Some body ->
     honeypot_filled_middleware body ->
     Security.validateHoneypot c
     = Reply 403 [("error", JStr "Bot detected");
                  ("message", JStr "Automated submission detected")]).
Proof.
  split; [|split; [|split]].
  - intros now stamp db Hfilled. unfold post_predictions.
    by rewrite (honeypot_check_prediction _ Hfilled).
  - intros now stamp db predictionId Hfilled Hid. unfold post_verify.
    by rewrite (well_formed_id_check _ Hid), (honeypot_check_verification _ Hfilled).
  - intros now stamp db predictionId Hfilled. unfold post_verify.
    rewrite (honeypot_check_verification _ Hfilled).
    by destruct (parseInt_string predictionId) as [n|]; [destruct (n <=? 0)|].
  - intros c Hm Hb Hfilled. unfold Security.validateHoneypot.
    rewrite Hm, Hb. simpl.
    assert (truthy (prop body "website") || truthy (prop body "phone")
            || truthy (prop body "address") = true) as ->; [|done].
    destruct Hfilled as [-> | [-> | ->]]; by rewrite ?orb_true_r.
Qed.

(** A well-typed body that passes the bot checks and violates a rule is
    answered 400 with the violated rules. *)
Lemma invalid_prediction_answered_400 now stamp db data :
  well_typed data prediction = true ->
  passes_bot_checks_prediction data ->
  violations Date_time URL_protocol now data prediction <> [] ->
  post_predictions Date_time URL_protocol now stamp db (Some data)
  = (db, validation_failed (violations Date_time URL_protocol now data prediction)).
Proof.
  intros Hw Hbots Hviol.
  destruct (validateInput_verdict Date_time URL_protocol now data prediction Hw)
    as (r & Hrun & Herr & Hvalid & _).
  rewrite <- Herr. apply invalid_result_answered_400; [done|done|].
  destruct (isValid r); [|done]. destruct Hviol. rewrite <- Herr. by apply Hvalid.
Qed.

Lemma invalid_verification_answered_400 now stamp db predictionId data :
  well_typed data verification = true ->
  well_formed_id predictionId ->
  passes_bot_checks_verification data ->
  violations Date_time URL_protocol now data verification <> [] ->
  post_verify Date_time URL_protocol now stamp db predictionId (Some data)
  = (db, validation_failed (violations Date_time URL_protocol now data verification)).
Proof.
  intros Hw Hid Hbots Hviol.
  destruct (validateInput_verdict Date_time URL_protocol now data verification Hw)
    as (r & Hrun & Herr & Hvalid & _).
  rewrite <- Herr. apply invalid_result_answered_400_verify; [done|done|done|].
  destruct (isValid r); [|done]. destruct Hviol. rewrite <- Herr. by apply Hvalid.
Qed.

(** The hardened handlers reject a confidence outside 1..10 with a 400 that
    names the rule. *)
Lemma hardened_confidence_level_rejected now stamp db data :
  well_typed data prediction = true ->
  passes_bot_checks_prediction data ->
  out_of_range (parseInt (prop data "confidence_level")) = true ->
  exists msgs,
    post_predictions Date_time URL_protocol now stamp db (Some data)
    = (db, validation_failed msgs) /\
    In "Confidence level must be between 1 and 10" msgs.
Proof.
  intros Hw Hbots Hout.
  apply (confidence_level_message Date_time URL_protocol now) in Hout.
  eexists. split; [|exact Hout].
  apply invalid_prediction_answered_400; [done|done|].
  simpl. intros Hnil. by rewrite Hnil in Hout.
Qed.

Lemma hardened_confidence_score_rejected now stamp db predictionId data :
  well_typed data verification = true ->
  well_formed_id predictionId ->
  passes_bot_checks_verification data ->
  out_of_range (parseInt (prop data "confidence_score")) = true ->
  exists msgs,
    post_verify Date_time URL_protocol now stamp db predictionId (Some data)
    = (db, validation_failed msgs) /\
    In "Confidence score must be between 1 and 10" msgs.
Proof.
  intros Hw Hid Hbots Hout.
  apply (confidence_score_message URL_protocol) in Hout.
  eexists. split; [|exact Hout].
  apply invalid_verification_answered_400; [done|done|done|].
  simpl. intros Hnil. by rewrite Hnil in Hout.
Qed.

(** Whatever the body, the hardened handler stores a prediction only when
    its dates and its confidence obey the rules. *)
Lemma hardened_stores_valid_predictions now stamp db body :
  (post_predictions Date_time URL_protocol now stamp db body).1 <> db ->
  exists data, body = Some data /\
    (exists p, Date_time (prop data "predicted_date") = Some p /\ p <= now /\
       (truthy (prop data "target_date") = true ->
        exists t, Date_time (prop data "target_date") = Some t /\ p < t)) /\
    (exists n, parseInt (prop data "confidence_level") = Some n /\ 1 <= n <= 10).
Proof.
  unfold post_predictions. destruct body as [data|]; [|done].
  destruct (negb (validateHoneypot (prop data "website")) || _ || _); [done|].
  destruct (negb (validateCaptcha _ _)); [done|].
  destruct (validateInput _ _ _ _ _) as [r|e] eqn:Hrun; [|done].
  destruct (isValid r) eqn:Hvalid; [|done]. simpl.
  intros _. exists data. split; [done|].
  by destruct (valid_prediction_obeys _ _ _ _ _ Hrun Hvalid) as (_ & ? & ?).
Qed.

(** On a body that is not well typed [validateInput] throws; the handler
    answers 500 and stores nothing. *)
Lemma ill_typed_body_answered_500 now stamp db data :
  well_typed data prediction = false ->
  passes_bot_checks_prediction data ->
  post_predictions Date_time URL_protocol now stamp db (Some data)
  = (db, Reply 500 [("error", JStr "Failed to add prediction")]).
Proof.
  intros Hw Hbots. unfold post_predictions.
  destruct (bot_checks_prediction _ Hbots) as [-> ->].
  pose proof (validateInput_run Date_time URL_protocol now data prediction) as H.
  destruct (validateInput _ _ _ _ _) as [r|e]; [|done].
  destruct H as [H _]. congruence.
Qed.

(** No partial application: whatever the request, the hardened handlers
    leave the tables as they were unless they answer 200. *)
Lemma hardened_stores_only_on_200 now stamp db body :
  (post_predictions Date_time URL_protocol now stamp db body).1 = db \/
  status_of (post_predictions Date_time URL_protocol now stamp db body).2 = Some 200.
Proof.
  unfold post_predictions. destruct body as [data|]; [|by left].
  repeat first [ match goal with
                 | |- context [if ?b then _ else _] => destruct b
                 end
               | case_match ]; simpl; auto.
Qed.

Lemma hardened_verify_stores_only_on_200 now stamp db predictionId body :
  (post_verify Date_time URL_protocol now stamp db predictionId body).1 = db \/
  status_of (post_verify Date_time URL_protocol now stamp db predictionId body).2
  = Some 200.
Proof.
  unfold post_verify.
  destruct (match parseInt_string predictionId with
            | Some n => n <=? 0 | None => true end); [by left|].
  destruct body as [data|]; [|by left].
  repeat first [ match goal with
                 | |- context [if ?b then _ else _] => destruct b
                 end
               | case_match ]; simpl; auto.
Qed.

End Handlers.


Example empty_form_messages :
  violations no_date no_url 0 empty_form prediction =
  [ "Predictor name is required"; "Prediction text is required";
    "Predicted date is required"; "Invalid predicted date";
    "Confidence level must be between 1 and 10" ].
Proof. reflexivity. Qed.

(** A prediction form with the [website] honeypot filled is answered 400,
    which is not the 403 of the specification. *)
Lemma honeypot_answered_400 :
  ~ (honeypot_filled_prediction spam_body ->
     rejected_as_bot ListingSpec.seed
       (post_predictions no_date no_url 0 "2026-11-02 00:00:00" ListingSpec.seed
          (Some spam_body))).
Proof.
  intros H. destruct H as [Hst _]; [left; reflexivity|].
  vm_compute in Hst. discriminate.
Qed.

(** C6, on the hardened handler: it inserts without looking the prediction
    up. A second verification of the verified seed prediction 5 is stored
    and answered 200, and a verification of a prediction that does not exist
    fails in the database and is answered 500, not 404. *)
Theorem hardened_verify_does_not_check now :
  (exists db',
     post_verify no_date no_url now "2026-11-02 00:00:00" ListingSpec.seed "5"
       (Some second_verification)
     = (db', Reply 200 [("id", JNum 2);
                        ("message", JStr "Verification added successfully")]) /\
     DB.Verifications.prediction_id <$> DB.verifications db' = [5; 5]) /\
  post_verify no_date no_url now "2026-11-02 00:00:00" ListingSpec.seed "99"
    (Some second_verification)
  = (ListingSpec.seed, Reply 500 [("error", JStr "Failed to add verification")]).
Proof. split; [eexists; split|]; reflexivity. Qed.

Lemma honeypot_rejected_witness :
  post_predictions no_date no_url 0 "2026-11-02 00:00:00" ListingSpec.seed (Some spam_body)
  = (ListingSpec.seed, Reply 400 [("error", JStr "Invalid request")]).
Proof.
  apply (proj1 (honeypot_rejected no_date no_url spam_body)).
  left. reflexivity.
Defined.

End HardenedAppFacts.

Module AppFacts.
Import DB App ValidationSpec ListingSpec AppSpec.

Section Handlers.

Variable compare_string_number : string -> Z -> option comparison.

(** The handler of [index.tsx] checks the prediction before it inserts: an
    unknown prediction is answered 404, a verified one 400, and a
    verification is stored only for a known prediction without one. *)
Lemma index_verify_checks_prediction stamp db predictionId body :
  well_formed_id predictionId ->
  (passes_field_checks compare_string_number body ->
   select_prediction_id db predictionId = None ->
   post_verify compare_string_number stamp db predictionId (Some body)
   = (db, Reply 404 [("error", JStr "Prediction not found")])) /\
  (passes_field_checks compare_string_number body ->
   is_Some (select_prediction_id db predictionId) ->
   is_Some (select_verification_id db predictionId) ->
   post_verify compare_string_number stamp db predictionId (Some body)
   = (db, Reply 400 [("error", JStr "Prediction already verified")])) /\
  ((post_verify compare_string_number stamp db predictionId (Some body)).1 <> db ->
   is_Some (select_prediction_id db predictionId) /\
   select_verification_id db predictionId = None).
Proof.
  intros Hid. unfold post_verify.
  rewrite (HardenedAppFacts.well_formed_id_check _ Hid). cbv zeta.
  split; [|split].
  - intros (-> & -> & -> & -> & Hconf) Hnone. simpl.
    destruct (truthy (prop body "confidence_score")); simpl.
    + destruct (Hconf eq_refl) as [-> ->]. simpl. by rewrite Hnone.
    + by rewrite Hnone.
  - intros (-> & -> & -> & -> & Hconf) [k Hk] [j Hj]. simpl.
    destruct (truthy (prop body "confidence_score")); simpl.
    + destruct (Hconf eq_refl) as [-> ->]. simpl. by rewrite Hk, Hj.
    + by rewrite Hk, Hj.
  - destruct (negb (truthy (prop body "outcome")) || _ || _); [done|].
    destruct (negb (includes validOutcomes _)); [done|].
    destruct (truthy (prop body "confidence_score") && _); [done|].
    destruct (select_prediction_id db predictionId); [|done].
    destruct (select_verification_id db predictionId); [done|].
    intros _. split; [by eexists|done].
Qed.

(** C5, on the handlers of [index.tsx]: a confidence of 0 is falsy, so the range
    check is skipped; the prediction, and the verification of the unverified
    seed prediction 1, are stored with no confidence and answered 200. *)
Theorem index_accepts_confidence_zero :
  (exists db',
     post_predictions compare_string_number "2026-11-02 00:00:00" DB.empty
       (Some zero_confidence)
     = (db', Reply 200 [("id", JNum 1);
                        ("message", JStr "Prediction added successfully")]) /\
     Predictions.confidence_level <$> predictions db' = [SNull]) /\
  (exists db',
     post_verify compare_string_number "2026-11-02 00:00:00" seed "1" (Some zero_score)
     = (db', Reply 200 [("id", JNum 2);
                        ("message", JStr "Verification added successfully")]) /\
     (fun v => (Verifications.prediction_id v, Verifications.confidence_score v))
       <$> verifications db'
     = [(5, SInt 10); (1, SNull)]).
Proof. split; eexists; split; reflexivity. Qed.

(** A confidence that is a text the host reads as no number passes the
    range check as well; the CHECK constraint of the table then fails the
    insert and the answer is 500. *)
Lemma index_non_numeric_confidence stamp db body s :
  truthy (prop body "predictor_name") = true ->
  truthy (prop body "prediction_text") = true ->
  truthy (prop body "predicted_date") = true ->
  prop body "confidence_level" = JStr s ->
  s <> "" ->
  compare_string_number s 1 = None ->
  compare_string_number s 10 = None ->
  sql_integer s = None ->
  post_predictions compare_string_number stamp db (Some body)
  = (db, Reply 500 [("error", JStr "Failed to add prediction")]).
Proof.
  intros Hn Ht Hd Hc Hs H1 H10 Hsql. unfold post_predictions. cbv zeta.
  rewrite Hn, Ht, Hd, Hc. simpl.
  assert (String.eqb s "" = false) as Hs' by by apply String.eqb_neq.
  unfold lt, gt, or_else. simpl. rewrite H1, H10, Hs'. simpl.
  unfold insert_prediction.
  destruct (bind_all _) as [vals|e] eqn:Hb; [|done].
  simpl in Hb.
  repeat match type of Hb with
         | context [DB.bind ?v] => destruct (DB.bind v); try discriminate Hb
         end.
  injection Hb as <-. simpl. rewrite Hsql. simpl.
  by repeat case_match.
Qed.

(** C7, on the handler of [index.tsx]: the dates of a prediction are not looked
    at; a body whose dates are no dates is stored as it is. *)
Theorem index_accepts_any_date :
  exists db',
    post_predictions compare_string_number "2026-11-02 00:00:00" DB.empty (Some undated)
    = (db', Reply 200 [("id", JNum 1); ("message", JStr "Prediction added successfully")]) /\
    (fun p => (Predictions.predicted_date p, Predictions.target_date p))
      <$> predictions db'
    = [(SText "not a date", SText "sooner")].
Proof. eexists. split; reflexivity. Qed.

End Handlers.

End AppFacts.

(** ** Strings *)

Module StringFacts.
Import GuardsSpec.

Lemma rev_app_empty a b : String.rev_app a b = "" -> a = "" /\ b = "".
Proof.
  revert b. induction a as [|c a IH]; intros b H; simpl in H; [done|].
  apply IH in H as [_ H]. discriminate.
Qed.

Lemma all_spaces_rev_app a b :
  all_spaces (String.rev_app a b) = all_spaces a && all_spaces b.
Proof.
  revert b. induction a as [|c a IH]; intros b; simpl; [done|].
  rewrite IH. simpl. by destruct (is_space c), (all_spaces a), (all_spaces b).
Qed.

Lemma trim_start_empty s : trim_start s = "" <-> all_spaces s = true.
Proof.
  induction s as [|c s IH]; simpl; [done|].
  destruct (is_space c); simpl; [done|]. split; discriminate.
Qed.

Lemma trim_start_head s c r : trim_start s = String c r -> is_space c = false.
Proof.
  induction s as [|d s IH]; simpl; [done|].
  destruct (is_space d) eqn:Hd; [done|]. intros H. by simplify_eq.
Qed.

(** [trim] leaves nothing exactly of the texts of white space. *)
Lemma trim_empty s : trim s = "" <-> all_spaces s = true.
Proof.
  unfold trim, String.rev. split.
  - intros H. apply rev_app_empty in H as [H _].
    apply trim_start_empty in H. rewrite all_spaces_rev_app in H.
    apply andb_true_iff in H as [H _].
    destruct (trim_start s) as [|c r] eqn:Hs; [by apply trim_start_empty|].
    apply trim_start_head in Hs. simpl in H. by rewrite Hs in H.
  - intros H. apply trim_start_empty in H. by rewrite H.
Qed.

Lemma is_space_lower c : is_space (lower_char c) = is_space c.
Proof. by destruct c as [[] [] [] [] [] [] [] []]. Qed.

Lemma all_spaces_lower s : all_spaces (lower s) = all_spaces s.
Proof. induction s as [|c s IH]; simpl; [done|]. by rewrite is_space_lower, IH. Qed.

(** A word that starts with a visible character occurs in no text of white
    space. *)
Lemma contains_all_spaces a p s :
  is_space a = false -> all_spaces s = true -> contains (String a p) s = false.
Proof.
  intros Ha. induction s as [|c s IH]; simpl; [done|].
  intros [Hc Hs]%andb_true_iff. rewrite IH by done.
  destruct (Ascii.eqb_spec a c) as [->|]; [congruence|done].
Qed.

End StringFacts.

(** ** The other middleware of the hardened revision *)

Module HardenedGuardsFacts.
Import HardenedGuards GuardsSpec StringFacts.

Lemma bot_patterns_names userAgent :
  existsb (fun pattern => pattern userAgent) BOT_PATTERNS = true <-> names_bot userAgent.
Proof.
  unfold names_bot, BOT_PATTERNS, bot_words, contains_ci. simpl.
  rewrite !orb_true_iff. split.
  - intros H.
    repeat (destruct H as [H | H]; [eexists; split; [|exact H]; simpl; tauto|]).
    done.
  - intros (w & Hw & H). simpl in Hw.
    repeat (destruct Hw as [<- | Hw]; [tauto|]). done.
Qed.

Lemma blank_names_no_bot userAgent : all_spaces userAgent = true -> ~ names_bot userAgent.
Proof.
  intros Hb (w & Hw & H). simpl in Hw.
  rewrite <- all_spaces_lower in Hb.
  repeat (destruct Hw as [<- | Hw];
          [by rewrite contains_all_spaces in H|]).
  done.
Qed.

(** A request the bot detection lets through has a User-Agent that is not
    blank and holds no bot word. *)
Lemma hardened_botDetection_passed h :
  passes (botDetection h) ->
  all_spaces (header_or (User_Agent h) "") = false /\
  ~ names_bot (header_or (User_Agent h) "").
Proof.
  unfold botDetection, passes.
  pose proof (bot_patterns_names (header_or (User_Agent h) "")) as Hbot.
  pose proof (trim_empty (header_or (User_Agent h) "")) as Htrim.
  destruct (existsb _ BOT_PATTERNS); [by intros [? ?]|].
  destruct (String.eqb_spec (trim (header_or (User_Agent h) "")) "") as [He | He];
    [by intros [? ?]|].
  intros _. split.
  - destruct (all_spaces _) eqn:Hb; [|done]. destruct He. by apply Htrim.
  - intros Hn. apply Hbot in Hn. discriminate.
Qed.

(** X1. The bot detection of the hardened revision answers 400 exactly to a
    request whose User-Agent is missing, empty or white space only, 403
    exactly to one whose User-Agent holds one of the eight bot words in any
    letter case, and lets every other request through; the two rejections
    exclude each other, since no bot word occurs in white space. *)
Theorem hardened_botDetection_decides h :
  let userAgent := header_or (User_Agent h) "" in
  (status_of (botDetection h) = Some 400 <-> all_spaces userAgent = true) /\
  (status_of (botDetection h) = Some 403 <-> names_bot userAgent) /\
  (passes (botDetection h) <-> all_spaces userAgent = false /\ ~ names_bot userAgent).
Proof.
  intros userAgent. unfold botDetection, passes. fold userAgent.
  pose proof (bot_patterns_names userAgent) as Hbot.
  pose proof (trim_empty userAgent) as Htrim.
  pose proof (blank_names_no_bot userAgent) as Hex.
  assert (all_spaces userAgent = true \/ all_spaces userAgent = false) as Hcases
    by (destruct (all_spaces userAgent); tauto).
  destruct (existsb _ BOT_PATTERNS) eqn:Hp;
    [assert (names_bot userAgent) as Hn by (by apply Hbot)
    |assert (~ names_bot userAgent) as Hn
       by (intros H; apply Hbot in H; discriminate);
     destruct (String.eqb_spec (trim userAgent) "") as [He | He]];
    simpl;
    (split; [|split]); split; intros H;
    try discriminate; try reflexivity; try tauto; try congruence;
    try (destruct H as [? H]; discriminate); try (by eexists).
  destruct H as [Hb _]. apply Htrim in He. congruence.
Qed.

(** X2. Both revisions of the size limit read the Content-Length header as
    a number: when it is the decimal numeral of [n], the request is answered
    413 if [n] exceeds the limit and is let through otherwise. *)
Theorem requestSizeLimit_numeral maxSize n h c :
  Content_Length h = Some (pretty n) ->
  Security.headers c = h ->
  (maxSize < n ->
     status_of (requestSizeLimit maxSize h) = Some 413 /\
     status_of (Guards.requestSizeLimit maxSize c) = Some 413) /\
  (n <= maxSize ->
     passes (requestSizeLimit maxSize h) /\ passes (Guards.requestSizeLimit maxSize c)).
Proof.
  intros Hh Hc. unfold requestSizeLimit, Guards.requestSizeLimit, passes.
  rewrite Hc, Hh.
  pose proof (JSFacts.parseInt_JNum n) as Hn. unfold parseInt in Hn. simpl in Hn.
  rewrite Hn.
  assert (String.eqb (pretty n) "" = false) as ->.
  { apply String.eqb_neq. intros E. rewrite E in Hn. discriminate. }
  simpl. split; intros Hlt.
  - apply Z.ltb_lt in Hlt. by rewrite Hlt.
  - apply Z.ltb_ge in Hlt. rewrite Hlt. split; by eexists.
Qed.

Lemma requestSizeLimit_numeral_witness :
  status_of (requestSizeLimit (100 * 1024) (sized (pretty 204800))) = Some 413 /\
  passes (requestSizeLimit (100 * 1024) (sized (pretty 512))).
Proof.
  split.
  - apply (requestSizeLimit_numeral (100 * 1024) 204800 (sized (pretty 204800))
             {| Security.method := "POST"; Security.headers := sized (pretty 204800);
                Security.cf := None; Security.body := None |});
      [reflexivity | reflexivity | lia].
  - apply (requestSizeLimit_numeral (100 * 1024) 512 (sized (pretty 512))
             {| Security.method := "POST"; Security.headers := sized (pretty 512);
                Security.cf := None; Security.body := None |});
      [reflexivity | reflexivity | lia].
Defined.

End HardenedGuardsFacts.

(** ** [security.ts]: the input scan, the CAPTCHA middleware, the address
    filter and the behaviour analysis *)

Module GuardsFacts.
Import Security Guards GuardsSpec ScanSpec BehaviorSpec.

(** Induction on a JSON value, with the property granted for the elements
    of an array and the values of an object. *)
Lemma jsval_nested_ind (P : jsval -> Prop) :
  P JUndefined -> P JNull -> (forall b, P (JBool b)) -> (forall n, P (JNum n)) ->
  (forall s, P (JStr s)) ->
  (forall l, Forall P l -> P (JArr l)) ->
  (forall fields, Forall (fun kv => P (snd kv)) fields -> P (JObj fields)) ->
  forall v, P v.
Proof.
  intros Hu Hn Hb Hz Hs Harr Hobj. fix IH 1.
  intros [ | | b | n | s | l | fields];
    [exact Hu | exact Hn | apply Hb | apply Hz | apply Hs | |].
  - apply Harr. induction l as [|x l IHl]; constructor; [apply IH | exact IHl].
  - apply Hobj. induction fields as [|[k x] fields IHf]; constructor;
      [apply IH | exact IHf].
Qed.

(** [checkValue] finds a dangerous string wherever the value holds one. *)
Lemma checkValue_holds v :
  checkValue v = true <-> exists s, holds_string s v /\ dangerous s = true.
Proof.
  induction v as [ | | b | n | s | l IH | fields IH] using jsval_nested_ind;
    try (split; [discriminate | intros (s & Hs & _); inversion Hs]).
  - simpl. split.
    + intros H. exists s. split; [constructor | done].
    + intros (t & Ht & Hd). by inversion Ht; subst.
  - simpl. induction l as [|x l IHl].
    + split; [discriminate|]. intros (s & Hs & _). inversion Hs; subst. done.
    + apply Forall_cons in IH as [Hx Hl]. specialize (IHl Hl).
      rewrite orb_true_iff, Hx, IHl. split.
      * intros [(s & Hs & Hd) | (s & Hs & Hd)].
        -- exists s. split; [|done]. apply holds_element with x; [by left | done].
        -- exists s. split; [|done]. inversion Hs; subst.
           apply holds_element with v; [by right | done].
      * intros (s & Hs & Hd). inversion Hs as [|? v Hin Hv|]; subst.
        destruct Hin as [-> | Hin]; [left | right]; exists s; split; try done.
        by apply holds_element with v.
  - simpl. induction fields as [|[k x] fields IHf].
    + split; [discriminate|]. intros (s & Hs & _). inversion Hs; subst. done.
    + apply Forall_cons in IH as [Hx Hl]. specialize (IHf Hl). simpl in Hx.
      rewrite orb_true_iff, Hx, IHf. split.
      * intros [(s & Hs & Hd) | (s & Hs & Hd)].
        -- exists s. split; [|done]. apply holds_property with k x; [by left | done].
        -- exists s. split; [|done]. inversion Hs; subst.
           eapply holds_property; [right; eassumption | done].
      * intros (s & Hs & Hd). inversion Hs as [| |? k' v Hin Hv]; subst.
        destruct Hin as [[= -> ->] | Hin]; [left | right]; exists s; split; try done.
        by eapply holds_property.
Qed.

Lemma length_error_limit key s :
  length_error key (JStr s) = None <-> (String.length s <= limit_of key)%nat.
Proof.
  unfold length_error, limit_of.
  destruct (String.eqb key "prediction_text") eqn:E1;
    [apply String.eqb_eq in E1 as ->; simpl|];
    [|destruct (String.eqb key "outcome_description") eqn:E2;
      [apply String.eqb_eq in E2 as ->; simpl|];
      [|destruct (String.eqb key "predictor_name") eqn:E3;
        [apply String.eqb_eq in E3 as ->; simpl|]]];
    simpl;
    repeat match goal with
           | |- context [(?a <? ?b)%nat] => destruct (Nat.ltb_spec a b)
           end;
    split; intros; try done; try lia.
Qed.

Lemma first_error_none es :
  first_error es = None <->
  forall k s, In (k, JStr s) es -> (String.length s <= limit_of k)%nat.
Proof.
  induction es as [|[k v] es IH]; simpl.
  - split; [intros _ ? ? []|done].
  - destruct (length_error k v) as [m|] eqn:E.
    + split; [done|]. intros H. destruct v; try done.
      assert (length_error k (JStr s) = None) as E'
        by (apply length_error_limit, H; by left).
      congruence.
    + rewrite IH. split.
      * intros H k' s [[= -> ->] | Hin]; [by apply length_error_limit | by apply H].
      * intros H k' s Hin. apply H. by right.
Qed.

(** A POST the scan lets through has a body that parsed and holds no
    dangerous string. *)
Lemma validateInput_passed c parsed :
  method c = "POST" ->
  passes (validateInput c parsed) ->
  exists body, parsed = Normal body /\
    forall s, holds_string s body -> dangerous s = false.
Proof.
  intros Hm. unfold validateInput, passes. rewrite Hm. simpl.
  destruct parsed as [body | e]; [|by intros [? ?]].
  pose proof (checkValue_holds body) as Hc.
  destruct (checkValue body); [by intros [? ?]|].
  intros _. exists body. split; [done|].
  intros s Hs. destruct (dangerous s) eqn:Hd; [|done].
  assert (false = true) by (apply Hc; eauto). done.
Qed.

(** X3. The input scan of [security.ts] lets a POST through exactly when its
    body parses, no string it holds at any depth of arrays and objects
    matches a dangerous pattern, and every string directly under a key is
    within the length allowed for that key; strings further down are
    scanned for patterns but not measured. *)
Theorem validateInput_scan c parsed :
  method c = "POST" ->
  passes (validateInput c parsed) <->
  exists body es,
    parsed = Normal body /\
    (forall s, holds_string s body -> dangerous s = false) /\
    entries body = Normal es /\
    (forall k s, In (k, JStr s) es -> (String.length s <= limit_of k)%nat).
Proof.
  intros Hm. unfold validateInput, passes. rewrite Hm. simpl.
  destruct parsed as [body | e].
  - pose proof (checkValue_holds body) as Hc.
    destruct (checkValue body) eqn:Hcv.
    + split; [by intros [? ?]|]. intros (b & es & [= <-] & Hd & _).
      destruct (proj1 Hc eq_refl) as (s & Hs & Hds). rewrite Hd in Hds; done.
    + assert (forall s, holds_string s body -> dangerous s = false) as Hsafe.
      { intros s Hs. destruct (dangerous s) eqn:Hd; [|done].
        assert (false = true) by (apply Hc; eauto). done. }
      destruct (entries body) as [es | e] eqn:He.
      * pose proof (first_error_none es) as Hf.
        destruct (first_error es) as [m|].
        -- split; [by intros [? ?]|]. intros (b & es' & [= <-] & _ & Hes & Hl).
           rewrite He in Hes. injection Hes as <-. by apply Hf in Hl.
        -- split; [|by eexists]. intros _. exists body, es.
           repeat split; try done. by apply Hf.
      * split; [by intros [? ?]|]. intros (b & es' & [= <-] & _ & Hes & _).
        congruence.
  - split; [by intros [? ?]|]. by intros (b & es & ? & _).
Qed.

Lemma validateInput_scan_witness :
  passes (validateInput (post None) (Normal plain_form)) <->
  exists body es,
    Normal plain_form = Normal body /\
    (forall s, holds_string s body -> dangerous s = false) /\
    entries body = Normal es /\
    (forall k s, In (k, JStr s) es -> (String.length s <= limit_of k)%nat).
Proof. apply (validateInput_scan (post None) (Normal plain_form)). reflexivity. Defined.



Lemma existsb_eqb_In x l : existsb (String.eqb x) l = true <-> In x l.
Proof.
  rewrite existsb_exists. split.
  - intros (y & Hy & ->%String.eqb_eq). done.
  - intros H. exists x. by rewrite String.eqb_refl.
Qed.

(** X5. The address filter of [security.ts]: a request that carries no
    client address (no Cloudflare address, no forwarding header) passes
    both lists; a blacklisted address is rejected even when it is on the
    whitelist; and a request with an address passes exactly when the
    address is not blacklisted and is on the whitelist, if one with
    entries is given. *)
Theorem ipFilter_decides whitelist blacklist c :
  let clientIP := filter_address c in
  (clientIP = "" -> passes (ipFilter whitelist blacklist c)) /\
  (forall l, blacklist = Some l -> clientIP <> "" -> In clientIP l ->
     status_of (ipFilter whitelist blacklist c) = Some 403) /\
  (clientIP <> "" ->
     (passes (ipFilter whitelist blacklist c) <->
      (forall l, blacklist = Some l -> ~ In clientIP l) /\
      (forall l, whitelist = Some l -> l <> [] -> In clientIP l))).
Proof.
  intros clientIP. unfold ipFilter, passes. fold clientIP.
  split; [|split].
  - intros ->. simpl. destruct blacklist, whitelist; simpl;
      rewrite ?andb_false_r; simpl; by eexists.
  - intros l -> Hne Hin. apply String.eqb_neq in Hne. rewrite Hne. simpl.
    apply existsb_eqb_In in Hin. by rewrite Hin.
  - intros Hne. apply String.eqb_neq in Hne. rewrite Hne. simpl.
    destruct blacklist as [bl|]; [destruct (existsb (String.eqb clientIP) bl) eqn:Hb|];
      simpl.
    + split; [by intros [? ?]|]. intros [H _].
      destruct (H bl eq_refl). by apply existsb_eqb_In.
    + assert (~ In clientIP bl) as Hnb.
      { intros H. apply existsb_eqb_In in H. congruence. }
      destruct whitelist as [wl|]; simpl.
      * destruct wl as [|w wl]; simpl; [split; [|by eexists]; intros _; split;
                                         [by intros ? [= <-] | by intros ? [= <-]]|].
        destruct (existsb (String.eqb clientIP) (w :: wl)) eqn:Hw; simpl in *;
          rewrite Hw; simpl.
        -- split; [|by eexists]. intros _. split; [by intros ? [= <-]|].
           intros ? [= <-] _. by apply (existsb_eqb_In clientIP (w :: wl)).
        -- split; [by intros [? ?]|]. intros [_ H].
           specialize (H (w :: wl) eq_refl). 
           assert (In clientIP (w :: wl)) as Hin by (by apply H).
           apply (existsb_eqb_In clientIP (w :: wl)) in Hin. simpl in Hin. congruence.
      * split; [|by eexists]. intros _. split; [by intros ? [= <-] | done].
    + destruct whitelist as [wl|]; simpl.
      * destruct wl as [|w wl]; simpl; [split; [|by eexists]; intros _; split;
                                         [done | by intros ? [= <-]]|].
        destruct (existsb (String.eqb clientIP) (w :: wl)) eqn:Hw; simpl in *;
          rewrite Hw; simpl.
        -- split; [|by eexists]. intros _. split; [done|].
           intros ? [= <-] _. by apply (existsb_eqb_In clientIP (w :: wl)).
        -- split; [by intros [? ?]|]. intros [_ H].
           assert (In clientIP (w :: wl)) as Hin by (by apply H).
           apply (existsb_eqb_In clientIP (w :: wl)) in Hin. simpl in Hin. congruence.
      * split; [|by eexists]. by intros _.
Qed.

Lemma length_filter_le {A} (f : A -> bool) l :
  (length (List.filter f l) <= length l)%nat.
Proof. induction l as [|x l IH]; simpl; [lia|]. destruct (f x); simpl; lia. Qed.

Lemma filter_full {A} (f : A -> bool) l :
  length (List.filter f l) = length l -> Forall (fun x => f x = true) l.
Proof.
  induction l as [|x l IH]; simpl; [constructor|].
  pose proof (length_filter_le f l) as Hle.
  destruct (f x) eqn:Hx; simpl; intros H; [|lia].
  constructor; [done|]. apply IH. lia.
Qed.

Lemma length_last_n {A} n (l : list A) : (length (last_n n l) <= n)%nat.
Proof. unfold last_n. rewrite List.length_skipn. lia. Qed.

Lemma length_last_n_full {A} n (l : list A) :
  length (last_n n l) = n -> (n <= length l)%nat.
Proof. unfold last_n. rewrite List.length_skipn. lia. Qed.

(** An action starts with [POST] only when the method does. *)
Lemma action_starts_with_POST m path :
  starts_with "POST" (m +:+ " " +:+ path) = true -> starts_with "POST" m = true.
Proof.
  destruct m as [|a [|b [|c [|d r]]]]; simpl; try done;
    repeat match goal with
           | |- context [Ascii.eqb ?x ?y] => destruct (Ascii.eqb x y); try done
           end.
Qed.

(** X6. The behaviour analysis records every request before it decides: the
    client's record ends with this request and its time, holds at most
    eleven actions and only times of the last five minutes, and no other
    client's record is touched; nothing in the store is ever deleted. *)
Theorem behaviorAnalysis_records c path now store :
  let result := behaviorAnalysis c path now store in
  (exists a, result.1 !! activity_key c = Some a /\
     last (actions a) = Some (method c +:+ " " +:+ path) /\
     (length (actions a) <= 11)%nat /\
     last (timestamps a) = Some now /\
     Forall (fun t => now - 300000 < t) (timestamps a)) /\
  (forall k, k <> activity_key c -> result.1 !! k = store !! k) /\
  (forall k, is_Some (store !! k) -> is_Some (result.1 !! k)).
Proof.
  intros result. subst result. unfold behaviorAnalysis. cbv zeta.
  set (a := {| actions := _; timestamps := _ |}).
  assert (forall o : outcome,
            ((<[activity_key c := a]> store, o).1 : Activities)
            = <[activity_key c := a]> store) as Hfst by done.
  repeat match goal with
         | |- context [if ?b then _ else _] => destruct b
         end;
    rewrite Hfst;
    (split; [|split]);
    try (intros k Hk; by rewrite lookup_insert_ne);
    try (intros k Hk; destruct (decide (k = activity_key c)) as [->|];
         [rewrite lookup_insert_eq; by eexists | by rewrite lookup_insert_ne]);
    (exists a; split; [apply lookup_insert_eq|]; subst a; simpl;
     split; [apply last_snoc|];
     split; [rewrite length_app; pose proof (length_last_n 10 (actions (default
               {| actions := []; timestamps := [] |} (store !! activity_key c))));
             simpl; lia|];
     split; [apply last_snoc|];
     apply Forall_app; split;
     [apply List.Forall_forall; intros t [_ Ht%Z.ltb_lt]%List.filter_In; lia
     |constructor; [lia | constructor]]).
Qed.

(** X7. The behaviour analysis rejects on the client's history only. It
    answers [Suspicious activity detected] only when the record already
    held at least thirty requests of the last five minutes; it answers
    [Too many submissions] only to a POST whose record held at least ten
    actions, the last ten of them POSTs; and a client without a record
    passes. *)
Theorem behaviorAnalysis_rejections c path now store :
  let result := behaviorAnalysis c path now store in
  let before := on_record store c in
  (error_of result.2 = Some (JStr "Suspicious activity detected") ->
     (30 <= length (List.filter (fun t => (now - 300000 <? t)%Z) (timestamps before)))%nat) /\
  (error_of result.2 = Some (JStr "Too many submissions") ->
     starts_with "POST" (method c) = true /\
     (10 <= length (actions before))%nat /\
     Forall (fun action => starts_with "POST" action = true)
       (last_n 10 (actions before))) /\
  (store !! activity_key c = None -> passes result.2).
Proof.
  intros result before. subst result. unfold behaviorAnalysis. cbv zeta.
  fold (on_record store c). fold before.
  change (5 * 60 * 1000) with 300000.
  set (recent := List.filter (fun t => now - 300000 <? t) (timestamps before)).
  set (acts := last_n 10 (actions before) ++ [method c +:+ " " +:+ path]).
  simpl actions. simpl timestamps.
  pose proof (length_last_n 10 (actions before)) as Hlen.
  destruct ((30 <? length (recent ++ [now]))%nat && _) eqn:Hrule1.
  - simpl. split; [|split]; [|discriminate|].
    + intros _. apply andb_true_iff in Hrule1 as [H _].
      apply Nat.ltb_lt in H. rewrite length_app in H. simpl in H. lia.
    + intros Hnone. apply andb_true_iff in Hrule1 as [H _].
      apply Nat.ltb_lt in H. subst recent before. unfold on_record in H.
      rewrite Hnone in H. simpl in H. lia.
  - destruct ((10 <? length (List.filter (starts_with "POST") acts))%nat) eqn:Hrule2.
    + simpl. split; [discriminate|]. apply Nat.ltb_lt in Hrule2.
      pose proof (length_filter_le (starts_with "POST") acts) as Hle.
      assert (length acts = 11%nat /\ length (last_n 10 (actions before)) = 10%nat)
        as [Hacts Hten].
      { subst acts. rewrite length_app in *. simpl in *. lia. }
      assert (Forall (fun x => starts_with "POST" x = true) acts) as Hall
        by (apply filter_full; lia).
      subst acts. apply Forall_app in Hall as [Hold Hnew].
      split.
      * intros _. split; [|split].
        -- apply Forall_inv in Hnew. by apply action_starts_with_POST in Hnew.
        -- by apply length_last_n_full.
        -- done.
      * intros Hnone. subst before. unfold on_record in Hten.
        rewrite Hnone in Hten. discriminate.
    + simpl. split; [discriminate|]. split; [discriminate|]. intros _. by eexists.
Qed.

End GuardsFacts.

(** ** The hardened rate limiter along a run, and its cleanup *)

Module QuotaFacts.
Import Hardened HardenedSpec HardenedFacts GuardsSpec QuotaSpec.

Lemma cleanup_lookup t (store : Store) key :
  cleanupRateLimit t store !! key =
  match store !! key with
  | Some e => if stale t e then None else Some e
  | None => None
  end.
Proof.
  unfold cleanupRateLimit.
  destruct (store !! key) as [e|] eqn:He.
  - destruct (stale t e) eqn:Hs.
    + apply map_lookup_filter_None. right. intros e' He'. simpl. congruence.
    + apply map_lookup_filter_Some. done.
  - apply map_lookup_filter_None. by left.
Qed.

(** X8. The cleanup forgets a client whose window began more than two
    minutes before, blocked or not: a request that runs the cleanup then
    finds no entry, starts a window with count 1 and is let through. A block
    of fifteen minutes, set within a minute of the window's start, is
    therefore lifted by the first such request. *)
Theorem cleanup_forgets_old_window endpoint h now t store e :
  let result := rateLimiter endpoint h now (Some t) store in
  store !! key_of endpoint h = Some e ->
  WINDOW_MS * 2 < t - windowStart e ->
  passes result.2 /\ result.1 !! key_of endpoint h = Some (fresh_entry now).
Proof.
  intros result He Hold. subst result. unfold rateLimiter, after_cleanup.
  rewrite cleanup_lookup, He.
  assert (stale t e = true) as ->.
  { unfold stale. destruct (block_expired t e); [done|]. by apply Z.ltb_lt. }
  simpl. destruct (config_for_bounds endpoint) as [_ [Hmax _]].
  assert ((max (config_for endpoint) <? 1) = false) as -> by (apply Z.ltb_ge; lia).
  simpl. split; [by eexists|]. apply lookup_insert_eq.
Qed.

Lemma cleanup_forgets_old_window_witness :
  passes (rateLimiter (Some "/api/predictions") no_headers 180000 (Some 180000)
            blocked_store).2 /\
  (rateLimiter (Some "/api/predictions") no_headers 180000 (Some 180000)
     blocked_store).1 !! key_of (Some "/api/predictions") no_headers
  = Some (fresh_entry 180000).
Proof.
  apply (cleanup_forgets_old_window (Some "/api/predictions") no_headers 180000 180000
           blocked_store
           {| count := 101; windowStart := 0; blocked := Some true;
              blockUntil := Some (30000 + BLOCK_DURATION) |}).
  - reflexivity.
  - reflexivity.
Defined.

(** X9. For a client that was never blocked the cleanup cannot be observed:
    whether or not a request runs it, the answer and the client's entry
    afterwards are the same, provided the cleanup reads the clock at most
    a window after the request did. *)
Theorem cleanup_unobservable endpoint h now t store :
  unblocked store (key_of endpoint h) ->
  t - now <= WINDOW_MS ->
  (rateLimiter endpoint h now (Some t) store).2
    = (rateLimiter endpoint h now None store).2 /\
  (rateLimiter endpoint h now (Some t) store).1 !! key_of endpoint h
    = (rateLimiter endpoint h now None store).1 !! key_of endpoint h.
Proof.
  intros Hfree Ht.
  destruct (config_for_bounds endpoint) as [Hw [Hmax _]].
  unfold rateLimiter, after_cleanup. rewrite cleanup_lookup.
  destruct (store !! key_of endpoint h) as [e|] eqn:He; [|simpl].
  - specialize (Hfree e He).
    assert (active_block now (Some e) = None) as Hnb.
    { unfold active_block. rewrite Hfree. by destruct (blocked e) as [[|]|]. }
    destruct (stale t e) eqn:Hst.
    + unfold stale, block_expired in Hst. rewrite Hfree in Hst.
      apply Z.ltb_lt in Hst. unfold WINDOW_MS in *.
      rewrite Hnb. simpl active_block. cbv zeta.
      assert (bump now (config_for endpoint) (Some e) = bump now (config_for endpoint) None)
        as ->.
      { unfold bump. rewrite Hw.
        assert ((60000 <? now - windowStart e) = true) as -> by (apply Z.ltb_lt; lia).
        done. }
      repeat match goal with
             | |- context [if ?b then _ else _] => destruct b
             end;
        simpl; rewrite ?lookup_insert_eq; done.
    + rewrite Hnb. cbv zeta.
      repeat match goal with
             | |- context [if ?b then _ else _] => destruct b
             end;
        simpl; rewrite ?lookup_insert_eq; done.
  - cbv zeta.
    repeat match goal with
           | |- context [if ?b then _ else _] => destruct b
           end;
      simpl; rewrite ?lookup_insert_eq; done.
Qed.

Lemma cleanup_unobservable_witness :
  (rateLimiter (Some "/api/predictions") no_headers 200000 (Some 200001) full_store).2
    = (rateLimiter (Some "/api/predictions") no_headers 200000 None full_store).2 /\
  (rateLimiter (Some "/api/predictions") no_headers 200000 (Some 200001) full_store).1
    !! key_of (Some "/api/predictions") no_headers
    = (rateLimiter (Some "/api/predictions") no_headers 200000 None full_store).1
    !! key_of (Some "/api/predictions") no_headers.
Proof.
  apply (cleanup_unobservable (Some "/api/predictions") no_headers 200000 200001
           full_store).
  - intros e He. vm_compute in He. by injection He as <-.
  - vm_compute. discriminate.
Defined.

Lemma quota_step endpoint h t0 j now cleanup store :
  0 <= t0 -> 0 <= j ->
  t0 <= now <= t0 + WINDOW_MS ->
  (forall t, cleanup = Some t -> t <= t0 + WINDOW_MS * 2) ->
  entry_after t0 j (store !! key_of endpoint h) ->
  let result := rateLimiter endpoint h now cleanup store in
  entry_after t0 (j + 1) (result.1 !! key_of endpoint h) /\
  (j < max (config_for endpoint) -> passes result.2) /\
  (max (config_for endpoint) <= j -> status_of result.2 = Some 429).
Proof.
  intros Ht0 Hj Hnow Hclean Hinv result. subst result.
  destruct (config_for_bounds endpoint) as [Hw [Hmax Hsus]].
  unfold entry_after, WINDOW_MS, SUSPICIOUS_THRESHOLD, BLOCK_DURATION in *.
  assert ((j + 1 =? 0) = false) as -> by (apply Z.eqb_neq; lia).
  unfold rateLimiter, SUSPICIOUS_THRESHOLD, BLOCK_DURATION.
  assert (after_cleanup cleanup store !! key_of endpoint h = store !! key_of endpoint h)
    as Hkept.
  { destruct cleanup as [t|]; [|done]. simpl. rewrite cleanup_lookup.
    specialize (Hclean t eq_refl).
    destruct (j =? 0); [by rewrite Hinv|].
    destruct Hinv as (e & -> & Hws & Hcase).
    assert (stale t e = false) as ->; [|done].
    unfold stale, block_expired, WINDOW_MS.
    destruct Hcase as [(_ & _ & ->) | (_ & _ & b & -> & Hb)].
    - apply Z.ltb_ge. lia.
    - assert ((b <? t) = false) as -> by (apply Z.ltb_ge; lia).
      rewrite andb_false_r. apply Z.ltb_ge. lia. }
  rewrite Hkept.
  destruct (Z.eqb_spec j 0) as [-> | Hj0].
  - rewrite Hinv. simpl.
    assert ((max (config_for endpoint) <? 1) = false) as -> by (apply Z.ltb_ge; lia).
    simpl. split; [|split; [intros _; by eexists | lia]].
    eexists. split; [apply lookup_insert_eq|]. simpl. split; [lia|]. left. done.
  - destruct Hinv as (e & He & Hws & Hcase). rewrite He.
    destruct Hcase as [(Hle & Hcount & Hnone) | (Hgt & Hblocked & b & Hb & Hlong)].
    + assert (active_block now (Some e) = None) as ->.
      { unfold active_block. rewrite Hnone. by destruct (blocked e) as [[|]|]. }
      cbv zeta. unfold bump. rewrite Hw.
      assert ((60000 <? now - windowStart e) = false) as -> by (apply Z.ltb_ge; lia).
      simpl count. simpl windowStart. rewrite Hcount.
      destruct (Z.ltb_spec (max (config_for endpoint)) (j + 1)) as [Hover | Hin].
      * destruct (Z.ltb_spec 100 (j + 1)) as [Hblock | Hfree]; simpl.
        -- split; [|split; [lia | done]].
           eexists. split; [apply lookup_insert_eq|]. simpl. split; [lia|]. right.
           split; [lia|]. split; [done|]. eexists. split; [done|]. lia.
        -- split; [|split; [lia | done]].
           eexists. split; [apply lookup_insert_eq|]. simpl. split; [lia|]. left.
           split; [lia|]. done.
      * simpl. split; [|split; [intros _; by eexists | lia]].
        eexists. split; [apply lookup_insert_eq|]. simpl. split; [lia|]. left.
        split; [lia|]. done.
    + assert (active_block now (Some e) = Some b) as ->.
      { apply active_block_Some. exists e. repeat split; try done; lia. }
      simpl. rewrite Hkept, He. split; [|split; [lia | done]].
      exists e. split; [done|]. split; [lia|]. right. split; [lia|].
      split; [done|]. eauto.
Qed.

Lemma quota_run endpoint h t0 requests :
  0 <= t0 ->
  (forall now cleanup, In (now, cleanup) requests ->
     t0 <= now <= t0 + WINDOW_MS /\
     forall t, cleanup = Some t -> t <= t0 + WINDOW_MS * 2) ->
  forall store j, 0 <= j ->
    entry_after t0 j (store !! key_of endpoint h) ->
    forall i o, serve endpoint h requests store !! i = Some o ->
      (j + Z.of_nat i < max (config_for endpoint) -> passes o) /\
      (max (config_for endpoint) <= j + Z.of_nat i -> status_of o = Some 429).
Proof.
  intros Ht0.
  induction requests as [|[now cleanup] rest IH]; intros Hreqs store j Hj Hinv i o Hi;
    [done|].
  simpl in Hi.
  destruct (Hreqs now cleanup (or_introl eq_refl)) as [Hnow Hclean].
  destruct (quota_step endpoint h t0 j now cleanup store Ht0 Hj Hnow Hclean Hinv)
    as [Hinv' Hpass].
  destruct i as [|i]; simpl in Hi.
  - injection Hi as <-. by rewrite Z.add_0_r.
  - assert (0 <= j + 1) as Hj' by lia.
    assert (forall now cleanup, In (now, cleanup) rest ->
              t0 <= now <= t0 + WINDOW_MS /\
              forall t, cleanup = Some t -> t <= t0 + WINDOW_MS * 2) as Hrest
      by (intros ? ? ?; apply Hreqs; by right).
    specialize (IH Hrest _ (j + 1) Hj' Hinv' i o Hi).
    replace (j + Z.of_nat (S i)) with (j + 1 + Z.of_nat i) by lia. done.
Qed.

(** X10. A window of the hardened limiter lets through its ceiling and no
    more: of the requests a new client sends to an endpoint within one
    window, the first [max] are let through and every later one is answered
    429, whichever of them run the cleanup; past the hundredth the client
    is blocked, and the answers stay 429. *)
Theorem window_quota endpoint h t0 requests store :
  store !! key_of endpoint h = None ->
  0 <= t0 ->
  (forall now cleanup, In (now, cleanup) requests ->
     t0 <= now <= t0 + WINDOW_MS /\
     forall t, cleanup = Some t -> t <= t0 + WINDOW_MS * 2) ->
  forall i o, serve endpoint h requests store !! i = Some o ->
    (Z.of_nat i < max (config_for endpoint) -> passes o) /\
    (max (config_for endpoint) <= Z.of_nat i -> status_of o = Some 429).
Proof.
  intros Hnew Ht0 Hreqs i o Hi.
  assert (0 <= 0) as Hj by lia.
  pose proof (quota_run endpoint h t0 requests Ht0 Hreqs store 0 Hj Hnew i o Hi) as H.
  by rewrite Z.add_0_l in H.
Qed.

Lemma window_quota_witness :
  let requests :=
    [(1000, None); (2000, Some 2001); (3000, None); (4000, None); (5000, None);
     (6000, None); (7000, Some 7001)] in
  exists o5 o6,
    serve (Some "/api/predictions") no_headers requests ∅ !! 4%nat = Some o5 /\
    serve (Some "/api/predictions") no_headers requests ∅ !! 5%nat = Some o6 /\
    passes o5 /\ status_of o6 = Some 429.
Proof.
  intros requests.
  assert (forall i o,
            serve (Some "/api/predictions") no_headers requests ∅ !! i = Some o ->
            (Z.of_nat i < max (config_for (Some "/api/predictions")) -> passes o) /\
            (max (config_for (Some "/api/predictions")) <= Z.of_nat i ->
             status_of o = Some 429)) as H.
  { apply (window_quota (Some "/api/predictions") no_headers 1000).
    - reflexivity.
    - lia.
    - intros now cleanup Hin. simpl in Hin.
      repeat (destruct Hin as [[= <- <-] | Hin];
              [unfold WINDOW_MS; split; [lia | intros t [= <-]; lia]|]).
      done. }
  eexists _, _. split; [reflexivity|]. split; [reflexivity|]. split.
  - apply (H 4%nat); [reflexivity | simpl; lia].
  - apply (H 5%nat); [reflexivity | simpl; lia].
Defined.

End QuotaFacts.

(** ** Escaping, on the server and in the page *)

Module EscapeFacts.
Import Hardened Client EscapeSpec.

Lemma append_cons x (a b : string) : String x a +:+ b = String x (a +:+ b).
Proof. reflexivity. Qed.

Lemma append_assoc (a b c : string) : (a +:+ b) +:+ c = a +:+ (b +:+ c).
Proof.
  induction a as [|x a IH]; [done|]. by rewrite !append_cons, IH.
Qed.

Lemma length_append (a b : string) :
  String.length (a +:+ b) = (String.length a + String.length b)%nat.
Proof.
  induction a as [|x a IH]; [done|]. rewrite append_cons. simpl. by rewrite IH.
Qed.

Lemma has_append f (a b : string) : has f (a +:+ b) = has f a || has f b.
Proof.
  induction a as [|x a IH]; [done|].
  rewrite append_cons. simpl. by rewrite IH, orb_assoc.
Qed.

Lemma replace_char_append c by_ (a b : string) :
  replace_char c by_ (a +:+ b) = replace_char c by_ a +:+ replace_char c by_ b.
Proof.
  induction a as [|x a IH]; [done|].
  rewrite append_cons. simpl.
  destruct (Ascii.eqb c x); by rewrite IH, ?append_assoc, ?append_cons.
Qed.

Lemma escape_html_append (a b : string) :
  escape_html (a +:+ b) = escape_html a +:+ escape_html b.
Proof. unfold escape_html. by rewrite !replace_char_append. Qed.

(** The five passes of the server do to one character what the [map] of the
    page does: an entity is not touched by the passes that follow the one
    that wrote it. *)
Lemma escape_html_char c :
  escape_html (String c "") = from_option id (String c "") (entity c).
Proof. by destruct c as [[] [] [] [] [] [] [] []]. Qed.

Lemma entity_cases c :
  match entity c with
  | Some e => special c = true /\ has markup e = false /\ has special e = true /\
              (4 <= String.length e <= 6)%nat
  | None => special c = false
  end.
Proof. destruct c as [[] [] [] [] [] [] [] []]; simpl; repeat split; lia. Qed.

Lemma replace_entities_escape_html s : replace_entities s = escape_html s.
Proof.
  induction s as [|c s IH]; [done|].
  change (String c s) with (String c "" +:+ s) at 2.
  rewrite escape_html_append, escape_html_char, <- IH. simpl.
  by destruct (entity c).
Qed.

Lemma markup_special c : special c = false -> markup c = false.
Proof. unfold special. by intros [_ ?]%orb_false_iff. Qed.

Lemma replace_entities_no_markup s : has markup (replace_entities s) = false.
Proof.
  induction s as [|c s IH]; simpl; [done|].
  pose proof (entity_cases c) as Hc.
  destruct (entity c) as [e|].
  - destruct Hc as (_ & He & _). by rewrite has_append, He, IH.
  - simpl. by rewrite (markup_special c Hc), IH.
Qed.

Lemma replace_entities_length s :
  (String.length s <= String.length (replace_entities s) <= 6 * String.length s)%nat.
Proof.
  induction s as [|c s IH]; simpl; [lia|].
  pose proof (entity_cases c) as Hc.
  destruct (entity c) as [e|].
  - destruct Hc as (_ & _ & _ & He). rewrite length_append. lia.
  - simpl. lia.
Qed.

Lemma replace_entities_plain s : has special s = false -> replace_entities s = s.
Proof.
  induction s as [|c s IH]; simpl; [done|].
  intros [Hc Hs]%orb_false_iff.
  pose proof (entity_cases c) as He.
  destruct (entity c) as [e|]; [destruct He as [He _]; congruence|].
  by rewrite IH.
Qed.

Lemma replace_entities_grows s :
  has special s = true ->
  (String.length s < String.length (replace_entities s))%nat /\
  has special (replace_entities s) = true.
Proof.
  induction s as [|c s IH]; simpl; [done|].
  pose proof (entity_cases c) as He.
  pose proof (replace_entities_length s) as Hlen.
  destruct (entity c) as [e|].
  - destruct He as (_ & _ & Hsp & Hl). intros _.
    rewrite length_append, has_append, Hsp. split; [lia | done].
  - rewrite He. simpl. intros Hs. destruct (IH Hs) as [Hl Hsp].
    rewrite Hsp, orb_true_r. split; [lia | done].
Qed.

Lemma take_length n s : (String.length (take n s) <= n)%nat.
Proof.
  revert s. induction n as [|n IH]; intros [|c s]; simpl; try lia.
  specialize (IH s). lia.
Qed.

(** X12. The page's [escapeHtml] and the server's five-pass escaping are the
    same function; what they return holds no [<], [>] or quote, and is at
    most six times as long as the text. *)
Theorem escapeHtml_agrees_with_server s :
  escapeHtml (Some s) = escape_html s /\
  has markup (escapeHtml (Some s)) = false /\
  (String.length (escapeHtml (Some s)) <= 6 * String.length s)%nat.
Proof.
  assert (escapeHtml (Some s) = replace_entities s) as ->.
  { unfold escapeHtml. by destruct s. }
  split; [apply replace_entities_escape_html|].
  split; [apply replace_entities_no_markup|].
  apply replace_entities_length.
Qed.

(** X13. Escaping is not idempotent: escaping an escaped text changes it
    exactly when the text holds a character to escape. A text the hardened
    server stored goes through [escapeHtml] again when the page displays
    it, so an apostrophe in a name is shown as its entity. *)
Theorem escaping_twice s :
  escapeHtml (Some (escape_html s)) = escape_html s <-> has special s = false.
Proof.
  assert (escapeHtml (Some (escape_html s)) = replace_entities (replace_entities s))
    as ->.
  { rewrite <- replace_entities_escape_html. unfold escapeHtml.
    by destruct (replace_entities s). }
  rewrite <- replace_entities_escape_html. split.
  - intros Heq. destruct (has special s) eqn:Hs; [|done].
    destruct (replace_entities_grows s Hs) as [_ Hsp].
    destruct (replace_entities_grows _ Hsp) as [Hlt _].
    rewrite Heq in Hlt. lia.
  - intros Hs. rewrite (replace_entities_plain s Hs). by apply replace_entities_plain.
Qed.

End EscapeFacts.

(** ** The tables under the handlers *)

Module DBFacts.
Import DB DBSpec.

Lemma bind_all_cons v r x xs :
  bind_all (v :: r) = Normal (x :: xs) -> bind v = Normal x /\ bind_all r = Normal xs.
Proof.
  simpl. destruct (bind v) as [y|], (bind_all r) as [ys|]; try done.
  by intros [= -> ->].
Qed.

Lemma bind_text s x : bind (JStr s) = Normal x -> text_affinity x = SText s.
Proof. by intros [= <-]. Qed.

Lemma prediction_exists_In db k :
  prediction_exists db k = true <-> exists p, In p (predictions db) /\ Predictions.id p = k.
Proof.
  unfold prediction_exists. rewrite existsb_exists.
  split; intros (p & Hp & Hk); exists p; (split; [done|]); lia.
Qed.

(** A successful insert appends one row under the next id and touches
    nothing else. *)
Lemma insert_prediction_appends db stamp vals k db' :
  insert_prediction db stamp vals = Normal (k, db') ->
  exists n t p td tds c cf u nt,
    bind_all vals = Normal [n; t; p; td; tds; c; cf; u; nt] /\
    k = seq_predictions db + 1 /\
    db' = with_prediction db
            {| Predictions.id := k;
               Predictions.predictor_name := text_affinity n;
               Predictions.prediction_text := text_affinity t;
               Predictions.predicted_date := numeric_affinity p;
               Predictions.target_date := numeric_affinity td;
               Predictions.target_description := text_affinity tds;
               Predictions.category := text_affinity c;
               Predictions.confidence_level := numeric_affinity cf;
               Predictions.source_url := text_affinity u;
               Predictions.notes := text_affinity nt;
               Predictions.created_at := stamp;
               Predictions.updated_at := stamp |}.
Proof.
  unfold insert_prediction.
  destruct (bind_all vals) as [xs|]; [|done].
  destruct xs as [|n [|t [|p [|td [|tds [|c [|cf [|u [|nt [|? ?]]]]]]]]]]; try done.
  destruct (is_null n || is_null t || is_null p); [done|].
  destruct (negb (check_range_1_10 (numeric_affinity cf))); [done|].
  intros [= <- <-]. by exists n, t, p, td, tds, c, cf, u, nt.
Qed.

Lemma insert_verification_appends db stamp vals k db' :
  insert_verification db stamp vals = Normal (k, db') ->
  exists pid o d u b sc nt pk,
    bind_all vals = Normal [pid; o; d; u; b; sc; nt] /\
    numeric_affinity pid = SInt pk /\
    prediction_exists db pk = true /\
    k = seq_verifications db + 1 /\
    db' = with_verification db
            {| Verifications.id := k;
               Verifications.prediction_id := pk;
               Verifications.outcome := text_affinity o;
               Verifications.outcome_description := text_affinity d;
               Verifications.evidence_url := text_affinity u;
               Verifications.verified_by := text_affinity b;
               Verifications.verification_date := stamp;
               Verifications.confidence_score := numeric_affinity sc;
               Verifications.notes := text_affinity nt;
               Verifications.created_at := stamp |}.
Proof.
  unfold insert_verification.
  destruct (bind_all vals) as [xs|]; [|done].
  destruct xs as [|pid [|o [|d [|u [|b [|sc [|nt [|? ?]]]]]]]]; try done.
  destruct (is_null pid || is_null (text_affinity o) || is_null d); [done|].
  destruct (negb (check_outcome (text_affinity o))
            || negb (check_range_1_10 (numeric_affinity sc))); [done|].
  destruct (numeric_affinity pid) as [|pk|] eqn:Hpid; try done.
  destruct (prediction_exists db pk) eqn:Hex; [|done].
  intros [= <- <-]. by exists pid, o, d, u, b, sc, nt, pk.
Qed.

Lemma consistent_with_prediction db row :
  consistent db -> Predictions.id row = seq_predictions db + 1 ->
  consistent (with_prediction db row).
Proof.
  intros (Hsp & Hsv & Hp & Hnp & Hv & Hnv) Hid.
  unfold consistent, with_prediction. simpl.
  split; [lia|]. split; [done|]. split; [|split; [|split; [|done]]].
  - intros p [Hin | [<- | []]]%in_app_or; [apply Hp in Hin|]; lia.
  - rewrite map_app. apply NoDup_app. split; [done|]. split; [|apply NoDup_singleton].
    intros k Hk ->%list_elem_of_singleton.
    apply list_elem_of_In, in_map_iff in Hk as (p & Hpk & Hin).
    apply Hp in Hin. lia.
  - intros v Hin. destruct (Hv v Hin) as [Hid' Hex]. split; [done|].
    apply prediction_exists_In in Hex as (p & Hpin & Hpk).
    apply prediction_exists_In. exists p. simpl. split; [|done].
    apply in_or_app. by left.
Qed.

Lemma consistent_with_verification db row :
  consistent db -> Verifications.id row = seq_verifications db + 1 ->
  prediction_exists db (Verifications.prediction_id row) = true ->
  consistent (with_verification db row).
Proof.
  intros (Hsp & Hsv & Hp & Hnp & Hv & Hnv) Hid Hex.
  unfold consistent, with_verification. simpl.
  split; [done|]. split; [lia|]. split; [done|]. split; [done|]. split.
  - intros v [Hin | [<- | []]]%in_app_or.
    + destruct (Hv v Hin) as [Hid' Hex']. split; [lia|done].
    + split; [lia|done].
  - rewrite map_app. apply NoDup_app. split; [done|]. split; [|apply NoDup_singleton].
    intros k Hk ->%list_elem_of_singleton.
    apply list_elem_of_In, in_map_iff in Hk as (v & Hvk & Hin).
    apply Hv in Hin. lia.
Qed.

Lemma consistent_insert_prediction db stamp vals k db' :
  consistent db -> insert_prediction db stamp vals = Normal (k, db') -> consistent db'.
Proof.
  intros Hc Hins.
  apply insert_prediction_appends in Hins
    as (n & t & p & td & tds & c & cf & u & nt & _ & -> & ->).
  by apply consistent_with_prediction.
Qed.

Lemma consistent_insert_verification db stamp vals k db' :
  consistent db -> insert_verification db stamp vals = Normal (k, db') -> consistent db'.
Proof.
  intros Hc Hins.
  apply insert_verification_appends in Hins
    as (pid & o & d & u & b & sc & nt & pk & _ & _ & Hex & -> & ->).
  by apply consistent_with_verification.
Qed.

Section Handlers.

Variable Date_time : jsval -> option Z.
Variable URL_protocol : string -> option string.
Variable compare_string_number : string -> Z -> option comparison.

(** A handler leaves the database alone or answers with the id of the one
    row its insert added. *)
Lemma hardened_post_predictions_result now stamp db body :
  let result := HardenedApp.post_predictions Date_time URL_protocol now stamp db body in
  (result.1 = db /\ status_of result.2 <> Some 200) \/
  exists vals k, insert_prediction db stamp vals = Normal (k, result.1) /\
    result.2 = Reply 200 [("id", JNum k); ("message", JStr "Prediction added successfully")].
Proof.
  unfold HardenedApp.post_predictions. destruct body as [data|]; [|by left].
  repeat first [ match goal with
                 | |- context [if ?b then _ else _] => destruct b
                 end
               | case_match ]; simpl; eauto.
Qed.

Lemma hardened_post_verify_result now stamp db predictionId body :
  let result :=
    HardenedApp.post_verify Date_time URL_protocol now stamp db predictionId body in
  (result.1 = db /\ status_of result.2 <> Some 200) \/
  exists vals k, insert_verification db stamp vals = Normal (k, result.1) /\
    result.2 = Reply 200 [("id", JNum k); ("message", JStr "Verification added successfully")].
Proof.
  unfold HardenedApp.post_verify.
  destruct (match parseInt_string predictionId with
            | Some n => n <=? 0 | None => true end); [by left|].
  destruct body as [data|]; [|by left].
  repeat first [ match goal with
                 | |- context [if ?b then _ else _] => destruct b
                 end
               | case_match ]; simpl; eauto.
Qed.

Lemma index_post_predictions_result stamp db body :
  let result := App.post_predictions compare_string_number stamp db body in
  (result.1 = db /\ status_of result.2 <> Some 200) \/
  exists vals k, insert_prediction db stamp vals = Normal (k, result.1) /\
    result.2 = Reply 200 [("id", JNum k); ("message", JStr "Prediction added successfully")].
Proof.
  unfold App.post_predictions. destruct body as [data|]; [|by left].
  repeat first [ match goal with
                 | |- context [if ?b then _ else _] => destruct b
                 end
               | case_match ]; simpl; eauto.
Qed.

Lemma index_post_verify_result stamp db predictionId body :
  let result := App.post_verify compare_string_number stamp db predictionId body in
  (result.1 = db /\ status_of result.2 <> Some 200) \/
  exists vals k, insert_verification db stamp vals = Normal (k, result.1) /\
    result.2 = Reply 200 [("id", JNum k); ("message", JStr "Verification added successfully")].
Proof.
  unfold App.post_verify.
  destruct (match parseInt_string predictionId with
            | Some n => n <=? 0 | None => true end); [by left|].
  destruct body as [data|]; [|by left].
  repeat first [ match goal with
                 | |- context [if ?b then _ else _] => destruct b
                 end
               | case_match ]; simpl; eauto.
Qed.

(** X14. The four POST handlers keep the database consistent: along any run
    from a consistent database, row ids stay positive, distinct and within
    their AUTOINCREMENT counter, and every verification refers to a stored
    prediction. *)
Theorem handlers_keep_consistent now stamp db predictionId body :
  consistent db ->
  consistent (HardenedApp.post_predictions Date_time URL_protocol now stamp db body).1 /\
  consistent
    (HardenedApp.post_verify Date_time URL_protocol now stamp db predictionId body).1 /\
  consistent (App.post_predictions compare_string_number stamp db body).1 /\
  consistent (App.post_verify compare_string_number stamp db predictionId body).1.
Proof.
  intros Hc. split; [|split; [|split]].
  - destruct (hardened_post_predictions_result now stamp db body)
      as [[-> _] | (vals & k & Hins & _)]; [done|].
    by apply (consistent_insert_prediction _ _ _ _ _ Hc Hins).
  - destruct (hardened_post_verify_result now stamp db predictionId body)
      as [[-> _] | (vals & k & Hins & _)]; [done|].
    by apply (consistent_insert_verification _ _ _ _ _ Hc Hins).
  - destruct (index_post_predictions_result stamp db body)
      as [[-> _] | (vals & k & Hins & _)]; [done|].
    by apply (consistent_insert_prediction _ _ _ _ _ Hc Hins).
  - destruct (index_post_verify_result stamp db predictionId body)
      as [[-> _] | (vals & k & Hins & _)]; [done|].
    by apply (consistent_insert_verification _ _ _ _ _ Hc Hins).
Qed.

End Handlers.

End DBFacts.

(** ** [GET /api/predictions/:id] after a POST *)

Module DetailFacts.
Import DB DBSpec Queries DBFacts StringFacts JSFacts.

Lemma rev_app_rev_app a b c :
  String.rev_app (String.rev_app a b) c = String.rev_app b (a +:+ c).
Proof.
  revert b c. induction a as [|x a IH]; intros b c; [done|].
  simpl. by rewrite IH.
Qed.

Lemma rev_rev s : String.rev (String.rev s) = s.
Proof.
  unfold String.rev. rewrite rev_app_rev_app. simpl.
  induction s as [|x s IH]; [done|]. by rewrite EscapeFacts.append_cons, IH.
Qed.

Lemma all_digits_rev_app a b :
  all_digits (String.rev_app a b) = all_digits a && all_digits b.
Proof.
  revert b. induction a as [|x a IH]; intros b; simpl; [done|].
  rewrite IH. simpl. destruct (digit_value 10 x); [done|].
  by rewrite andb_false_r.
Qed.

Lemma digit_not_space c d : digit_value 10 c = Some d -> is_space c = false.
Proof. by destruct c as [[] [] [] [] [] [] [] []]. Qed.

Lemma trim_start_digits s : all_digits s = true -> trim_start s = s.
Proof.
  destruct s as [|c s]; [done|]. simpl.
  destruct (digit_value 10 c) as [d|] eqn:Hd; [|done].
  by rewrite (digit_not_space c d Hd).
Qed.

(** [trim] leaves a text of digits as it is. *)
Lemma trim_digits s : all_digits s = true -> trim s = s.
Proof.
  intros Hs. unfold trim. rewrite (trim_start_digits s Hs).
  rewrite trim_start_digits; [apply rev_rev|].
  unfold String.rev. by rewrite all_digits_rev_app, Hs.
Qed.

Lemma all_digits_pretty_go x s :
  (0 < x)%N -> all_digits (pretty_N_go x s) = all_digits s.
Proof.
  revert s. induction (N.lt_wf_0 x) as [x _ IH]. intros s Hx.
  rewrite pretty_N_go_step by done.
  assert (all_digits (String (pretty_N_char (x `mod` 10)) s) = all_digits s) as Hstep.
  { simpl. by rewrite digit_value_pretty by (apply N.mod_lt; lia). }
  destruct (N.eq_0_gt_0_cases (x `div` 10)) as [Hq | Hq].
  - by rewrite Hq, pretty_N_go_0.
  - rewrite IH; [done|apply N.div_lt; lia|done].
Qed.

Lemma sql_integer_pretty_pos p : sql_integer (pretty (N.pos p)) = Some (Z.pos p).
Proof.
  assert (all_digits (pretty (N.pos p)) = true) as Hd.
  { unfold pretty, pretty_N. rewrite decide_False by done.
    by rewrite all_digits_pretty_go. }
  unfold sql_integer. rewrite (trim_digits _ Hd).
  assert (parse_digits 10 0 false (pretty (N.pos p)) = Some (Z.pos p)) as Hp.
  { unfold pretty, pretty_N. rewrite decide_False by done.
    by rewrite parse_digits_pretty_go. }
  unfold pretty, pretty_N in *. rewrite decide_False in * by done.
  destruct (pretty_go_head (N.pos p) "") as (c & r & Heq & Hc & _); [done|].
  rewrite Heq in *. apply digit_char_plain in Hc as (_ & Hm & Hpl & _).
  cbv zeta.
  destruct c as [[] [] [] [] [] [] [] []];
    try (by destruct Hm); try (by destruct Hpl); by rewrite Hd, Hp.
Qed.

(** The decimal text of a positive id is read back as the id by a column
    of INTEGER affinity. *)
Lemma sql_integer_pretty k : 0 < k -> sql_integer (pretty k) = Some k.
Proof.
  destruct k as [|p|p]; try lia. intros _. apply sql_integer_pretty_pos.
Qed.

Lemma left_join_with_prediction db row :
  Listing.left_join (with_prediction db row) =
  Listing.left_join db ++
  match List.filter (fun v => Predictions.id row =? Verifications.prediction_id v)
          (verifications db) with
  | [] => [(row, None)]
  | vs => List.map (fun v => (row, Some v)) vs
  end.
Proof.
  unfold Listing.left_join, with_prediction. simpl.
  rewrite List.flat_map_app. simpl. by rewrite app_nil_r.
Qed.

Lemma filter_none {A} (f : A -> bool) l :
  (forall x, In x l -> f x = false) -> List.filter f l = [].
Proof.
  induction l as [|x l IH]; simpl; [done|]. intros H.
  rewrite (H x) by (by left). apply IH. intros y Hy. apply H. by right.
Qed.

(** A new prediction is found under its id, with no verification joined;
    what was found under an id before is still found. *)
Lemma get_prediction_new db row :
  consistent db ->
  Predictions.id row = seq_predictions db + 1 ->
  get_prediction (with_prediction db row) (pretty (Predictions.id row))
    = Some (detail_row (row, None)) /\
  (forall id d, get_prediction db id = Some d ->
                get_prediction (with_prediction db row) id = Some d).
Proof.
  intros (Hsp & Hsv & Hp & Hnp & Hv & Hnv) Hid. split.
  - unfold get_prediction. rewrite sql_integer_pretty by lia.
    rewrite left_join_with_prediction, List.filter_app.
    rewrite (filter_none _ (Listing.left_join db)).
    + rewrite (filter_none _ (verifications db)).
      * simpl. by rewrite Z.eqb_refl.
      * intros v Hin. apply Z.eqb_neq. intros Heq.
        destruct (Hv v Hin) as [_ Hex].
        apply prediction_exists_In in Hex as (p & Hpin & Hpk).
        apply Hp in Hpin. lia.
    + intros [p v] Hin. apply ListingFacts.in_left_join in Hin as [Hin _].
      apply Hp in Hin. simpl. apply Z.eqb_neq. lia.
  - intros id d. unfold get_prediction.
    destruct (sql_integer id) as [k|]; [|done].
    rewrite left_join_with_prediction, List.filter_app, map_app.
    destruct (List.map detail_row (List.filter _ (Listing.left_join db))); [done|].
    done.
Qed.

Section Handlers.

Variable Date_time : jsval -> option Z.
Variable URL_protocol : string -> option string.
Variable compare_string_number : string -> Z -> option comparison.

(** X15. [index.tsx] stores text as it was sent: after [POST
    /api/predictions] answered 200 with an id, [GET /api/predictions/:id]
    for that id answers with the new row, its name and text being the
    strings of the body character for character (markup included), its
    timestamp the time of the insert and no verification joined; every
    prediction served before is still served. *)
Theorem index_stored_prediction_served stamp db body :
  let result := App.post_predictions compare_string_number stamp db (Some body) in
  consistent db ->
  status_of result.2 = Some 200 ->
  exists k d,
    body_field result.2 "id" = Some (JNum k) /\
    get_prediction result.1 (pretty k) = Some d /\
    Predictions.id (prediction d) = k /\
    (forall s, prop body "predictor_name" = JStr s ->
       Predictions.predictor_name (prediction d) = SText s) /\
    (forall s, prop body "prediction_text" = JStr s ->
       Predictions.prediction_text (prediction d) = SText s) /\
    Predictions.created_at (prediction d) = stamp /\
    outcome d = SNull /\
    (forall id d', get_prediction db id = Some d' ->
                   get_prediction result.1 id = Some d').
Proof.
  intros result Hc. subst result. unfold App.post_predictions.
  destruct (negb (truthy (prop body "predictor_name")) || _ || _); [done|].
  destruct (truthy (prop body "confidence_level") && _); [done|].
  destruct (insert_prediction db stamp _) as [[k' db']|] eqn:Hins'; [|done].
  simpl. intros _.
  apply insert_prediction_appends in Hins'
    as (n & t & p & td & tds & c & cf & u & nt & Hbind & -> & ->).
  apply bind_all_cons in Hbind as [Hn Hbind].
  apply bind_all_cons in Hbind as [Ht _].
  set (row := {| Predictions.id := seq_predictions db + 1 |}).
  destruct (get_prediction_new db row Hc eq_refl) as [Hget Hframe].
  exists (seq_predictions db + 1), (detail_row (row, None)).
  split; [done|]. split; [exact Hget|]. split; [done|].
  split; [intros s Hs; rewrite Hs in Hn; by apply bind_text|].
  split; [intros s Hs; rewrite Hs in Ht; by apply bind_text|].
  done.
Qed.

End Handlers.

End DetailFacts.

(** ** [index.tsx]: a verification, once stored, is what the queries show *)

Module VerifiedFacts.
Import DB DBSpec Listing Queries DBFacts ListingFacts.

(** Every stored prediction has a row in the join. *)
Lemma left_join_covers db p :
  In p (predictions db) -> exists v, In (p, v) (left_join db).
Proof.
  intros Hp. unfold left_join.
  destruct (List.filter (fun v => Predictions.id p =? Verifications.prediction_id v)
              (verifications db)) as [|w ws] eqn:Hf.
  - exists None. apply in_flat_map. exists p. split; [done|]. rewrite Hf. by left.
  - exists (Some w). apply in_flat_map. exists p. split; [done|]. rewrite Hf. by left.
Qed.

Lemma head_of_uniform {A B} (f : A -> B) (l : list A) (P : A -> Prop) :
  l <> [] -> (forall x, In x l -> P x) -> exists x, head (List.map f l) = Some (f x) /\ P x.
Proof.
  destruct l as [|x l]; [done|]. intros _ H. exists x. split; [done|]. apply H. by left.
Qed.

Section Handlers.

Variable compare_string_number : string -> Z -> option comparison.

(** What the handler has checked and done when it answers 200. *)
Lemma index_post_verify_stored stamp db predictionId body :
  let result := App.post_verify compare_string_number stamp db predictionId (Some body) in
  status_of result.2 = Some 200 ->
  exists k o row,
    sql_integer predictionId = Some k /\
    (exists p, In p (predictions db) /\ Predictions.id p = k) /\
    (forall v, In v (verifications db) -> Verifications.prediction_id v <> k) /\
    prop body "outcome" = JStr o /\ In o App.validOutcomes /\
    result.1 = with_verification db row /\
    Verifications.prediction_id row = k /\
    Verifications.outcome row = SText o /\
    Verifications.verification_date row = stamp.
Proof.
  intros result. subst result. unfold App.post_verify.
  destruct (match parseInt_string predictionId with
            | Some n => n <=? 0 | None => true end); [done|].
  destruct (negb (truthy (prop body "outcome")) || _ || _); [done|].
  destruct (includes App.validOutcomes (prop body "outcome")) eqn:Hinc; [|done].
  apply ValidationFacts.includes_spec in Hinc as (o & Ho & Hout). simpl.
  destruct (truthy (prop body "confidence_score") && _); [done|].
  unfold select_prediction_id, select_verification_id.
  destruct (sql_integer predictionId) as [k|] eqn:Hk; [|done].
  destruct (List.find (fun p => Predictions.id p =? k) (predictions db))
    as [p|] eqn:Hp; [|done].
  destruct (List.find (fun v => Verifications.prediction_id v =? k) (verifications db))
    as [w|] eqn:Hw; [done|]. simpl.
  destruct (insert_verification db stamp _) as [[k' db']|] eqn:Hins; [|done].
  simpl. intros _.
  apply insert_verification_appends in Hins
    as (pid & out & d & u & b & sc & nt & pk & Hbind & Hpid & _ & _ & ->).
  apply bind_all_cons in Hbind as [[= <-] Hbind].
  apply bind_all_cons in Hbind as [Hob _].
  rewrite Hout in Hob. injection Hob as <-.
  simpl in Hpid. rewrite Hk in Hpid. injection Hpid as <-.
  apply find_some in Hp as [Hpin Hpk].
  exists k, o. eexists. split; [done|]. split.
  - exists p. split; [done | lia].
  - split.
    + intros v Hv Heq. apply (find_none _ _ Hw) in Hv. simpl in Hv. lia.
    + by repeat split.
Qed.

(** X26. In [index.tsx] a verification that was accepted is what the
    queries show from then on: after [POST /api/predictions/:id/verify]
    answered 200, [GET /api/predictions/:id] for the same id answers with
    the prediction joined to the new verification, its outcome the one of
    the body and its date the time of the insert, and the listing shows
    every row of that prediction as verified with that outcome. *)
Theorem index_verification_served stamp db predictionId body :
  let result := App.post_verify compare_string_number stamp db predictionId (Some body) in
  status_of result.2 = Some 200 ->
  exists d o,
    get_prediction result.1 predictionId = Some d /\
    prop body "outcome" = JStr o /\
    In o App.validOutcomes /\
    Queries.outcome d = SText o /\
    Queries.verification_date d = SText stamp /\
    forall today category status r,
      In r (get_predictions today result.1 category status) ->
      Predictions.id (Listing.prediction r) = Predictions.id (Queries.prediction d) ->
      verification_status r = "verified" /\ Listing.outcome r = SText o.
Proof.
  intros result Hst.
  destruct (index_post_verify_stored stamp db predictionId body Hst)
    as (k & o & row & Hk & (p & Hp & Hpk) & Hnone & Hout & Ho & Hres & Hrk & Hro & Hrd).
  subst result. rewrite Hres.
  set (db' := with_verification db row).
  assert (forall q v, In (q, v) (left_join db') -> Predictions.id q = k -> v = Some row)
    as Hjoined.
  { intros q v Hin Hq. apply in_left_join in Hin as [_ Hv].
    destruct v as [w|].
    - destruct Hv as [Hw Hwq]. simpl in Hw.
      apply in_app_or in Hw as [Hw | [<- | []]]; [|done].
      destruct (Hnone w Hw). lia.
    - destruct (Hv row); [simpl; apply in_or_app; right; by left | lia]. }
  assert (exists q, In q (predictions db') /\ Predictions.id q = k) as (q & Hq & Hqk)
    by (exists p; by split).
  destruct (left_join_covers db' q Hq) as [v Hqv].
  unfold get_prediction. rewrite Hk.
  destruct (head_of_uniform detail_row
              (List.filter (fun pv => Predictions.id pv.1 =? k) (left_join db'))
              (fun pv => Predictions.id pv.1 = k /\ pv.2 = Some row))
    as ([q' v'] & Hhead & Hq'k & Hv').
  { intros Hnil.
    assert (In (q, v) (List.filter (fun pv => Predictions.id pv.1 =? k) (left_join db')))
      as Hin by (apply filter_In; split; [done | simpl; lia]).
    by rewrite Hnil in Hin. }
  { intros [q' v'] [Hin Hk']%filter_In. simpl in *.
    apply Z.eqb_eq in Hk'. split; [done|]. by apply (Hjoined q' v'). }
  simpl in Hq'k, Hv'. subst v'.
  exists (detail_row (q', Some row)), o.
  split; [exact Hhead|]. split; [done|]. split; [done|].
  simpl. split; [done|]. split; [by rewrite Hrd|].
  intros today category status r Hr Hid.
  apply in_get_predictions in Hr as (q'' & v'' & Hin & ->). simpl in Hid.
  rewrite (Hjoined q'' v'' Hin) by lia. simpl. by rewrite Hro.
Qed.

End Handlers.

End VerifiedFacts.

(** ** What the hardened [POST /api/predictions] stores *)

Module HardenedRowFacts.
Import Hardened DB DBSpec Queries DBFacts EscapeSpec EscapeFacts ValidationSpec.

Lemma clean_safe v n :
  has markup (clean v n) = false /\ (String.length (clean v n) <= 6 * n)%nat.
Proof.
  unfold clean.
  destruct (negb (truthy v) || suspicious (ToString v)); [simpl; split; [done | lia]|].
  destruct v; try (simpl; split; [done | lia]).
  rewrite <- replace_entities_escape_html.
  split; [apply replace_entities_no_markup|].
  pose proof (replace_entities_length (take n (trim s))) as Hl.
  pose proof (take_length n (trim s)). lia.
Qed.

(** [value || null] of a sanitized text, bound and stored in a TEXT column. *)
Lemma stored_or_null s x n v :
  s = clean v n ->
  bind (or_else (JStr s) JNull) = Normal x ->
  escaped_column (text_affinity x) n.
Proof.
  intros -> Hx. unfold or_else in Hx. simpl in Hx.
  destruct (clean_safe v n) as [Hm Hl].
  destruct (negb (String.eqb (clean v n) "")); injection Hx as <-; simpl.
  - right. eauto.
  - by left.
Qed.

Lemma stored_text s x n v :
  s = clean v n ->
  bind (JStr s) = Normal x ->
  text_affinity x = SText (clean v n) /\ escaped_column (text_affinity x) n.
Proof.
  intros -> [= <-]. simpl. split; [done|].
  destruct (clean_safe v n) as [Hm Hl]. right. eauto.
Qed.

Lemma clamp_confidence_range c : 1 <= clamp_confidence c <= 10.
Proof. unfold clamp_confidence. lia. Qed.

Section Handlers.

Variable Date_time : jsval -> option Z.
Variable URL_protocol : string -> option string.

(** The row a successful request adds, column by column. *)
Lemma hardened_row now stamp db data :
  let result := HardenedApp.post_predictions Date_time URL_protocol now stamp db (Some data) in
  status_of result.2 = Some 200 ->
  exists row,
    result = (with_prediction db row,
              Reply 200 [("id", JNum (seq_predictions db + 1));
                         ("message", JStr "Prediction added successfully")]) /\
    Predictions.id row = seq_predictions db + 1 /\
    Predictions.created_at row = stamp /\
    Predictions.predictor_name row
      = SText (clean (prop data "predictor_name") PREDICTOR_NAME_MAX) /\
    Predictions.prediction_text row
      = SText (clean (prop data "prediction_text") PREDICTION_TEXT_MAX) /\
    escaped_column (Predictions.predictor_name row) PREDICTOR_NAME_MAX /\
    escaped_column (Predictions.prediction_text row) PREDICTION_TEXT_MAX /\
    escaped_column (Predictions.target_description row) DESCRIPTION_MAX /\
    escaped_column (Predictions.notes row) NOTES_MAX /\
    (exists c, Predictions.category row = SText c /\ In c validCategories) /\
    (exists n, Predictions.confidence_level row = SInt n /\ 1 <= n <= 10).
Proof.
  intros result. subst result. unfold HardenedApp.post_predictions.
  destruct (negb (validateHoneypot (prop data "website")) || _ || _); [done|].
  destruct (negb (validateCaptcha _ _)); [done|].
  pose proof (ValidationFacts.validateInput_run Date_time URL_protocol now data Hardened.prediction)
    as Hrun.
  destruct (validateInput _ _ _ _ _) as [r|e]; [|done].
  destruct Hrun as (_ & _ & _ & _ & _ & Hsan).
  destruct (isValid r); [|done]. simpl.
  destruct (sanitized r) as [o|]; [|done].
  destruct (Hsan o eq_refl) as (Hname & Htext & Hdesc & Hnotes & _ & _ & Hcat & Hconf & _).
  destruct (insert_prediction db stamp _) as [[k db']|] eqn:Hins; [|done].
  simpl. intros _.
  apply insert_prediction_appends in Hins
    as (n & t & p & td & tds & c & cf & u & nt & Hbind & -> & ->).
  apply bind_all_cons in Hbind as [Hn Hbind].
  apply bind_all_cons in Hbind as [Ht Hbind].
  apply bind_all_cons in Hbind as [_ Hbind].
  apply bind_all_cons in Hbind as [_ Hbind].
  apply bind_all_cons in Hbind as [Htds Hbind].
  apply bind_all_cons in Hbind as [Hc Hbind].
  apply bind_all_cons in Hbind as [Hcf Hbind].
  apply bind_all_cons in Hbind as [_ Hbind].
  apply bind_all_cons in Hbind as [Hnt _].
  rewrite Hname in Hn. rewrite Htext in Ht. rewrite Hdesc in Htds.
  rewrite Hnotes in Hnt. rewrite Hcat in Hc. rewrite Hconf in Hcf.
  destruct (stored_text _ _ _ _ eq_refl Hn) as [Hn1 Hn2].
  destruct (stored_text _ _ _ _ eq_refl Ht) as [Ht1 Ht2].
  eexists. split; [reflexivity|]. simpl.
  split; [done|]. split; [done|]. split; [done|]. split; [done|].
  split; [done|]. split; [done|].
  split; [by apply (stored_or_null _ _ _ _ eq_refl Htds)|].
  split; [by apply (stored_or_null _ _ _ _ eq_refl Hnt)|].
  split.
  - destruct (includes validCategories (prop data "category")) eqn:Hinc.
    + apply ValidationFacts.includes_spec in Hinc as (s & Hs & Heq).
      rewrite Heq in Hc. injection Hc as <-. simpl. eauto.
    + injection Hc as <-. simpl. exists "general". split; [done|]. by left.
  - injection Hcf as <-. simpl. eexists. split; [done|]. apply clamp_confidence_range.
Qed.

(** A request the handler accepts passed the honeypot and CAPTCHA checks
    and violates no rule of the validation. *)
Lemma hardened_accepted now stamp db body :
  let result := HardenedApp.post_predictions Date_time URL_protocol now stamp db body in
  status_of result.2 = Some 200 ->
  exists data,
    body = Some data /\
    passes_bot_checks_prediction data /\
    violations Date_time URL_protocol now data Hardened.prediction = [].
Proof.
  intros result. subst result. unfold HardenedApp.post_predictions.
  destruct body as [data|]; [|done].
  destruct (validateHoneypot (prop data "website")) eqn:H1; [|done].
  destruct (validateHoneypot (prop data "email_address")) eqn:H2; [|done].
  destruct (validateHoneypot (prop data "full_name")) eqn:H3; [|done].
  destruct (validateCaptcha _ _) eqn:H4; [|done]. simpl.
  pose proof (ValidationFacts.validateInput_run Date_time URL_protocol now data
                Hardened.prediction) as Hrun.
  destruct (validateInput _ _ _ _ _) as [r|e]; [|done].
  destruct Hrun as (_ & Herr & Hvalid & _).
  destruct (isValid r); [|done]. intros _.
  exists data. split; [done|]. split; [done|].
  symmetry in Hvalid. apply bool_decide_eq_true in Hvalid.
  exact (eq_trans (eq_sym Herr) Hvalid).
Qed.

(** X16. What the hardened [POST /api/predictions] stores is sanitized and
    served as stored: after it answered 200 with an id,
    [GET /api/predictions/:id] for that id answers with the new row, whose
    name and text are the trimmed, truncated and escaped strings of the
    body, with no verification joined; every prediction served before is
    still served. *)
Theorem hardened_stored_prediction_served now stamp db data :
  let result := HardenedApp.post_predictions Date_time URL_protocol now stamp db (Some data) in
  consistent db ->
  status_of result.2 = Some 200 ->
  exists k d,
    body_field result.2 "id" = Some (JNum k) /\
    get_prediction result.1 (pretty k) = Some d /\
    Predictions.id (prediction d) = k /\
    Predictions.predictor_name (prediction d)
      = SText (clean (prop data "predictor_name") PREDICTOR_NAME_MAX) /\
    Predictions.prediction_text (prediction d)
      = SText (clean (prop data "prediction_text") PREDICTION_TEXT_MAX) /\
    Predictions.created_at (prediction d) = stamp /\
    outcome d = SNull /\
    (forall id d', get_prediction db id = Some d' ->
                   get_prediction result.1 id = Some d').
Proof.
  intros result Hc Hst.
  destruct (hardened_row now stamp db data Hst)
    as (row & Hres & Hid & Hstamp & Hname & Htext & _).
  subst result. rewrite Hres. simpl.
  destruct (DetailFacts.get_prediction_new db row Hc Hid) as [Hget Hframe].
  exists (seq_predictions db + 1), (detail_row (row, None)).
  split; [done|]. split; [by rewrite <- Hid|]. done.
Qed.

(** X17. Every row the hardened [POST /api/predictions] adds has a name, a
    text, a description and notes that hold no [<], [>] or quote and are
    at most six times their configured length, a category out of the nine
    valid ones and a confidence level between 1 and 10; it is the only
    change to the database. *)
Theorem hardened_rows_are_sanitized now stamp db data :
  let result := HardenedApp.post_predictions Date_time URL_protocol now stamp db (Some data) in
  status_of result.2 = Some 200 ->
  exists row,
    result.1 = with_prediction db row /\
    escaped_column (Predictions.predictor_name row) PREDICTOR_NAME_MAX /\
    escaped_column (Predictions.prediction_text row) PREDICTION_TEXT_MAX /\
    escaped_column (Predictions.target_description row) DESCRIPTION_MAX /\
    escaped_column (Predictions.notes row) NOTES_MAX /\
    (exists c, Predictions.category row = SText c /\ In c validCategories) /\
    (exists n, Predictions.confidence_level row = SInt n /\ 1 <= n <= 10).
Proof.
  intros result Hst.
  destruct (hardened_row now stamp db data Hst)
    as (row & Hres & _ & _ & _ & _ & Hn & Ht & Hd & Hnt & Hc & Hcf).
  exists row. subst result. rewrite Hres. by repeat split.
Qed.

End Handlers.

End HardenedRowFacts.

(** ** [GET /api/stats] *)

Module StatsFacts.
Import DB DBSpec Listing Queries QueriesSpec DBFacts.

Lemma sum_counts_ext (f g : sqlval -> Z) ks :
  (forall k, f k = g k) ->
  sum_counts (List.map (fun k => (k, f k)) ks)
  = sum_counts (List.map (fun k => (k, g k)) ks).
Proof.
  intros H. unfold sum_counts. induction ks as [|k ks IH]; simpl; [done|].
  by rewrite H, IH.
Qed.

Lemma sum_counts_add (f g : sqlval -> Z) ks :
  sum_counts (List.map (fun k => (k, f k + g k)) ks)
  = sum_counts (List.map (fun k => (k, f k)) ks)
    + sum_counts (List.map (fun k => (k, g k)) ks).
Proof.
  unfold sum_counts. induction ks as [|k ks IH]; simpl; [done|]. rewrite IH. lia.
Qed.

(** A key occurs once among keys without repetition. *)
Lemma sum_counts_indicator (x : sqlval) ks :
  NoDup ks ->
  sum_counts (List.map (fun k => (k, if bool_decide (x = k) then 1 else 0)) ks)
  = if bool_decide (x ∈ ks) then 1 else 0.
Proof.
  unfold sum_counts. induction 1 as [|k ks Hk Hnd IH]; simpl; [done|].
  rewrite IH.
  destruct (decide (x = k)) as [<- | Hne].
  - rewrite bool_decide_eq_true_2 by done.
    rewrite (bool_decide_eq_false_2 (x ∈ ks)) by done.
    by rewrite bool_decide_eq_true_2 by (by left).
  - rewrite (bool_decide_eq_false_2 (x = k)) by done.
    destruct (decide (x ∈ ks)) as [Hin | Hnin].
    + rewrite !bool_decide_eq_true_2; [done | by right | done].
    + rewrite !bool_decide_eq_false_2; [done | | done].
      intros [? | ?]%elem_of_cons; congruence.
Qed.

(** Over keys without repetition, the occurrences of the keys add up to the
    length of the list, provided every element of the list is among them. *)
Lemma occurrences_add_up (keys ks : list sqlval) :
  NoDup ks ->
  (forall x, In x keys -> In x ks) ->
  sum_counts
    (List.map (fun k => (k, Z.of_nat (length (List.filter (fun x => bool_decide (x = k)) keys))))
       ks)
  = Z.of_nat (length keys).
Proof.
  intros Hnd. induction keys as [|x keys IH]; intros Hin.
  - unfold sum_counts. simpl. induction ks as [|k ks IHks]; simpl; [done|].
    apply NoDup_cons in Hnd as [_ Hnd]. by rewrite IHks.
  - assert (In x ks) as Hx by (apply Hin; by left).
    specialize (IH (fun y Hy => Hin y (or_intror Hy))).
    rewrite (sum_counts_ext _
               (fun k => (if bool_decide (x = k) then 1 else 0)
                         + Z.of_nat (length (List.filter (fun y => bool_decide (y = k)) keys)))).
    + rewrite sum_counts_add, sum_counts_indicator, IH by done.
      rewrite bool_decide_eq_true_2 by (by apply list_elem_of_In). simpl length. lia.
    + intros k. simpl. destruct (bool_decide (x = k)); simpl length; lia.
Qed.

Lemma group_count_sum keys : sum_counts (group_count keys) = Z.of_nat (length keys).
Proof.
  unfold group_count. apply occurrences_add_up; [apply NoDup_remove_dups|].
  intros x Hx. apply list_elem_of_In, elem_of_remove_dups. by apply list_elem_of_In.
Qed.

Lemma group_count_groups keys :
  NoDup (List.map fst (group_count keys)) /\
  Forall (fun g => 1 <= snd g /\ In (fst g) keys) (group_count keys).
Proof.
  unfold group_count. split.
  - rewrite List.map_map. simpl. rewrite List.map_id. apply NoDup_remove_dups.
  - apply List.Forall_forall. intros g (k & <- & Hk)%in_map_iff. simpl.
    assert (In k keys) as Hk'
      by (apply list_elem_of_In; apply elem_of_remove_dups; by apply list_elem_of_In).
    split; [|done].
    assert (In k (List.filter (fun x => bool_decide (x = k)) keys)) as Hin
      by (apply filter_In; split; [done | by apply bool_decide_eq_true_2]).
    destruct (List.filter _ keys); [done|]. simpl. lia.
Qed.

Lemma length_filter_implied {A} (f g : A -> bool) l :
  (forall x, f x = true -> g x = true) ->
  (length (List.filter f l) <= length (List.filter g l))%nat.
Proof.
  intros H. induction l as [|x l IH]; simpl; [lia|].
  destruct (f x) eqn:Hf; [rewrite (H x Hf); simpl; lia|].
  destruct (g x); simpl; lia.
Qed.

Lemma in_insert_by_total x g l : In x (insert_by_total g l) <-> x = g \/ In x l.
Proof.
  induction l as [|y l IH]; simpl; [intuition congruence|].
  destruct (total_predictions y <? total_predictions g); simpl;
    rewrite ?IH; intuition congruence.
Qed.

Lemma largest_first_insert g l : largest_first l -> largest_first (insert_by_total g l).
Proof.
  induction l as [|y l IH]; simpl; [done|]. intros [Hy Hl].
  destruct (Z.ltb_spec (total_predictions y) (total_predictions g)) as [Hlt | Hge].
  - simpl. split; [|done]. constructor; [lia|].
    eapply Forall_impl; [exact Hy|]. simpl. intros; lia.
  - simpl. split; [|by apply IH].
    apply List.Forall_forall. intros x [-> | Hx]%in_insert_by_total; [done|].
    by apply (proj1 (List.Forall_forall _ _) Hy).
Qed.

(** X18. The numbers of [GET /api/stats] fit together: the counts per
    outcome add up to the number of verifications and the counts per
    category to the number of predictions, each group is listed once and
    counts at least one row; every predictor listed has at least one
    prediction and no more correct than verified ones, and the predictors
    come in the order of their totals, largest first. *)
Theorem stats_fit_together db :
  let s := get_stats db in
  sum_counts (outcomeStats s) = verifiedPredictions s /\
  sum_counts (categoryStats s) = totalPredictions s /\
  pendingPredictions s + verifiedPredictions s = totalPredictions s /\
  NoDup (List.map fst (outcomeStats s)) /\
  NoDup (List.map fst (categoryStats s)) /\
  Forall (fun g => 1 <= snd g) (outcomeStats s ++ categoryStats s) /\
  Forall (fun g => 1 <= total_predictions g /\
                   0 <= correct_predictions g <= verified_predictions g /\
                   verified_predictions g <= total_predictions g)
    (predictorStats s) /\
  largest_first (predictorStats s).
Proof.
  intros s. subst s. unfold get_stats. simpl.
  rewrite !group_count_sum, !length_map.
  split; [done|]. split; [done|]. split; [lia|].
  split; [apply group_count_groups|]. split; [apply group_count_groups|].
  split; [|split].
  - apply Forall_app. split;
      (eapply Forall_impl; [apply group_count_groups|]); simpl; tauto.
  - set (groups := List.filter _ _).
    assert (Forall (fun g => 1 <= total_predictions g /\
                             0 <= correct_predictions g <= verified_predictions g /\
                             verified_predictions g <= total_predictions g) groups) as H.
    { apply List.Forall_forall. intros g [Hin Hpos]%filter_In.
      apply Z.ltb_lt in Hpos. split; [lia|].
      apply in_map_iff in Hin as (name & <- & _). simpl.
      set (rows := List.filter _ (left_join db)).
      pose proof (GuardsFacts.length_filter_le (fun pv => bool_decide (is_Some pv.2)) rows).
      pose proof (length_filter_implied (fun pv => is_correct pv.2)
                    (fun pv => bool_decide (is_Some pv.2)) rows) as Hle.
      assert (forall pv : Predictions.row * option Verifications.row,
                is_correct pv.2 = true -> bool_decide (is_Some pv.2) = true) as Himp.
      { intros [p [w|]]; [|done]. intros _. apply bool_decide_eq_true_2. by eexists. }
      specialize (Hle Himp). lia. }
    clear -H. induction groups as [|g groups IH]; simpl; [constructor|].
    apply Forall_cons in H as [Hg H].
    apply List.Forall_forall. intros x [-> | Hx]%in_insert_by_total; [done|].
    by apply (proj1 (List.Forall_forall _ _) (IH H)).
  - set (groups := List.filter _ _). clearbody groups.
    induction groups as [|g groups IH]; simpl; [done|].
    by apply largest_first_insert.
Qed.

End StatsFacts.

(** ** Mounting *)

Module MountFacts.
Import Mount.

(** A chain that answers 200 got past its first middleware, none of whose
    responses is a 200: the answer is the one of the rest. *)
Lemma use_passed {S} (applies : bool) (middleware rest : S -> S * outcome) s :
  (forall st b, (middleware s).2 = Reply st b -> st <> 200) ->
  status_of (use applies middleware rest s).2 = Some 200 ->
  exists s', use applies middleware rest s = rest s' /\
    if applies then exists hs, middleware s = (s', Next hs) else s' = s.
Proof.
  unfold use. destruct applies; [|eauto].
  destruct (middleware s) as [s' [st b|hs]] eqn:E; simpl; intros Hno Hst; [|eauto].
  injection Hst as ->. by destruct (Hno 200 b eq_refl).
Qed.

(** What no middleware and no rejecting rest changes, the chain changes
    only with a 200. *)
Lemma use_keeps {S D} (proj : S -> D) (applies : bool)
    (middleware rest : S -> S * outcome) :
  (forall s, proj (middleware s).1 = proj s) ->
  (forall s, status_of (rest s).2 <> Some 200 -> proj (rest s).1 = proj s) ->
  forall s, status_of (use applies middleware rest s).2 <> Some 200 ->
            proj (use applies middleware rest s).1 = proj s.
Proof.
  intros Hmw Hrest s. unfold use. destruct applies; [|apply Hrest].
  specialize (Hmw s). destruct (middleware s) as [s' [st b|hs]]; simpl in *; [done|].
  intros Hst. rewrite <- Hmw. by apply Hrest.
Qed.

Lemma stateless_passed {S} (o : outcome) (s s' : S) hs :
  stateless o s = (s', Next hs) -> s' = s /\ o = Next hs.
Proof. by intros [= -> ->]. Qed.

(** One stage of a chain that answered 200: first that the middleware
    never answers 200, then what passing it gave. *)
Ltac pass Hst s' Hmw :=
  let Heq := fresh "Heq" in
  let Hno := fresh "Hno" in
  match type of Hst with
  | status_of (use ?a ?mw ?rest ?s).2 = Some 200 =>
      assert (forall st b, (mw s).2 = Reply st b -> st <> 200) as Hno;
      [|destruct (use_passed a mw rest s Hno Hst) as (s' & Heq & Hmw);
        rewrite Heq in Hst |- *; clear Heq Hno]
  end.

End MountFacts.

(** ** [GET /api/predictions]: order and filters, and the pending count of
    the statistics *)

Module ListingOrderFacts.
Import DB DBSpec Listing Queries QueriesSpec DBFacts ListingFacts.

Lemma le_of_compare a b : String.compare a b <> Gt -> String.le a b.
Proof. unfold String.le, String.leb. by destruct (String.compare a b). Qed.

Lemma ge_of_compare a b : String.compare a b <> Lt -> String.le b a.
Proof.
  intros H. apply le_of_compare. rewrite String.compare_antisym.
  by destruct (String.compare a b).
Qed.

Lemma newest_first_insert r l : newest_first l -> newest_first (insert_desc r l).
Proof.
  induction l as [|x l IH]; simpl; [by repeat constructor|]. intros [Hx Hl].
  destruct (String.compare (Predictions.created_at (Listing.prediction x))
              (Predictions.created_at (Listing.prediction r))) eqn:Hc; simpl.
  - split; [|by apply IH]. apply List.Forall_forall.
    intros y [-> | Hy]%in_insert_desc; [apply ge_of_compare; congruence|].
    by apply (proj1 (List.Forall_forall _ _) Hx).
  - split; [|done]. constructor; [apply le_of_compare; congruence|].
    eapply Forall_impl; [exact Hx|]. simpl. intros y Hy.
    transitivity (Predictions.created_at (Listing.prediction x)); [done|].
    apply le_of_compare. congruence.
  - split; [|by apply IH]. apply List.Forall_forall.
    intros y [-> | Hy]%in_insert_desc; [apply ge_of_compare; congruence|].
    by apply (proj1 (List.Forall_forall _ _) Hx).
Qed.

Lemma newest_first_order l : newest_first (order_by_created_desc l).
Proof.
  unfold order_by_created_desc. induction l as [|x l IH]; simpl; [done|].
  by apply newest_first_insert.
Qed.

Lemma newest_first_filter f l : newest_first l -> newest_first (List.filter f l).
Proof.
  induction l as [|x l IH]; simpl; [done|]. intros [Hx Hl].
  destruct (f x); [|by apply IH]. simpl. split; [|by apply IH].
  apply List.Forall_forall. intros y [Hy _]%filter_In.
  by apply (proj1 (List.Forall_forall _ _) Hx).
Qed.

(** X19. [GET /api/predictions] lists newest first: no row of the answer
    comes before a row whose prediction was created later, whatever the
    category and status filters. *)
Theorem listing_newest_first today db category status :
  newest_first (get_predictions today db category status).
Proof.
  unfold get_predictions. cbv zeta.
  destruct (given status) as [st|].
  - apply newest_first_filter, newest_first_order.
  - apply newest_first_order.
Qed.

(** X20. The filters of [GET /api/predictions] select exactly: a row is in
    the answer if and only if it is the row of a joined prediction that has
    the requested category, when one is given and not empty, and whose
    derived status is the requested status, when one is given and not
    empty. *)
Theorem listing_filters_select today db category status r :
  In r (get_predictions today db category status) <->
  exists p v,
    In (p, v) (left_join db) /\ r = select_row today (p, v) /\
    (forall c, given category = Some c -> Predictions.category p = SText c) /\
    (forall st, given status = Some st -> verification_status r = st).
Proof.
  unfold get_predictions. cbv zeta.
  assert (forall l,
            In r (order_by_created_desc (List.map (select_row today) l)) <->
            exists p v, In (p, v) l /\ r = select_row today (p, v)) as Hrows.
  { intros l. rewrite in_order_by_created_desc, in_map_iff. split.
    - intros ([p v] & <- & Hin). eauto.
    - intros (p & v & Hin & ->). by exists (p, v). }
  assert (forall p v,
            In (p, v) match given category with
                      | Some c =>
                          List.filter
                            (fun pv => bool_decide (Predictions.category pv.1 = SText c))
                            (left_join db)
                      | None => left_join db
                      end <->
            In (p, v) (left_join db) /\
            (forall c, given category = Some c -> Predictions.category p = SText c))
    as Hcat.
  { intros p v. destruct (given category) as [c|].
    - rewrite filter_In. simpl. rewrite bool_decide_eq_true. split.
      + intros [Hin Hc]. split; [done|]. by intros ? [= <-].
      + intros [Hin Hc]. split; [done|]. by apply Hc.
    - split; [intros Hin; split; [done | by intros ? [=]] | by intros [Hin _]]. }
  destruct (given status) as [st|].
  - rewrite filter_In, Hrows. split.
    + intros [(p & v & Hin & ->) Hst]. apply String.eqb_eq in Hst.
      apply Hcat in Hin as [Hin Hc]. exists p, v.
      split; [done|]. split; [done|]. split; [done|]. by intros ? [= <-].
    + intros (p & v & Hin & -> & Hc & Hst). split.
      * exists p, v. split; [|done]. apply Hcat. by split.
      * apply String.eqb_eq. by apply Hst.
  - rewrite Hrows. split.
    + intros (p & v & Hin & ->). apply Hcat in Hin as [Hin Hc]. exists p, v.
      split; [done|]. split; [done|]. split; [done|]. by intros ? [=].
    + intros (p & v & Hin & -> & Hc & _). exists p, v. split; [|done].
      apply Hcat. by split.
Qed.

(** *** Counting *)

Lemma count_insert_desc f r l :
  length (List.filter f (insert_desc r l)) = length (List.filter f (r :: l)).
Proof.
  induction l as [|x l IH]; [done|]. simpl insert_desc.
  destruct (String.compare _ _); try done;
    simpl in *; destruct (f x), (f r); simpl in *; lia.
Qed.

Lemma count_order f l :
  length (List.filter f (order_by_created_desc l)) = length (List.filter f l).
Proof.
  unfold order_by_created_desc. induction l as [|x l IH]; [done|].
  simpl foldr. rewrite count_insert_desc. simpl. destruct (f x); simpl; lia.
Qed.

Lemma filter_map {A B} (f : B -> bool) (g : A -> B) l :
  List.filter f (List.map g l) = List.map g (List.filter (fun x => f (g x)) l).
Proof.
  induction l as [|x l IH]; simpl; [done|]. destruct (f (g x)); simpl; by rewrite IH.
Qed.

Lemma length_filter_split {A} (f : A -> bool) l :
  length l = (length (List.filter f l) + length (List.filter (fun x => negb (f x)) l))%nat.
Proof. induction l as [|x l IH]; simpl; [done|]. destruct (f x); simpl; lia. Qed.

Lemma NoDup_map_filter {A B} (g : A -> B) (f : A -> bool) l :
  NoDup (List.map g l) -> NoDup (List.map g (List.filter f l)).
Proof.
  induction l as [|x l IH]; simpl; [done|].
  intros [Hx Hl]%NoDup_cons. destruct (f x); simpl; [|by apply IH].
  apply NoDup_cons. split; [|by apply IH].
  intros Hin. apply Hx. apply list_elem_of_In, in_map_iff in Hin as (y & Hy & Hin).
  apply list_elem_of_In, in_map_iff. exists y. split; [done|].
  by apply filter_In in Hin as [? _].
Qed.

Lemma filter_nil_existsb {A} (f : A -> bool) l :
  List.filter f l = [] <-> existsb f l = false.
Proof.
  induction l as [|x l IH]; simpl; [done|]. destruct (f x); simpl; [done|]. exact IH.
Qed.

(** The joined rows without a verification are the predictions without
    one, each once. *)
Lemma count_unverified_join (vs : list Verifications.row) ps :
  length
    (List.filter (fun pv => negb (bool_decide (is_Some (snd pv))))
       (flat_map
          (fun p : Predictions.row =>
             match List.filter
                     (fun v => Predictions.id p =? Verifications.prediction_id v) vs with
             | [] => [(p, None)]
             | ws => List.map (fun v => (p, Some v)) ws
             end) ps))
  = length
      (List.filter
         (fun p : Predictions.row =>
            negb (existsb (fun v => Predictions.id p =? Verifications.prediction_id v) vs))
         ps).
Proof.
  induction ps as [|p ps IH]; [done|].
  cbn [flat_map]. rewrite List.filter_app, length_app, IH. cbn [List.filter].
  destruct (List.filter (fun v => Predictions.id p =? Verifications.prediction_id v) vs)
    as [|w ws] eqn:Hf.
  - apply filter_nil_existsb in Hf. rewrite Hf. simpl. lia.
  - assert (existsb (fun v => Predictions.id p =? Verifications.prediction_id v) vs = true)
      as ->.
    { destruct (existsb _ vs) eqn:He; [done|].
      apply filter_nil_existsb in He. congruence. }
    assert (forall l : list Verifications.row,
              List.filter (fun pv : Predictions.row * option Verifications.row =>
                             negb (bool_decide (is_Some (snd pv))))
                (List.map (fun v => (p, Some v)) l) = []) as ->.
    { induction l as [|w' l IHl]; [done|]. simpl. exact IHl. }
    simpl. lia.
Qed.

Lemma count_unverified_rows db :
  length (List.filter (fun pv => negb (bool_decide (is_Some (snd pv)))) (left_join db))
  = length (List.filter (fun p => negb (verified_in db p)) (predictions db)).
Proof. apply count_unverified_join. Qed.

(** With one verification at most per prediction, there are as many
    verified predictions as verifications. *)
Lemma count_verified db :
  consistent db -> verified_once db ->
  length (List.filter (verified_in db) (predictions db)) = length (verifications db).
Proof.
  intros (_ & _ & Hp & Hnp & Hv & _) Honce.
  rewrite <- (length_map Predictions.id (List.filter _ _)).
  rewrite <- (length_map Verifications.prediction_id (verifications db)).
  apply Permutation_length, NoDup_Permutation.
  - by apply NoDup_map_filter.
  - exact Honce.
  - intros k. rewrite !list_elem_of_In, !in_map_iff. split.
    + intros (p & <- & [Hin Hver]%filter_In).
      apply existsb_exists in Hver as (v & Hvin & Heq). exists v.
      split; [lia | done].
    + intros (v & <- & Hvin). destruct (Hv v Hvin) as [_ Hex].
      apply prediction_exists_In in Hex as (p & Hpin & Hpk). exists p.
      split; [done|]. apply filter_In. split; [done|].
      apply existsb_exists. exists v. split; [done|]. lia.
Qed.

(** X21. With the database consistent and no prediction verified twice,
    as [index.tsx] keeps it, the [pendingPredictions] of the statistics is
    the number of rows the unfiltered listing shows as pending or overdue. *)
Theorem pending_counts_open_rows today db :
  consistent db ->
  verified_once db ->
  pendingPredictions (get_stats db)
  = Z.of_nat (length (open_rows (get_predictions today db None None))).
Proof.
  intros Hc Honce. unfold get_stats, open_rows, get_predictions. simpl.
  rewrite count_order, filter_map, length_map.
  rewrite (List.filter_ext _
             (fun pv => negb (bool_decide (is_Some (snd pv))))).
  - rewrite count_unverified_rows.
    rewrite (length_filter_split (verified_in db) (predictions db)).
    rewrite (count_verified db Hc Honce). lia.
  - intros [p [w|]]; simpl; [done|].
    by destruct (negb (is_null (Predictions.target_date p)) && _).
Qed.

Section Handlers.

Variable compare_string_number : string -> Z -> option comparison.

(** X22. The handlers of [index.tsx] never give a prediction a second
    verification: if no prediction has more than one before a request, none
    has after it. *)
Theorem index_verifies_once stamp db predictionId body :
  verified_once db ->
  verified_once (App.post_predictions compare_string_number stamp db body).1 /\
  verified_once (App.post_verify compare_string_number stamp db predictionId body).1.
Proof.
  intros Honce. split.
  - destruct (index_post_predictions_result compare_string_number stamp db body)
      as [[-> _] | (vals & k & Hins & _)]; [done|].
    apply insert_prediction_appends in Hins
      as (n & t & p & td & tds & c & cf & u & nt & _ & _ & ->).
    done.
  - unfold App.post_verify.
    destruct (match parseInt_string predictionId with
              | Some n => n <=? 0 | None => true end); [done|].
    destruct body as [data|]; [|done].
    destruct (negb (truthy (prop data "outcome")) || _ || _); [done|].
    destruct (negb (includes App.validOutcomes _)); [done|].
    destruct (truthy (prop data "confidence_score") && _); [done|].
    destruct (select_prediction_id db predictionId); [|done].
    destruct (select_verification_id db predictionId) eqn:Hsel; [done|].
    destruct (insert_verification db stamp _) as [[k db']|] eqn:Hins; [|done].
    simpl.
    apply insert_verification_appends in Hins
      as (pid & o & d & u & b & sc & nt & pk & Hbind & Hpid & _ & _ & ->).
    apply bind_all_cons in Hbind as [[= <-] _]. simpl in Hpid.
    unfold select_verification_id in Hsel.
    destruct (sql_integer predictionId) as [k'|]; [|done].
    injection Hpid as ->.
    destruct (List.find _ (verifications db)) as [w|] eqn:Hfind; [done|].
    unfold verified_once, with_verification. simpl.
    rewrite map_app. apply NoDup_app. split; [done|].
    split; [|apply NoDup_singleton].
    intros x Hx ->%list_elem_of_singleton.
    apply list_elem_of_In, in_map_iff in Hx as (v & Hvk & Hin).
    apply (find_none _ _ Hfind) in Hin. simpl in *. lia.
Qed.

End Handlers.

End ListingOrderFacts.

(** ** [index.tsx]: the limiters and the middleware in front of
    [POST /api/predictions] *)

Module RoutesFacts.
Import Security Guards Routes GuardsSpec ScanSpec RoutesSpec.

(** The limiter, as a function of the record it finds. *)
Lemma rateLimiter_running cfg c now store r :
  store !! keyGenerator cfg c = Some r ->
  now < resetTime r ->
  rateLimiter cfg c now store =
    (<[keyGenerator cfg c := {| count := count r + 1; resetTime := resetTime r |}]> store,
     if maxRequests cfg <? count r + 1
     then Reply 429 [ ("error", JStr "Rate limit exceeded");
                      ("message", JStr "Too many requests. Please try again later.");
                      ("retryAfter", JNum (resetTime r - now)) ]
     else Next [ ("X-RateLimit-Limit", pretty (maxRequests cfg));
                 ("X-RateLimit-Remaining",
                  pretty (Z.max 0 (maxRequests cfg - (count r + 1)))) ]).
Proof.
  intros Hr Hnow. unfold rateLimiter. rewrite Hr.
  assert ((resetTime r <=? now) = false) as -> by (apply Z.leb_gt; lia).
  simpl. by destruct (maxRequests cfg <? count r + 1).
Qed.

Lemma rateLimiter_opening cfg c now store :
  (store !! keyGenerator cfg c = None \/
   exists r, store !! keyGenerator cfg c = Some r /\ resetTime r <= now) ->
  rateLimiter cfg c now store =
    (<[keyGenerator cfg c := {| count := 1; resetTime := now + windowMs cfg |}]> store,
     if maxRequests cfg <? 1
     then Reply 429 [ ("error", JStr "Rate limit exceeded");
                      ("message", JStr "Too many requests. Please try again later.");
                      ("retryAfter", JNum (now + windowMs cfg - now)) ]
     else Next [ ("X-RateLimit-Limit", pretty (maxRequests cfg));
                 ("X-RateLimit-Remaining", pretty (Z.max 0 (maxRequests cfg - 1))) ]).
Proof.
  intros [Hr | (r & Hr & Hnow)]; unfold rateLimiter; rewrite Hr;
    [|assert ((resetTime r <=? now) = true) as -> by (apply Z.leb_le; lia)];
    cbn [count resetTime]; change (0 + 1) with 1;
    by destruct (maxRequests cfg <? 1).
Qed.

(** A POST that finds a running record with count [n] leaves it at [n + 3],
    and is let through only when [n + 3] is within every ceiling. *)
Lemma post_limiters_running c clock store r :
  store !! default_key c = Some r ->
  before clock (resetTime r) ->
  (3 <= count r -> status_of (post_limiters c clock store).2 = Some 429) /\
  (passes (post_limiters c clock store).2 ->
   (post_limiters c clock store).1 !! default_key c
   = Some {| count := count r + 3; resetTime := resetTime r |}).
Proof.
  intros Hr (H1 & H2 & H3). unfold post_limiters.
  rewrite (rateLimiter_running App.browsingRateLimiter c _ store r Hr H1).
  change (keyGenerator App.browsingRateLimiter c) with (default_key c).
  change (maxRequests App.browsingRateLimiter) with 200.
  destruct (Z.ltb_spec 200 (count r + 1)) as [Hc1 | Hc1];
    [split; [done | by intros [? ?]]|].
  set (r1 := {| count := count r + 1; resetTime := resetTime r |}).
  rewrite (rateLimiter_running apiRateLimiter c _ _ r1)
    by (first [apply lookup_insert_eq | done]).
  change (keyGenerator apiRateLimiter c) with (default_key c).
  change (maxRequests apiRateLimiter) with 20. simpl count. simpl resetTime.
  destruct (Z.ltb_spec 20 (count r + 1 + 1)) as [Hc2 | Hc2];
    [split; [done | by intros [? ?]]|].
  set (r2 := {| count := count r + 1 + 1; resetTime := resetTime r |}).
  rewrite (rateLimiter_running postRateLimiter c _ _ r2)
    by (first [apply lookup_insert_eq | done]).
  change (keyGenerator postRateLimiter c) with (default_key c).
  change (maxRequests postRateLimiter) with 5. simpl count. simpl resetTime.
  destruct (Z.ltb_spec 5 (count r + 1 + 1 + 1)) as [Hc3 | Hc3]; simpl.
  - split; [done | by intros [? ?]].
  - split; [lia|]. intros _. rewrite lookup_insert_eq. do 2 f_equal. lia.
Qed.

Lemma post_limiters_opening c clock store :
  in_order clock ->
  (store !! default_key c = None \/
   exists r, store !! default_key c = Some r /\ resetTime r <= at_browsing clock) ->
  (post_limiters c clock store).1 !! default_key c
  = Some {| count := 3; resetTime := at_browsing clock + 15 * 60 * 1000 |} /\
  passes (post_limiters c clock store).2.
Proof.
  intros [Hord Hlate] Hr. unfold post_limiters.
  rewrite (rateLimiter_opening App.browsingRateLimiter c _ store Hr).
  change (keyGenerator App.browsingRateLimiter c) with (default_key c).
  change (maxRequests App.browsingRateLimiter) with 200.
  change (windowMs App.browsingRateLimiter) with (15 * 60 * 1000).
  change (200 <? 1) with false. cbv iota.
  set (r1 := {| count := 1; resetTime := at_browsing clock + 15 * 60 * 1000 |}).
  rewrite (rateLimiter_running apiRateLimiter c _ _ r1)
    by (first [apply lookup_insert_eq | simpl; lia]).
  change (keyGenerator apiRateLimiter c) with (default_key c).
  change (maxRequests apiRateLimiter <? count r1 + 1) with false. cbv iota.
  set (r2 := {| count := count r1 + 1; resetTime := resetTime r1 |}).
  rewrite (rateLimiter_running postRateLimiter c _ _ r2)
    by (first [apply lookup_insert_eq | simpl; lia]).
  change (keyGenerator postRateLimiter c) with (default_key c).
  change (maxRequests postRateLimiter <? count r2 + 1) with false. cbv iota.
  split; [|by eexists]. simpl. by rewrite lookup_insert_eq.
Qed.

(** X11. In [index.tsx] the three limiters in front of
    [POST /api/predictions] count on one record, so a submission costs three
    counts of the ceiling of five: once a submission was let through, every
    further one of the same client is answered 429 until the record's reset
    time, and that time is fifteen minutes after the record was opened (the
    window of the browsing limiter), not the ten minutes of
    [postRateLimiter]. *)
Theorem one_submission_per_window c clock store :
  let result := post_limiters c clock store in
  counts_from_zero store ->
  in_order clock ->
  steady clock store c ->
  passes result.2 ->
  exists r', result.1 !! default_key c = Some r' /\
    at_post clock < resetTime r' /\
    (store !! default_key c = None ->
     resetTime r' = at_browsing clock + 15 * 60 * 1000) /\
    forall clock', before clock' (resetTime r') ->
      status_of (post_limiters c clock' result.1).2 = Some 429.
Proof.
  intros result Hpos Hord Hsteady Hpass. subst result.
  pose proof Hord as [Hinc Hlate].
  destruct (store !! default_key c) as [r|] eqn:Hr;
    [destruct (Hsteady r Hr) as [Hold | Hrun]|].
  - destruct (post_limiters_opening c clock store Hord) as [Hrec _]; [right; eauto|].
    eexists. split; [exact Hrec|]. simpl. split; [lia|]. split; [done|].
    intros clock' Hnow'.
    by apply (post_limiters_running c clock' _ _ Hrec Hnow').
  - assert (before clock (resetTime r)) as Hbefore by (unfold before; lia).
    destruct (post_limiters_running c clock store r Hr Hbefore) as [_ Hrec].
    specialize (Hrec Hpass). specialize (Hpos _ _ Hr).
    eexists. split; [exact Hrec|]. simpl. split; [lia|]. split; [done|].
    intros clock' Hnow'.
    apply (post_limiters_running c clock' _ _ Hrec Hnow'). simpl. lia.
  - destruct (post_limiters_opening c clock store Hord) as [Hrec _]; [by left|].
    eexists. split; [exact Hrec|]. simpl. split; [lia|]. split; [done|].
    intros clock' Hnow'.
    by apply (post_limiters_running c clock' _ _ Hrec Hnow').
Qed.

Lemma one_submission_per_window_witness :
  exists r',
    (post_limiters browser_post (served_at 0) ∅).1 !! default_key browser_post = Some r' /\
    at_post (served_at 0) < resetTime r' /\
    ((∅ : Store) !! default_key browser_post = None ->
     resetTime r' = at_browsing (served_at 0) + 15 * 60 * 1000) /\
    forall clock', before clock' (resetTime r') ->
      status_of
        (post_limiters browser_post clock'
           (post_limiters browser_post (served_at 0) ∅).1).2
      = Some 429.
Proof.
  apply (one_submission_per_window browser_post (served_at 0) ∅).
  - intros k r Hk. by rewrite lookup_empty in Hk.
  - unfold in_order. simpl. lia.
  - intros r Hr. by rewrite lookup_empty in Hr.
  - by eexists.
Defined.

(** *** One limiter along a run *)

Lemma limiter_step cfg c t0 j now store :
  0 <= j ->
  t0 <= now < t0 + windowMs cfg ->
  LimiterSpec.record_after cfg t0 j (store !! keyGenerator cfg c) ->
  let result := rateLimiter cfg c now store in
  LimiterSpec.record_after cfg t0 (j + 1) (result.1 !! keyGenerator cfg c) /\
  (j < maxRequests cfg -> passes result.2) /\
  (maxRequests cfg <= j -> status_of result.2 = Some 429).
Proof.
  intros Hj Hnow Hinv result. subst result. unfold LimiterSpec.record_after in *.
  assert ((j + 1 =? 0) = false) as -> by (apply Z.eqb_neq; lia).
  destruct (Z.eqb_spec j 0) as [-> | Hj0].
  - rewrite rateLimiter_opening
      by (destruct Hinv as [? | (r & ? & ?)]; [by left | right; exists r; split; [done | lia]]).
    simpl. split.
    + eexists. split; [apply lookup_insert_eq|]. simpl. split; [done | lia].
    + destruct (Z.ltb_spec (maxRequests cfg) 1); split; try lia; try done.
      intros _. by eexists.
  - destruct Hinv as (r & Hr & Hcount & Hreset).
    rewrite (rateLimiter_running cfg c now store r Hr) by lia.
    simpl. split.
    + eexists. split; [apply lookup_insert_eq|]. simpl. split; [lia | done].
    + rewrite Hcount.
      destruct (Z.ltb_spec (maxRequests cfg) (j + 1)); split; try lia; try done.
      intros _. by eexists.
Qed.

Lemma limiter_run cfg c t0 times :
  (forall t, In t times -> t0 <= t < t0 + windowMs cfg) ->
  forall store j, 0 <= j ->
    LimiterSpec.record_after cfg t0 j (store !! keyGenerator cfg c) ->
    forall i o, LimiterSpec.serve cfg c times store !! i = Some o ->
      (j + Z.of_nat i < maxRequests cfg -> passes o) /\
      (maxRequests cfg <= j + Z.of_nat i -> status_of o = Some 429).
Proof.
  induction times as [|now rest IH]; intros Htimes store j Hj Hinv i o Hi; [done|].
  simpl in Hi.
  destruct (limiter_step cfg c t0 j now store Hj (Htimes now (or_introl eq_refl)) Hinv)
    as [Hinv' Hpass].
  destruct i as [|i]; simpl in Hi.
  - injection Hi as <-. by rewrite Z.add_0_r.
  - assert (0 <= j + 1) as Hj' by lia.
    assert (forall t, In t rest -> t0 <= t < t0 + windowMs cfg) as Hrest
      by (intros t Ht; apply Htimes; by right).
    specialize (IH Hrest _ (j + 1) Hj' Hinv' i o Hi).
    replace (j + Z.of_nat (S i)) with (j + 1 + Z.of_nat i) by lia. done.
Qed.

(** X24. A limiter of [security.ts] lets through its ceiling and no more
    per window: of the requests a client sends within one window length,
    starting without a running record, the first [maxRequests] are let
    through and every later one is answered 429. *)
Theorem limiter_window_quota cfg c t0 times store :
  (store !! keyGenerator cfg c = None \/
   exists r, store !! keyGenerator cfg c = Some r /\ resetTime r <= t0) ->
  (forall t, In t times -> t0 <= t < t0 + windowMs cfg) ->
  forall i o, LimiterSpec.serve cfg c times store !! i = Some o ->
    (Z.of_nat i < maxRequests cfg -> passes o) /\
    (maxRequests cfg <= Z.of_nat i -> status_of o = Some 429).
Proof.
  intros Hnew Htimes i o Hi.
  assert (0 <= 0) as Hj by lia.
  pose proof (limiter_run cfg c t0 times Htimes store 0 Hj Hnew i o Hi) as H.
  by rewrite Z.add_0_l in H.
Qed.

Lemma limiter_window_quota_witness :
  exists o5 o6,
    LimiterSpec.serve postRateLimiter browser_post [0; 1000; 2000; 3000; 4000; 5000] ∅
      !! 4%nat = Some o5 /\
    LimiterSpec.serve postRateLimiter browser_post [0; 1000; 2000; 3000; 4000; 5000] ∅
      !! 5%nat = Some o6 /\
    passes o5 /\ status_of o6 = Some 429.
Proof.
  assert (forall i o,
            LimiterSpec.serve postRateLimiter browser_post
              [0; 1000; 2000; 3000; 4000; 5000] ∅ !! i = Some o ->
            (Z.of_nat i < maxRequests postRateLimiter -> passes o) /\
            (maxRequests postRateLimiter <= Z.of_nat i -> status_of o = Some 429)) as H.
  { apply (limiter_window_quota postRateLimiter browser_post 0).
    - by left.
    - intros t Hin. simpl in Hin.
      repeat (destruct Hin as [<- | Hin]; [simpl; lia|]). done. }
  eexists _, _. split; [reflexivity|]. split; [reflexivity|]. split.
  - apply (H 4%nat); [reflexivity | simpl; lia].
  - apply (H 5%nat); [reflexivity | simpl; lia].
Defined.

(** *** The middleware in front of the handler *)

Lemma botDetection_passed c x score :
  passes (botDetection c x score) ->
  (10 <= String.length (header_or (User_Agent (headers c)) ""))%nat.
Proof.
  unfold botDetection, passes.
  destruct (existsb _ suspiciousUserAgents && _); [by intros [? ?]|].
  destruct (String.eqb _ "" || _) eqn:Hshort; [by intros [? ?]|].
  intros _. apply orb_false_iff in Hshort as [_ Hlen].
  apply Nat.ltb_ge in Hlen. exact Hlen.
Qed.

Lemma botDetection_replies c x score st b :
  botDetection c x score = Reply st b -> st = 403.
Proof.
  unfold botDetection.
  repeat first [ match goal with
                 | |- context [if ?b then _ else _] => destruct b
                 end
               | case_match ]; by intros [= <- _].
Qed.

Lemma behaviorAnalysis_replies c path now store store' st b :
  behaviorAnalysis c path now store = (store', Reply st b) -> st = 429.
Proof.
  unfold behaviorAnalysis.
  repeat match goal with
         | |- context [if ?b then _ else _] => destruct b
         end; by intros [= _ <- _].
Qed.

Lemma rateLimiter_replies cfg c now store store' st b :
  rateLimiter cfg c now store = (store', Reply st b) -> st = 429.
Proof.
  unfold rateLimiter.
  repeat match goal with
         | |- context [if ?b then _ else _] => destruct b
         end; by intros [= _ <- _].
Qed.

Lemma requestSizeLimit_replies maxSize c st b :
  Guards.requestSizeLimit maxSize c = Reply st b -> st = 413.
Proof.
  unfold Guards.requestSizeLimit.
  destruct (Content_Length (headers c)); [|done].
  destruct (negb _ && _); [|done]. by intros [= <- _].
Qed.

Lemma validateInput_replies c parsed st b :
  validateInput c parsed = Reply st b -> st = 400.
Proof.
  unfold validateInput.
  repeat first [ match goal with
                 | |- context [if ?b then _ else _] => destruct b
                 end
               | case_match ]; by intros [= <- _].
Qed.

Lemma validateHoneypot_replies c st b :
  validateHoneypot c = Reply st b -> st = 403.
Proof.
  unfold validateHoneypot.
  repeat first [ match goal with
                 | |- context [if ?b then _ else _] => destruct b
                 end
               | case_match ]; by intros [= <- _].
Qed.

Lemma validateHoneypot_passed c b :
  method c = "POST" -> body c = Some b ->
  passes (validateHoneypot c) ->
  truthy (prop b "website") = false /\ truthy (prop b "phone") = false /\
  truthy (prop b "address") = false.
Proof.
  intros Hm Hb. unfold validateHoneypot, passes. rewrite Hm, Hb. simpl.
  destruct (truthy (prop b "website")), (truthy (prop b "phone")),
    (truthy (prop b "address")); simpl; try (by intros [? ?]); done.
Qed.

Section Route.

Variable mounted : string -> string -> bool.
Variable compare_string_number : string -> Z -> option comparison.

Lemma index_post_predictions_stored stamp db body :
  let result := App.post_predictions compare_string_number stamp db body in
  status_of result.2 = Some 200 ->
  exists b row,
    body = Some b /\
    truthy (prop b "predictor_name") = true /\
    truthy (prop b "prediction_text") = true /\
    truthy (prop b "predicted_date") = true /\
    result.1 = DBSpec.with_prediction db row.
Proof.
  intros result. subst result. unfold App.post_predictions.
  destruct body as [b|]; [|done].
  destruct (truthy (prop b "predictor_name")) eqn:Hn; [|done].
  destruct (truthy (prop b "prediction_text")) eqn:Ht; [|done].
  destruct (truthy (prop b "predicted_date")) eqn:Hd; [|done]. simpl.
  destruct (truthy (prop b "confidence_level") && _); [done|].
  destruct (DB.insert_prediction db stamp _) as [[k db']|] eqn:Hins; [|done].
  simpl. intros _.
  apply DBFacts.insert_prediction_appends in Hins
    as (n & t & p & td & tds & c & cf & u & nt & _ & _ & ->).
  eexists b, _. split; [done|]. split; [done|]. split; [done|]. split; [done|].
  reflexivity.
Qed.

Lemma on_limits_passed f s s' hs :
  on_limits f s = (s', Next hs) ->
  db s' = db s /\ activities s' = activities s.
Proof. unfold on_limits. destruct (f (limits s)). by intros [= <- _]. Qed.

Lemma on_limits_replies cfg c now s st b :
  (on_limits (rateLimiter cfg c now) s).2 = Reply st b -> st <> 200.
Proof.
  unfold on_limits.
  destruct (rateLimiter cfg c now (limits s)) as [lim o] eqn:Hl. simpl.
  intros ->. apply rateLimiter_replies in Hl as ->. lia.
Qed.

Lemma on_limits_keeps_db f s : db (on_limits f s).1 = db s.
Proof. unfold on_limits. by destruct (f (limits s)). Qed.

Lemma on_activities_keeps_db f s : db (on_activities f s).1 = db s.
Proof. unfold on_activities. by destruct (f (activities s)). Qed.

Lemma on_activities_passed f s s' hs :
  on_activities f s = (s', Next hs) -> db s' = db s.
Proof. unfold on_activities. destruct (f (activities s)). by intros [= <- _]. Qed.

(** X23. [index.tsx] stores a prediction only for a request that passed
    the middleware in front of the handler: whenever
    [POST /api/predictions] answers 200, the User-Agent has at least ten
    characters, the body parsed and holds no dangerous string at any
    depth, the honeypot fields are empty if the router runs the middleware
    mounted under [/api/predictions*] for the path, the three required
    fields are filled, and exactly one row was added; with any other
    answer the database is as it was. *)
Theorem stored_only_after_every_check i clock stamp s :
  let result := post_predictions mounted compare_string_number i clock stamp s in
  method (request i) = "POST" ->
  mounted "*" (path i) = true ->
  (status_of result.2 <> Some 200 -> db result.1 = db s) /\
  (status_of result.2 = Some 200 ->
     (10 <= String.length (header_or (User_Agent (headers (request i))) ""))%nat /\
     exists body b row,
       json i = Normal body /\ properties body = Some b /\
       (forall str, holds_string str body -> dangerous str = false) /\
       (mounted "/api/predictions*" (path i) = true ->
        truthy (prop b "website") = false /\
        truthy (prop b "phone") = false /\
        truthy (prop b "address") = false) /\
       truthy (prop b "predictor_name") = true /\
       truthy (prop b "prediction_text") = true /\
       truthy (prop b "predicted_date") = true /\
       db result.1 = DBSpec.with_prediction (db s) row).
Proof.
  intros result Hm Hstar. subst result. unfold post_predictions. cbv zeta.
  rewrite !Hstar.
  assert (method (with_body i) = "POST") as Hm' by done.
  split.
  - revert s.
    repeat (apply (MountFacts.use_keeps db);
            [intros s;
             first [ reflexivity | apply on_limits_keeps_db
                   | apply on_activities_keeps_db ]|]).
    intros s. unfold on_db.
    pose proof (DBFacts.index_post_predictions_result compare_string_number stamp (db s)
                  (body (with_body i))) as Hres.
    destruct (App.post_predictions _ _ _ _) as [db' answer].
    simpl in Hres |- *. intros Hne.
    destruct Hres as [[Hdb _] | (vals & k & _ & ->)]; [done|by destruct Hne].
  - intros Hst.
    (* botDetection *)
    MountFacts.pass Hst s1 Hs1;
      [simpl; intros st b Hr; apply botDetection_replies in Hr as ->; lia|].
    destruct Hs1 as [hs1 [-> Hbot]%MountFacts.stateless_passed].
    assert (passes (botDetection (with_body i) (x_originating_ip i) (botScore i))) as Hua
      by (by eexists).
    apply botDetection_passed in Hua. split; [exact Hua|].
    (* behaviorAnalysis *)
    MountFacts.pass Hst s2 Hs2;
      [unfold on_activities; intros st b;
       destruct (behaviorAnalysis _ _ _ _) as [acts o] eqn:Hb; simpl; intros ->;
       apply behaviorAnalysis_replies in Hb as ->; lia|].
    destruct Hs2 as [hs2 Hdb2%on_activities_passed].
    (* the browsing limiter *)
    MountFacts.pass Hst s3 Hs3; [apply on_limits_replies|].
    destruct Hs3 as [hs3 [Hdb3 _]%on_limits_passed].
    (* the API limiter *)
    MountFacts.pass Hst s4 Hs4; [apply on_limits_replies|].
    assert (db s4 = db s) as Hdb4.
    { destruct (mounted "/api/*" (path i)).
      - destruct Hs4 as [hs4 [Hdb4 _]%on_limits_passed]. congruence.
      - subst s4. congruence. }
    (* requestSizeLimit *)
    MountFacts.pass Hst s5 Hs5;
      [simpl; intros st b Hr; apply requestSizeLimit_replies in Hr as ->; lia|].
    assert (db s5 = db s) as Hdb5.
    { destruct (mounted "/api/*" (path i)); [|by subst s5].
      by destruct Hs5 as [hs5 [-> _]%MountFacts.stateless_passed]. }
    (* validateInput *)
    MountFacts.pass Hst s6 Hs6;
      [simpl; intros st b Hr; apply validateInput_replies in Hr as ->; lia|].
    destruct Hs6 as [hs6 [-> Hscan]%MountFacts.stateless_passed].
    destruct (GuardsFacts.validateInput_passed (with_body i) (json i) Hm')
      as (v & Hv & Hsafe); [rewrite Hscan; by eexists|].
    (* validateHoneypot *)
    MountFacts.pass Hst s7 Hs7;
      [simpl; intros st b Hr; apply validateHoneypot_replies in Hr as ->; lia|].
    assert (db s7 = db s) as Hdb7.
    { destruct (mounted "/api/predictions*" (path i)); [|by subst s7].
      by destruct Hs7 as [hs7 [-> _]%MountFacts.stateless_passed]. }
    (* postRateLimiter *)
    MountFacts.pass Hst s8 Hs8; [apply on_limits_replies|].
    destruct Hs8 as [hs8 [Hdb8 _]%on_limits_passed].
    (* the handler *)
    unfold on_db in *.
    pose proof (index_post_predictions_stored stamp (db s8) (body (with_body i))) as Hstored.
    destruct (App.post_predictions _ _ _ _) as [db' answer]. simpl in Hst, Hstored. simpl.
    destruct (Hstored Hst) as (b & row & Hb & Hn & Ht & Hd & ->).
    exists v, b, row. rewrite Hv in Hb. simpl in Hb.
    split; [done|]. split; [done|]. split; [done|]. split.
    { intros Hpot. rewrite Hpot in Hs7. destruct Hs7 as [hs7 [_ Hp]%MountFacts.stateless_passed].
      apply (validateHoneypot_passed (with_body i) b Hm').
      - simpl. by rewrite Hv.
      - rewrite Hp. by eexists. }
    split; [done|]. split; [done|]. split; [done|].
    f_equal. congruence.
Qed.

End Route.

Lemma stored_only_after_every_check_witness :
  status_of first_submission.2 = Some 200 /\
  (10 <= String.length (header_or (User_Agent (headers (request submission))) ""))%nat /\
  exists body b row,
    json submission = Normal body /\ properties body = Some b /\
    (forall str, holds_string str body -> dangerous str = false) /\
    (router "/api/predictions*" (path submission) = true ->
     truthy (prop b "website") = false /\
     truthy (prop b "phone") = false /\
     truthy (prop b "address") = false) /\
    truthy (prop b "predictor_name") = true /\
    truthy (prop b "prediction_text") = true /\
    truthy (prop b "predicted_date") = true /\
    db first_submission.1 = DBSpec.with_prediction (db idle) row.
Proof.
  split; [by vm_compute|].
  apply (stored_only_after_every_check router no_number submission (served_at 0)
           "2025-08-17 09:00:00" idle).
  - reflexivity.
  - reflexivity.
  - by vm_compute.
Defined.

End RoutesFacts.

(** ** The hardened revision: the middleware in front of
    [POST /api/predictions] *)

Module HardenedRoutesFacts.
Import Hardened HardenedGuards HardenedRoutes GuardsSpec ValidationSpec.

Lemma hardened_botDetection_replies h st b :
  botDetection h = Reply st b -> st = 403 \/ st = 400.
Proof.
  unfold botDetection.
  destruct (existsb _ BOT_PATTERNS); [intros [= <- _]; by left|].
  destruct (String.eqb _ ""); [intros [= <- _]; by right | done].
Qed.

Lemma hardened_rateLimiter_replies endpoint h now cleanup store store' st b :
  rateLimiter endpoint h now cleanup store = (store', Reply st b) -> st = 429.
Proof.
  unfold rateLimiter. destruct (active_block _ _); [by intros [= _ <- _]|].
  cbv zeta.
  repeat match goal with
         | |- context [if ?b then _ else _] => destruct b
         end; by intros [= _ <- _].
Qed.

Lemma hardened_requestSizeLimit_replies maxSize h st b :
  requestSizeLimit maxSize h = Reply st b -> st = 413.
Proof.
  unfold requestSizeLimit. destruct (Content_Length h); [|done].
  destruct (negb _ && _); [|done]. by intros [= <- _].
Qed.

Lemma hardened_on_limits_replies endpoint h now cleanup s st b :
  (on_limits (rateLimiter endpoint h now cleanup) s).2 = Reply st b -> st <> 200.
Proof.
  unfold on_limits.
  destruct (rateLimiter endpoint h now cleanup (limits s)) as [lim o] eqn:Hl. simpl.
  intros ->. apply hardened_rateLimiter_replies in Hl as ->. lia.
Qed.

Lemma hardened_on_limits_keeps_db f s : db (on_limits f s).1 = db s.
Proof. unfold on_limits. by destruct (f (limits s)). Qed.

Lemma hardened_on_limits_passed f s s' hs :
  on_limits f s = (s', Next hs) -> db s' = db s.
Proof. unfold on_limits. destruct (f (limits s)). by intros [= <- _]. Qed.

Section Route.

Variable mounted : string -> string -> bool.
Variable Date_time : jsval -> option Z.
Variable URL_protocol : string -> option string.

(** X25. The hardened revision stores a prediction only for a request that
    passed every check: where the router runs the middleware mounted under
    [*], whenever [POST /api/predictions] answers 200, the User-Agent is
    not blank and holds no bot word, the body fills no honeypot field and
    answers its CAPTCHA, it violates no rule of the validation, and exactly
    one row was added; with any other answer the database is as it was,
    and a request the bot detection turned away was not counted by any
    limiter. *)
Theorem hardened_stored_only_after_every_check h path body clock stamp s :
  let result :=
    post_predictions mounted Date_time URL_protocol h path body clock stamp s in
  let userAgent := header_or (User_Agent h) "" in
  mounted "*" path = true ->
  (status_of result.2 <> Some 200 -> db result.1 = db s) /\
  (~ passes (botDetection h) -> limits result.1 = limits s) /\
  (status_of result.2 = Some 200 ->
     all_spaces userAgent = false /\ ~ names_bot userAgent /\
     exists data row,
       body = Some data /\
       passes_bot_checks_prediction data /\
       violations Date_time URL_protocol (at_validation clock) data Hardened.prediction
         = [] /\
       db result.1 = DBSpec.with_prediction (db s) row).
Proof.
  intros result userAgent Hstar. subst result. unfold post_predictions. cbv zeta.
  rewrite !Hstar.
  split; [|split].
  - revert s.
    repeat (apply (MountFacts.use_keeps db);
            [intros s; first [ reflexivity | apply hardened_on_limits_keeps_db ]|]).
    intros s. unfold on_db.
    pose proof (DBFacts.hardened_post_predictions_result Date_time URL_protocol
                  (at_validation clock) stamp (db s) body) as Hres.
    destruct (HardenedApp.post_predictions _ _ _ _ _ _) as [db' answer].
    simpl in Hres |- *. intros Hne.
    destruct Hres as [[-> _] | (vals & k & _ & ->)]; [done|by destruct Hne].
  - intros Hno. unfold Mount.use at 1. unfold Mount.stateless at 1.
    destruct (botDetection h) as [st b|hs] eqn:Hbot; [done|].
    destruct Hno. by eexists.
  - intros Hst.
    (* botDetection *)
    MountFacts.pass Hst s1 Hs1;
      [simpl; intros st b [-> | ->]%hardened_botDetection_replies; lia|].
    destruct Hs1 as [hs1 [-> Hbot]%MountFacts.stateless_passed].
    assert (passes (botDetection h)) as Hua by (by eexists).
    apply HardenedGuardsFacts.hardened_botDetection_passed in Hua as [Hblank Hword].
    split; [done|]. split; [done|].
    (* the global limiter *)
    MountFacts.pass Hst s2 Hs2; [apply hardened_on_limits_replies|].
    destruct Hs2 as [hs2 Hdb2%hardened_on_limits_passed].
    (* requestSizeLimit *)
    MountFacts.pass Hst s3 Hs3;
      [simpl; intros st b Hr; apply hardened_requestSizeLimit_replies in Hr as ->; lia|].
    assert (db s3 = db s) as Hdb3.
    { destruct (mounted "/api/*" path); [|by subst s3].
      by destruct Hs3 as [hs3 [-> _]%MountFacts.stateless_passed]. }
    (* the limiter of the route *)
    MountFacts.pass Hst s4 Hs4; [apply hardened_on_limits_replies|].
    destruct Hs4 as [hs4 Hdb4%hardened_on_limits_passed].
    (* the handler *)
    unfold on_db in *.
    pose proof (HardenedRowFacts.hardened_accepted Date_time URL_protocol
                  (at_validation clock) stamp (db s4) body) as Hacc.
    destruct (HardenedApp.post_predictions _ _ _ _ _ _) as [db' answer] eqn:Hpost.
    simpl in Hacc, Hst. simpl.
    destruct (Hacc Hst) as (data & -> & Hchecks & Hrules).
    pose proof (HardenedRowFacts.hardened_row Date_time URL_protocol
                  (at_validation clock) stamp (db s4) data) as Hrow.
    cbv zeta in Hrow. rewrite Hpost in Hrow.
    destruct (Hrow Hst) as (row & [= -> _] & _).
    exists data, row. split; [done|]. split; [done|]. split; [done|].
    f_equal. congruence.
Qed.

End Route.

End HardenedRoutesFacts.

(** ** The theorems at the seed rows *)

Module ExampleFacts.
Import DB DBSpec Listing Queries QueriesSpec ListingSpec ExampleSpec EscapeSpec.

Lemma seed_consistent : consistent seed.
Proof.
  unfold consistent. simpl.
  split; [lia|]. split; [lia|]. split; [|split; [|split]].
  - intros p [<- | [<- | [<- | []]]]; simpl; lia.
  - apply (bool_decide_unpack _). by vm_compute.
  - intros v [<- | []]. simpl. split; [lia | done].
  - apply (bool_decide_unpack _). by vm_compute.
Qed.

Lemma seed_verified_once : verified_once seed.
Proof. unfold verified_once. simpl. apply NoDup_singleton. Qed.

Lemma handlers_keep_consistent_witness :
  consistent hardened_submission.1 /\
  consistent
    (HardenedApp.post_verify calendar ValidationSpec.no_url 1700000000000
       "2025-08-17 09:00:00" seed "1" (Some quoted_form)).1 /\
  consistent index_submission.1 /\
  consistent
    (App.post_verify RoutesSpec.no_number "2025-08-17 09:00:00" seed "1"
       (Some quoted_form)).1.
Proof.
  apply (DBFacts.handlers_keep_consistent calendar ValidationSpec.no_url
           RoutesSpec.no_number 1700000000000 "2025-08-17 09:00:00" seed "1"
           (Some quoted_form)).
  exact seed_consistent.
Defined.

Lemma index_stored_prediction_served_witness :
  exists k d,
    body_field index_submission.2 "id" = Some (JNum k) /\
    get_prediction index_submission.1 (pretty k) = Some d /\
    Predictions.id (Queries.prediction d) = k /\
    (forall s, prop quoted_form "predictor_name" = JStr s ->
       Predictions.predictor_name (Queries.prediction d) = SText s) /\
    (forall s, prop quoted_form "prediction_text" = JStr s ->
       Predictions.prediction_text (Queries.prediction d) = SText s) /\
    Predictions.created_at (Queries.prediction d) = "2025-08-17 09:00:00" /\
    Queries.outcome d = SNull /\
    (forall id d', get_prediction seed id = Some d' ->
                   get_prediction index_submission.1 id = Some d').
Proof.
  apply (DetailFacts.index_stored_prediction_served RoutesSpec.no_number
           "2025-08-17 09:00:00" seed quoted_form).
  - exact seed_consistent.
  - by vm_compute.
Defined.

Lemma hardened_stored_prediction_served_witness :
  exists k d,
    body_field hardened_submission.2 "id" = Some (JNum k) /\
    get_prediction hardened_submission.1 (pretty k) = Some d /\
    Predictions.id (Queries.prediction d) = k /\
    Predictions.predictor_name (Queries.prediction d)
      = SText (ValidationSpec.clean (prop quoted_form "predictor_name")
                 Hardened.PREDICTOR_NAME_MAX) /\
    Predictions.prediction_text (Queries.prediction d)
      = SText (ValidationSpec.clean (prop quoted_form "prediction_text")
                 Hardened.PREDICTION_TEXT_MAX) /\
    Predictions.created_at (Queries.prediction d) = "2025-08-17 09:00:00" /\
    Queries.outcome d = SNull /\
    (forall id d', get_prediction seed id = Some d' ->
                   get_prediction hardened_submission.1 id = Some d').
Proof.
  apply (HardenedRowFacts.hardened_stored_prediction_served calendar
           ValidationSpec.no_url 1700000000000 "2025-08-17 09:00:00" seed quoted_form).
  - exact seed_consistent.
  - by vm_compute.
Defined.

Lemma hardened_rows_are_sanitized_witness :
  exists row,
    hardened_submission.1 = with_prediction seed row /\
    escaped_column (Predictions.predictor_name row) Hardened.PREDICTOR_NAME_MAX /\
    escaped_column (Predictions.prediction_text row) Hardened.PREDICTION_TEXT_MAX /\
    escaped_column (Predictions.target_description row) Hardened.DESCRIPTION_MAX /\
    escaped_column (Predictions.notes row) Hardened.NOTES_MAX /\
    (exists c, Predictions.category row = SText c /\ In c Hardened.validCategories) /\
    (exists n, Predictions.confidence_level row = SInt n /\ 1 <= n <= 10).
Proof.
  apply (HardenedRowFacts.hardened_rows_are_sanitized calendar ValidationSpec.no_url
           1700000000000 "2025-08-17 09:00:00" seed quoted_form).
  by vm_compute.
Defined.

Lemma pending_counts_open_rows_witness :
  pendingPredictions (get_stats seed)
  = Z.of_nat (length (open_rows (get_predictions "2025-08-17" seed None None))).
Proof.
  apply (ListingOrderFacts.pending_counts_open_rows "2025-08-17" seed).
  - exact seed_consistent.
  - exact seed_verified_once.
Defined.

Lemma index_verifies_once_witness :
  verified_once index_submission.1 /\
  verified_once
    (App.post_verify RoutesSpec.no_number "2025-08-17 09:00:00" seed "1"
       (Some ValidationSpec.second_verification)).1.
Proof.
  apply (ListingOrderFacts.index_verifies_once RoutesSpec.no_number
           "2025-08-17 09:00:00" seed "1" (Some ValidationSpec.second_verification)).
  exact seed_verified_once.
Defined.

Lemma index_verification_served_witness :
  exists d o,
    get_prediction index_verification.1 "1" = Some d /\
    prop ValidationSpec.second_verification "outcome" = JStr o /\
    In o App.validOutcomes /\
    Queries.outcome d = SText o /\
    Queries.verification_date d = SText "2025-08-17 09:00:00" /\
    forall today category status r,
      In r (get_predictions today index_verification.1 category status) ->
      Predictions.id (Listing.prediction r) = Predictions.id (Queries.prediction d) ->
      verification_status r = "verified" /\ Listing.outcome r = SText o.
Proof.
  apply (VerifiedFacts.index_verification_served RoutesSpec.no_number
           "2025-08-17 09:00:00" seed "1" ValidationSpec.second_verification).
  by vm_compute.
Defined.

Lemma hardened_stored_only_after_every_check_witness :
  status_of hardened_route_submission.2 = Some 200 /\
  GuardsSpec.all_spaces (header_or (User_Agent RoutesSpec.browser_headers) "") = false /\
  ~ GuardsSpec.names_bot (header_or (User_Agent RoutesSpec.browser_headers) "") /\
  exists data row,
    Some quoted_form = Some data /\
    ValidationSpec.passes_bot_checks_prediction data /\
    ValidationSpec.violations calendar ValidationSpec.no_url 1700000000002 data
      Hardened.prediction = [] /\
    HardenedRoutes.db hardened_route_submission.1 = with_prediction seed row.
Proof.
  split; [by vm_compute|].
  apply (HardenedRoutesFacts.hardened_stored_only_after_every_check RoutesSpec.router
           calendar ValidationSpec.no_url RoutesSpec.browser_headers "/api/predictions"
           (Some quoted_form)
           {| HardenedRoutes.at_global := 1700000000000;
              HardenedRoutes.cleanup_global := None;
              HardenedRoutes.at_route := 1700000000001;
              HardenedRoutes.cleanup_route := None;
              HardenedRoutes.at_validation := 1700000000002 |}
           "2025-08-17 09:00:00"
           {| HardenedRoutes.limits := ∅; HardenedRoutes.db := seed |}).
  - reflexivity.
  - by vm_compute.
Defined.

End ExampleFacts.
